(** * ResNet for Tiny-ImageNet with a Gumbel-softmax checkpoint selector

  A shallow embedding of [module/resnet_tiny_imagenet.py]: the residual
  blocks, the backbone composer [_make_layer], the forward pass, the
  architecture weights [arch_weights] and the two checkpoint loaders
  [load_gumbel_weight] and [load_combination_weight].

  The tensor engine (torch) is an interface, [TensorEngine]; the forward
  pass is written once over it.  One instance, [ShapeEngine], interprets
  every primitive by its shape contract, so that shapes can be computed. *)

From Stdlib Require Import List String Ascii Arith Lia ZArith Bool.
From Stdlib Require Import DecimalString Reals Lra.
From Stdlib Require DecimalNat DecimalFacts DecimalPos DecimalZ.
Import ListNotations.

Set Implicit Arguments.
Local Open Scope list_scope.
Local Open Scope string_scope.

(* ================================================================== *)
(** ** Python strings *)

Module Py.

(** [k.startswith(p)] *)
Definition startswith (k p : string) : bool := String.prefix p k.

(** [k[n:]] *)
Fixpoint slice_from (n : nat) (k : string) : string :=
  match n, k with
  | 0, _ => k
  | S _, EmptyString => EmptyString
  | S n', String _ k' => slice_from n' k'
  end.

(** [str(n)] of a non-negative and of an arbitrary [int] *)
Definition str_of_nat (n : nat) : string :=
  NilEmpty.string_of_uint (Nat.to_uint n).

Definition str_of_int (z : Z) : string :=
  NilZero.string_of_int (Z.to_int z).

(** [str(x)] of an attribute that may be [None] *)
Definition str_of_opt (o : option string) : string :=
  match o with
  | Some s => s
  | None => "None"
  end.

(** ["{}/{}_cross_entropy_{}.model".format(root, name, id)] *)
Definition format_model_path (root name : string) (id : Z) : string :=
  root ++ "/" ++ name ++ "_cross_entropy_" ++ str_of_int id ++ ".model".

(** [xs.index(x)]; [None] stands for [ValueError]. *)
Fixpoint index (xs : list string) (x : string) : option nat :=
  match xs with
  | [] => None
  | y :: ys => if String.eqb y x then Some 0
               else option_map S (index ys x)
  end.

End Py.

(* ================================================================== *)
(** ** Python dictionaries with string keys

  A [dict] keeps its items in insertion order and that order decides
  which value survives when a comprehension produces one key twice, so
  a dictionary is its list of items. *)

Module Dict.
Section Dict.
Variable V : Type.

Definition t := list (string * V).

Definition keys (d : t) : list string := map fst d.

(** [d.get(k)] *)
Fixpoint get (k : string) (d : t) : option V :=
  match d with
  | [] => None
  | (k', v) :: d' => if String.eqb k' k then Some v else get k d'
  end.

(** [k in d] *)
Definition mem (k : string) (d : t) : bool :=
  match get k d with Some _ => true | None => false end.

(** [d[k] = v]: an existing key keeps its position. *)
Fixpoint set (k : string) (v : V) (d : t) : t :=
  match d with
  | [] => [(k, v)]
  | (k', v') :: d' =>
      if String.eqb k' k then (k', v) :: d' else (k', v') :: set k v d'
  end.

(** [d.update(e)] *)
Definition update (d e : t) : t :=
  fold_left (fun acc kv => set (fst kv) (snd kv) acc) e d.

(** [{f(k): v for k, v in d.items() if p(k)}] *)
Definition comprehension (f : string -> string) (p : string -> bool)
           (d : t) : t :=
  fold_left (fun acc kv => if p (fst kv) then set (f (fst kv)) (snd kv) acc
                           else acc) d [].

(** The value [update] leaves at [k]: the last item of [e] with that key,
    and the one of [d] when [e] has none. *)
Fixpoint get_last (k : string) (e : t) : option V :=
  match e with
  | [] => None
  | (k', v) :: e' =>
      match get_last k e' with
      | Some w => Some w
      | None => if String.eqb k' k then Some v else None
      end
  end.

End Dict.
End Dict.

(* ================================================================== *)
(** ** The tensor engine

    torch is an external collaborator: the program only calls its
    primitives.  [None] is an exception raised by a primitive. *)

(** How a constructor fills a fresh tensor. *)
Inductive init_kind :=
| Normal (n : nat)   (** [normal_(0, math.sqrt(2. / n))] *)
| Fill (c : Z)       (** [fill_(c)], [zero_()] *)
| Default.           (** the layer's own initialisation, left as it is *)

Class TensorEngine (T : Type) := {
  shape : T -> list nat;
  (** a fresh tensor of a shape; the last argument names the draw of the
      global random generator it consumes *)
  init_tensor : list nat -> init_kind -> nat -> T;
  shape_init : forall s k r, shape (init_tensor s k r) = s;
  (** [F.conv2d(x, weight, None, stride, padding)] *)
  conv2d : T -> T -> nat -> nat -> option T;
  (** [F.batch_norm(x, running_mean, running_var, weight, bias)] *)
  batch_norm : T -> T -> T -> T -> T -> option T;
  relu : T -> T;
  (** [out += residual] *)
  iadd : T -> T -> option T;
  (** [F.adaptive_avg_pool2d(x, output_size)] *)
  adaptive_avg_pool2d : T -> nat -> option T;
  (** [x.view(x.size(0), -1)] *)
  view_rows : T -> option T;
  (** [F.linear(x, weight, bias)] *)
  linear : T -> T -> T -> option T;
  (** [x / temp] *)
  div_scalar : T -> R -> T
}.

Definition shape_eqb (s1 s2 : list nat) : bool :=
  if list_eq_dec Nat.eq_dec s1 s2 then true else false.

(** The exception monad of the forward pass. *)
Definition obind {A B : Type} (o : option A) (k : A -> option B) : option B :=
  match o with
  | Some a => k a
  | None => None
  end.

Declare Scope fwd_scope.
Delimit Scope fwd_scope with fwd.
Notation "x <- c ;; k" := (obind c (fun x => k))
  (at level 61, c at next level, right associativity) : fwd_scope.

(* ================================================================== *)
(** ** Constructors run in a state monad

    [self.inplanes] is assigned by [_make_layer] while the backbone is
    built, and every fresh random tensor advances the global generator. *)

Module Ctor.

Record state := { inplanes : nat; rng : nat }.

Definition t (A : Type) := state -> A * state.

Definition ret {A : Type} (a : A) : t A := fun s => (a, s).

Definition bind {A B : Type} (c : t A) (k : A -> t B) : t B :=
  fun s => let (a, s') := c s in k a s'.

Definition draw : t nat :=
  fun s => (rng s, {| inplanes := inplanes s; rng := S (rng s) |}).

Definition get_inplanes : t nat := fun s => (inplanes s, s).

Definition set_inplanes (n : nat) : t unit :=
  fun s => (tt, {| inplanes := n; rng := rng s |}).

End Ctor.

Declare Scope ctor_scope.
Delimit Scope ctor_scope with ctor.
Notation "x <- c ;; k" := (Ctor.bind c (fun x => k))
  (at level 61, c at next level, right associativity) : ctor_scope.

(* ================================================================== *)
(** ** [nn.Module]: named parameters and [load_state_dict] *)

Class Module (T M : Type) := {
  (** [m.state_dict(prefix=p)], parameters and buffers in registration
      order *)
  state_dict : string -> M -> Dict.t T;
  (** rewrite every parameter in place, by name *)
  map_parameters : (string -> T -> T) -> string -> M -> M
}.

Inductive load_error :=
| Unexpected_keys (ks : list string)
| Missing_keys (ks : list string)
| Size_mismatch (k : string).

Section LoadStateDict.
Context {T : Type} `{TensorEngine T}.

(** [param.copy_(input_param)] of [_load_from_state_dict]: a key of the
    module found in the checkpoint with the module's shape is copied; a
    key that is missing, or has another shape, leaves the value alone. *)
Definition copy_ (sd : Dict.t T) (k : string) (old : T) : T :=
  match Dict.get k sd with
  | Some v => if shape_eqb (shape v) (shape old) then v else old
  | None => old
  end.

Definition size_mismatch (sd : Dict.t T) (kv : string * T) : bool :=
  match Dict.get (fst kv) sd with
  | Some v => negb (shape_eqb (shape v) (shape (snd kv)))
  | None => false
  end.

Definition nonempty_msg (mk : list string -> load_error) (ks : list string)
  : list load_error :=
  match ks with
  | [] => []
  | _ :: _ => [mk ks]
  end.

(** [m.load_state_dict(sd, strict)].  The second component is
    [error_msgs]; the caller raises [RuntimeError] when it is not empty,
    after the matching parameters have been copied. *)
Definition load_state_dict {M : Type} `{Module T M}
           (m : M) (sd : Dict.t T) (strict : bool) : M * list load_error :=
  let expected := state_dict "" m in
  let unexpected :=
    filter (fun k => negb (Dict.mem k expected)) (Dict.keys sd) in
  let missing :=
    filter (fun k => negb (Dict.mem k sd)) (Dict.keys expected) in
  let size_errors :=
    map (fun kv => Size_mismatch (fst kv)) (filter (size_mismatch sd) expected) in
  (map_parameters (copy_ sd) "" m,
   if strict
   then (nonempty_msg Missing_keys missing
         ++ nonempty_msg Unexpected_keys unexpected ++ size_errors)%list
   else size_errors).

End LoadStateDict.

(* ================================================================== *)
(** ** Layers *)

Module Conv2d.
Section Conv2d.
Context {T : Type} `{TensorEngine T}.

(** [nn.Conv2d(in_channels, out_channels, kernel_size, stride, padding,
    bias=False)]: every convolution of this file is square and has no
    bias. *)
Record t := {
  in_channels : nat;
  out_channels : nat;
  kernel_size : nat;
  stride : nat;
  padding : nat;
  weight : T
}.

(** The weight is the one left by the loop at the end of
    [ResNet.__init__]: [n = kernel_size[0] * kernel_size[1] * out_channels]
    and [weight.data.normal_(0, math.sqrt(2. / n))]. *)
Definition __init__ (i o k s p : nat) : Ctor.t t :=
  (r <- Ctor.draw ;;
   Ctor.ret {| in_channels := i; out_channels := o; kernel_size := k;
               stride := s; padding := p;
               weight := init_tensor [o; i; k; k] (Normal (k * k * o)) r |})%ctor.

Definition forward (c : t) (x : T) : option T :=
  conv2d x (weight c) (stride c) (padding c).

Definition named (p : string) (c : t) : Dict.t T :=
  [(p ++ "weight", weight c)].

Definition map_named (f : string -> T -> T) (p : string) (c : t) : t :=
  {| in_channels := in_channels c; out_channels := out_channels c;
     kernel_size := kernel_size c; stride := stride c;
     padding := padding c; weight := f (p ++ "weight") (weight c) |}.

#[global] Instance module : Module T t := {|
  state_dict := named;
  map_parameters := map_named
|}.

End Conv2d.
End Conv2d.

Module BatchNorm2d.
Section BatchNorm2d.
Context {T : Type} `{TensorEngine T}.

Record t := {
  num_features : nat;
  weight : T;
  bias : T;
  running_mean : T;
  running_var : T;
  num_batches_tracked : T
}.

(** [nn.BatchNorm2d(n)], with [weight.data.fill_(1)] and
    [bias.data.zero_()] of [ResNet.__init__]. *)
Definition __init__ (n : nat) : t :=
  {| num_features := n;
     weight := init_tensor [n] (Fill 1) 0;
     bias := init_tensor [n] (Fill 0) 0;
     running_mean := init_tensor [n] (Fill 0) 0;
     running_var := init_tensor [n] (Fill 1) 0;
     num_batches_tracked := init_tensor [] (Fill 0) 0 |}.

Definition forward (b : t) (x : T) : option T :=
  batch_norm x (running_mean b) (running_var b) (weight b) (bias b).

Definition named (p : string) (b : t) : Dict.t T :=
  [(p ++ "weight", weight b); (p ++ "bias", bias b);
   (p ++ "running_mean", running_mean b);
   (p ++ "running_var", running_var b);
   (p ++ "num_batches_tracked", num_batches_tracked b)].

Definition map_named (f : string -> T -> T) (p : string) (b : t) : t :=
  {| num_features := num_features b;
     weight := f (p ++ "weight") (weight b);
     bias := f (p ++ "bias") (bias b);
     running_mean := f (p ++ "running_mean") (running_mean b);
     running_var := f (p ++ "running_var") (running_var b);
     num_batches_tracked :=
       f (p ++ "num_batches_tracked") (num_batches_tracked b) |}.

#[global] Instance module : Module T t := {|
  state_dict := named;
  map_parameters := map_named
|}.

End BatchNorm2d.
End BatchNorm2d.

Module Linear.
Section Linear.
Context {T : Type} `{TensorEngine T}.

Record t := {
  in_features : nat;
  out_features : nat;
  weight : T;
  bias : T
}.

(** [nn.Linear(i, o)]; the loop of [ResNet.__init__] leaves it alone. *)
Definition __init__ (i o : nat) : Ctor.t t :=
  (r1 <- Ctor.draw ;;
   r2 <- Ctor.draw ;;
   Ctor.ret {| in_features := i; out_features := o;
               weight := init_tensor [o; i] Default r1;
               bias := init_tensor [o] Default r2 |})%ctor.

Definition forward (l : t) (x : T) : option T :=
  linear x (weight l) (bias l).

Definition named (p : string) (l : t) : Dict.t T :=
  [(p ++ "weight", weight l); (p ++ "bias", bias l)].

Definition map_named (f : string -> T -> T) (p : string) (l : t) : t :=
  {| in_features := in_features l; out_features := out_features l;
     weight := f (p ++ "weight") (weight l);
     bias := f (p ++ "bias") (bias l) |}.

#[global] Instance module : Module T t := {|
  state_dict := named;
  map_parameters := map_named
|}.

End Linear.
End Linear.

(** The downsample path, [nn.Sequential(nn.Conv2d(...), nn.BatchNorm2d(...))]:
    its children are named ["0"] and ["1"]. *)
Module Downsample.
Section Downsample.
Context {T : Type} `{TensorEngine T}.

Record t := {
  conv : Conv2d.t (T:=T);
  bn : BatchNorm2d.t (T:=T)
}.

Definition forward (d : t) (x : T) : option T :=
  (y <- Conv2d.forward (conv d) x ;;
   BatchNorm2d.forward (bn d) y)%fwd.

Definition named (p : string) (d : t) : Dict.t T :=
  (Conv2d.named (p ++ "0.") (conv d)
   ++ BatchNorm2d.named (p ++ "1.") (bn d))%list.

Definition map_named (f : string -> T -> T) (p : string) (d : t) : t :=
  {| conv := Conv2d.map_named f (p ++ "0.") (conv d);
     bn := BatchNorm2d.map_named f (p ++ "1.") (bn d) |}.

#[global] Instance module : Module T t := {|
  state_dict := named;
  map_parameters := map_named
|}.

End Downsample.
End Downsample.

(* ================================================================== *)
(** ** Residual blocks *)

(** [conv3x3(in_planes, out_planes, stride)] *)
Definition conv3x3 {T : Type} `{TensorEngine T} (in_planes out_planes stride : nat)
  : Ctor.t (Conv2d.t (T:=T)) :=
  Conv2d.__init__ in_planes out_planes 3 stride 1.

Definition named_downsample {T : Type} `{TensorEngine T}
           (p : string) (d : option (Downsample.t (T:=T))) : Dict.t T :=
  match d with
  | Some d' => Downsample.named (p ++ "downsample.") d'
  | None => []
  end.

Definition map_downsample {T : Type} `{TensorEngine T}
           (f : string -> T -> T) (p : string)
           (d : option (Downsample.t (T:=T))) : option (Downsample.t (T:=T)) :=
  option_map (Downsample.map_named f (p ++ "downsample.")) d.

Module BasicBlock.
Section BasicBlock.
Context {T : Type} `{TensorEngine T}.

Definition expansion : nat := 1.

Record t := {
  conv1 : Conv2d.t (T:=T);
  bn1 : BatchNorm2d.t (T:=T);
  conv2 : Conv2d.t (T:=T);
  bn2 : BatchNorm2d.t (T:=T);
  downsample : option (Downsample.t (T:=T));
  stride : nat
}.

Definition __init__ (inplanes planes stride : nat)
           (downsample : option (Downsample.t (T:=T))) : Ctor.t t :=
  (c1 <- conv3x3 inplanes planes stride ;;
   let b1 := BatchNorm2d.__init__ planes in
   c2 <- conv3x3 planes planes 1 ;;
   let b2 := BatchNorm2d.__init__ planes in
   Ctor.ret {| conv1 := c1; bn1 := b1; conv2 := c2; bn2 := b2;
               downsample := downsample; stride := stride |})%ctor.

(** [out] just before [out += residual] *)
Definition main_path (b : t) (x : T) : option T :=
  (out <- Conv2d.forward (conv1 b) x ;;
   out <- BatchNorm2d.forward (bn1 b) out ;;
   let out := relu out in
   out <- Conv2d.forward (conv2 b) out ;;
   BatchNorm2d.forward (bn2 b) out)%fwd.

(** [residual] just before [out += residual] *)
Definition residual (b : t) (x : T) : option T :=
  match downsample b with
  | Some d => Downsample.forward d x
  | None => Some x
  end.

Definition forward (b : t) (x : T) : option T :=
  (out <- main_path b x ;;
   res <- residual b x ;;
   out <- iadd out res ;;
   Some (relu out))%fwd.

Definition named (p : string) (b : t) : Dict.t T :=
  (Conv2d.named (p ++ "conv1.") (conv1 b)
   ++ BatchNorm2d.named (p ++ "bn1.") (bn1 b)
   ++ Conv2d.named (p ++ "conv2.") (conv2 b)
   ++ BatchNorm2d.named (p ++ "bn2.") (bn2 b)
   ++ named_downsample p (downsample b))%list.

Definition map_named (f : string -> T -> T) (p : string) (b : t) : t :=
  {| conv1 := Conv2d.map_named f (p ++ "conv1.") (conv1 b);
     bn1 := BatchNorm2d.map_named f (p ++ "bn1.") (bn1 b);
     conv2 := Conv2d.map_named f (p ++ "conv2.") (conv2 b);
     bn2 := BatchNorm2d.map_named f (p ++ "bn2.") (bn2 b);
     downsample := map_downsample f p (downsample b);
     stride := stride b |}.

End BasicBlock.
End BasicBlock.

Module Bottleneck.
Section Bottleneck.
Context {T : Type} `{TensorEngine T}.

Definition expansion : nat := 4.

Record t := {
  conv1 : Conv2d.t (T:=T);
  bn1 : BatchNorm2d.t (T:=T);
  conv2 : Conv2d.t (T:=T);
  bn2 : BatchNorm2d.t (T:=T);
  conv3 : Conv2d.t (T:=T);
  bn3 : BatchNorm2d.t (T:=T);
  downsample : option (Downsample.t (T:=T));
  stride : nat
}.

Definition __init__ (inplanes planes stride : nat)
           (downsample : option (Downsample.t (T:=T))) : Ctor.t t :=
  (c1 <- Conv2d.__init__ inplanes planes 1 1 0 ;;
   let b1 := BatchNorm2d.__init__ planes in
   c2 <- Conv2d.__init__ planes planes 3 stride 1 ;;
   let b2 := BatchNorm2d.__init__ planes in
   c3 <- Conv2d.__init__ planes (planes * 4) 1 1 0 ;;
   let b3 := BatchNorm2d.__init__ (planes * 4) in
   Ctor.ret {| conv1 := c1; bn1 := b1; conv2 := c2; bn2 := b2;
               conv3 := c3; bn3 := b3;
               downsample := downsample; stride := stride |})%ctor.

Definition main_path (b : t) (x : T) : option T :=
  (out <- Conv2d.forward (conv1 b) x ;;
   out <- BatchNorm2d.forward (bn1 b) out ;;
   let out := relu out in
   out <- Conv2d.forward (conv2 b) out ;;
   out <- BatchNorm2d.forward (bn2 b) out ;;
   let out := relu out in
   out <- Conv2d.forward (conv3 b) out ;;
   BatchNorm2d.forward (bn3 b) out)%fwd.

Definition residual (b : t) (x : T) : option T :=
  match downsample b with
  | Some d => Downsample.forward d x
  | None => Some x
  end.

Definition forward (b : t) (x : T) : option T :=
  (out <- main_path b x ;;
   res <- residual b x ;;
   out <- iadd out res ;;
   Some (relu out))%fwd.

Definition named (p : string) (b : t) : Dict.t T :=
  (Conv2d.named (p ++ "conv1.") (conv1 b)
   ++ BatchNorm2d.named (p ++ "bn1.") (bn1 b)
   ++ Conv2d.named (p ++ "conv2.") (conv2 b)
   ++ BatchNorm2d.named (p ++ "bn2.") (bn2 b)
   ++ Conv2d.named (p ++ "conv3.") (conv3 b)
   ++ BatchNorm2d.named (p ++ "bn3.") (bn3 b)
   ++ named_downsample p (downsample b))%list.

Definition map_named (f : string -> T -> T) (p : string) (b : t) : t :=
  {| conv1 := Conv2d.map_named f (p ++ "conv1.") (conv1 b);
     bn1 := BatchNorm2d.map_named f (p ++ "bn1.") (bn1 b);
     conv2 := Conv2d.map_named f (p ++ "conv2.") (conv2 b);
     bn2 := BatchNorm2d.map_named f (p ++ "bn2.") (bn2 b);
     conv3 := Conv2d.map_named f (p ++ "conv3.") (conv3 b);
     bn3 := BatchNorm2d.map_named f (p ++ "bn3.") (bn3 b);
     downsample := map_downsample f p (downsample b);
     stride := stride b |}.

End Bottleneck.
End Bottleneck.

(** The [block] argument is one of the two classes; a block is an
    instance of one of them. *)
Module Block.

Inductive cls := Basic | Bottle.

Definition expansion (c : cls) : nat :=
  match c with
  | Basic => BasicBlock.expansion
  | Bottle => Bottleneck.expansion
  end.

Section Block.
Context {T : Type} `{TensorEngine T}.

Inductive t :=
| OfBasic (b : BasicBlock.t (T:=T))
| OfBottle (b : Bottleneck.t (T:=T)).

(** [block(inplanes, planes, stride, downsample)] *)
Definition __init__ (c : cls) (inplanes planes stride : nat)
           (downsample : option (Downsample.t (T:=T))) : Ctor.t t :=
  match c with
  | Basic =>
      (b <- BasicBlock.__init__ inplanes planes stride downsample ;;
       Ctor.ret (OfBasic b))%ctor
  | Bottle =>
      (b <- Bottleneck.__init__ inplanes planes stride downsample ;;
       Ctor.ret (OfBottle b))%ctor
  end.

Definition class_of (b : t) : cls :=
  match b with
  | OfBasic _ => Basic
  | OfBottle _ => Bottle
  end.

Definition stride (b : t) : nat :=
  match b with
  | OfBasic b' => BasicBlock.stride b'
  | OfBottle b' => Bottleneck.stride b'
  end.

Definition downsample (b : t) : option (Downsample.t (T:=T)) :=
  match b with
  | OfBasic b' => BasicBlock.downsample b'
  | OfBottle b' => Bottleneck.downsample b'
  end.

(** the channel count the block takes: [conv1.in_channels] *)
Definition in_channels (b : t) : nat :=
  match b with
  | OfBasic b' => Conv2d.in_channels (BasicBlock.conv1 b')
  | OfBottle b' => Conv2d.in_channels (Bottleneck.conv1 b')
  end.

(** the width [planes] of the block: [bn1.num_features] *)
Definition planes (b : t) : nat :=
  match b with
  | OfBasic b' => BatchNorm2d.num_features (BasicBlock.bn1 b')
  | OfBottle b' => BatchNorm2d.num_features (Bottleneck.bn1 b')
  end.

(** the channel count the main path leaves: the features of its last
    normalization *)
Definition out_channels (b : t) : nat :=
  match b with
  | OfBasic b' => BatchNorm2d.num_features (BasicBlock.bn2 b')
  | OfBottle b' => BatchNorm2d.num_features (Bottleneck.bn3 b')
  end.

Definition main_path (b : t) (x : T) : option T :=
  match b with
  | OfBasic b' => BasicBlock.main_path b' x
  | OfBottle b' => Bottleneck.main_path b' x
  end.

Definition residual (b : t) (x : T) : option T :=
  match b with
  | OfBasic b' => BasicBlock.residual b' x
  | OfBottle b' => Bottleneck.residual b' x
  end.

Definition forward (b : t) (x : T) : option T :=
  match b with
  | OfBasic b' => BasicBlock.forward b' x
  | OfBottle b' => Bottleneck.forward b' x
  end.

Definition named (p : string) (b : t) : Dict.t T :=
  match b with
  | OfBasic b' => BasicBlock.named p b'
  | OfBottle b' => Bottleneck.named p b'
  end.

Definition map_named (f : string -> T -> T) (p : string) (b : t) : t :=
  match b with
  | OfBasic b' => OfBasic (BasicBlock.map_named f p b')
  | OfBottle b' => OfBottle (Bottleneck.map_named f p b')
  end.

End Block.
End Block.

(** The [nn.Sequential] of the blocks of one stage: the children are named
    by their position. *)
Module Sequential.
Section Sequential.
Context {T : Type} `{TensorEngine T}.

Definition t := list (Block.t (T:=T)).

Fixpoint forward (l : t) (x : T) : option T :=
  match l with
  | [] => Some x
  | b :: l' => (y <- Block.forward b x ;; forward l' y)%fwd
  end.

Fixpoint named_from (i : nat) (p : string) (l : t) : Dict.t T :=
  match l with
  | [] => []
  | b :: l' =>
      (Block.named (p ++ Py.str_of_nat i ++ ".") b
       ++ named_from (S i) p l')%list
  end.

Fixpoint map_named_from (i : nat) (f : string -> T -> T) (p : string)
         (l : t) : t :=
  match l with
  | [] => []
  | b :: l' =>
      Block.map_named f (p ++ Py.str_of_nat i ++ ".") b
      :: map_named_from (S i) f p l'
  end.

Definition named (p : string) (l : t) : Dict.t T := named_from 0 p l.

Definition map_named (f : string -> T -> T) (p : string) (l : t) : t :=
  map_named_from 0 f p l.

#[global] Instance module : Module T t := {|
  state_dict := named;
  map_parameters := map_named
|}.

End Sequential.
End Sequential.

(* ================================================================== *)
(** ** The Gumbel-softmax sampler

    [gumbel_like] and [gumbel_softmax_v1] are imported from [utils], which
    is not among the sources; they are modelled on real numbers. *)

(** The two distributions the constructor samples: entry [(i, j)] of the
    draw number [r]. *)
Class RandomSource := {
  randn : nat -> nat -> nat -> R;
  gumbel_noise : nat -> nat -> nat -> R
}.

Definition Rsum (xs : list R) : R := fold_right Rplus 0%R xs.

(** [softmax] along one row *)
Definition softmax (xs : list R) : list R :=
  map (fun e => (e / Rsum (map exp xs))%R) (map exp xs).

(** Modelled from the spec: [utils.gumbel_softmax_v1(logits, tau, dim=-1, g)]
    is missing; the spec gives, for each decision point independently,
    [softmax((logit + gumbel_noise) / tau)] along the candidate axis. *)
Definition gumbel_softmax (logits : list (list R)) (tau : R)
           (g : list (list R)) : list (list R) :=
  map (fun lg =>
         softmax (map (fun ag => ((fst ag + snd ag) / tau)%R)
                      (combine (fst lg) (snd lg))))
      (combine logits g).

(** Modelled from the spec: [utils.gumbel_like(t)] is missing; the spec
    gives one sample of Gumbel noise of the shape of its argument. *)
Definition gumbel_like `{RandomSource} (r : nat) (t : list (list R))
  : list (list R) :=
  map (fun irow =>
         map (fun j => gumbel_noise r (fst irow) j)
             (seq 0 (List.length (snd irow))))
      (combine (seq 0 (List.length t)) t).

(** [torch.argmax] along one row: the first maximal entry. *)
Fixpoint argmax_from (best_i : nat) (best : R) (i : nat) (xs : list R) : nat :=
  match xs with
  | [] => best_i
  | x :: xs' =>
      if Rlt_dec best x then argmax_from i x (S i) xs'
      else argmax_from best_i best (S i) xs'
  end.

Definition argmax (xs : list R) : nat :=
  match xs with
  | [] => 0
  | x :: xs' => argmax_from 0 x 1 xs'
  end.

(** [torch.argmax(weights, -1)] *)
Definition torch_argmax (weights : list (list R)) : list nat :=
  map argmax weights.

(** [torch.cat(weights)] *)
Definition torch_cat (weights : list (list R)) : list R := List.concat weights.

(** [Union[List[torch.tensor], torch.tensor]] *)
Inductive arch_weights_result :=
| Flat (w : list R)
| PerPoint (w : list (list R)).

(* ================================================================== *)
(** ** The network *)

Module ResNet.
Section ResNet.
Context {T : Type} `{TensorEngine T} `{RandomSource}.

(** The attributes of an instance.  [_criterion] is an opaque callable
    that no method of the class reads; it is left out. *)
Record t := {
  inplanes : nat;
  conv1 : Conv2d.t (T:=T);
  bn1 : BatchNorm2d.t (T:=T);
  layer1 : Sequential.t (T:=T);
  layer2 : Sequential.t (T:=T);
  layer3 : Sequential.t (T:=T);
  layer4 : Sequential.t (T:=T);
  avgpool : nat;
  fc : Linear.t (T:=T);
  temp : R;
  block_names : list string;
  weight_root : option string;
  _block : Block.cls;
  _num_classes : nat;
  _tau : R;
  model_name : string;
  alphas : list (list R);
  gumbel : list (list R)
}.

(** [for i in range(1, blocks): layers.append(block(self.inplanes, planes))] *)
Fixpoint append_blocks (block : Block.cls) (planes : nat) (range : list nat)
  : Ctor.t (list (Block.t (T:=T))) :=
  match range with
  | [] => Ctor.ret []
  | _ :: range' =>
      (inplanes <- Ctor.get_inplanes ;;
       b <- Block.__init__ block inplanes planes 1 None ;;
       bs <- append_blocks block planes range' ;;
       Ctor.ret (b :: bs))%ctor
  end.

Definition _make_layer (block : Block.cls) (planes blocks stride : nat)
  : Ctor.t (Sequential.t (T:=T)) :=
  (inplanes <- Ctor.get_inplanes ;;
   downsample <-
     (if negb (Nat.eqb stride 1)
         || negb (Nat.eqb inplanes (planes * Block.expansion block))
      then
        c <- Conv2d.__init__ inplanes (planes * Block.expansion block) 1 stride 0 ;;
        Ctor.ret (Some {| Downsample.conv := c;
                          Downsample.bn :=
                            BatchNorm2d.__init__ (planes * Block.expansion block) |})
      else Ctor.ret None) ;;
   first <- Block.__init__ block inplanes planes stride downsample ;;
   _ <- Ctor.set_inplanes (planes * Block.expansion block) ;;
   rest <- append_blocks block planes (seq 1 (blocks - 1)) ;;
   Ctor.ret (first :: rest))%ctor.

Definition k : nat := 5.
Definition num_ops : nat := 100.

(** [self.alphas = 1e-3 * torch.randn(k, num_ops)] and
    [self.gumbel = gumbel_like(self.alphas)] *)
Definition _initialize_alphas : Ctor.t (list (list R) * list (list R)) :=
  (r <- Ctor.draw ;;
   let alphas :=
     map (fun i => map (fun j => (1 / 1000 * randn r i j)%R) (seq 0 num_ops))
         (seq 0 k) in
   r' <- Ctor.draw ;;
   Ctor.ret (alphas, gumbel_like r' alphas))%ctor.

(** The body of [__init__] once [layers[0]] .. [layers[3]] are read. *)
Definition construct (block : Block.cls) (l0 l1 l2 l3 : nat) (tau : R)
           (num_classes : nat) (temp : R) (weight_root : option string)
  : Ctor.t t :=
  (c1 <- Conv2d.__init__ 3 64 3 1 1 ;;
   let b1 := BatchNorm2d.__init__ 64 in
   ly1 <- _make_layer block 64 l0 1 ;;
   ly2 <- _make_layer block 128 l1 2 ;;
   ly3 <- _make_layer block 256 l2 2 ;;
   ly4 <- _make_layer block 512 l3 2 ;;
   f <- Linear.__init__ (512 * Block.expansion block * 4) num_classes ;;
   ag <- _initialize_alphas ;;
   inplanes <- Ctor.get_inplanes ;;
   Ctor.ret {| inplanes := inplanes;
               conv1 := c1; bn1 := b1;
               layer1 := ly1; layer2 := ly2; layer3 := ly3; layer4 := ly4;
               avgpool := 2;
               fc := f;
               temp := temp;
               block_names := ["layer1"; "layer2"; "layer3"; "layer4"; "fc"];
               weight_root := weight_root;
               _block := block;
               _num_classes := num_classes;
               _tau := tau;
               model_name := "resnet50_ti";
               alphas := fst ag;
               gumbel := snd ag |})%ctor.

(** [ResNet(block, layers, tau=tau, num_classes=num_classes, temp=temp,
    weight_root=weight_root)], run from the state [rng0] of the global
    generator; [None] is the [IndexError] of a [layers] shorter than four. *)
Definition __init__ (block : Block.cls) (layers : list nat) (tau : R)
           (num_classes : nat) (temp : R) (weight_root : option string)
           (rng0 : nat) : option t :=
  match layers with
  | l0 :: l1 :: l2 :: l3 :: _ =>
      Some (fst (construct block l0 l1 l2 l3 tau num_classes temp weight_root
                           {| Ctor.inplanes := 64; Ctor.rng := rng0 |}))
  | _ => None
  end.

Definition forward (m : t) (x : T) : option T :=
  (x <- Conv2d.forward (conv1 m) x ;;
   x <- BatchNorm2d.forward (bn1 m) x ;;
   let x := relu x in
   x <- Sequential.forward (layer1 m) x ;;
   x <- Sequential.forward (layer2 m) x ;;
   x <- Sequential.forward (layer3 m) x ;;
   x <- Sequential.forward (layer4 m) x ;;
   x <- adaptive_avg_pool2d x (avgpool m) ;;
   x <- view_rows x ;;
   x <- Linear.forward (fc m) x ;;
   Some (div_scalar x (temp m)))%fwd.

Definition arch_parameters (m : t) : list (list (list R)) := [alphas m].

Definition arch_weights (m : t) (smooth cat : bool) : arch_weights_result :=
  let weights := gumbel_softmax (alphas m) (_tau m) (gumbel m) in
  if cat then Flat (torch_cat weights) else PerPoint weights.


(** *** The state dict of the network *)

(** The instance with its seven parameterised children replaced. *)
Definition with_children (m : t) c1 b1 l1 l2 l3 l4 f : t :=
  {| inplanes := inplanes m;
     conv1 := c1; bn1 := b1;
     layer1 := l1; layer2 := l2; layer3 := l3; layer4 := l4;
     avgpool := avgpool m;
     fc := f;
     temp := temp m;
     block_names := block_names m;
     weight_root := weight_root m;
     _block := _block m;
     _num_classes := _num_classes m;
     _tau := _tau m;
     model_name := model_name m;
     alphas := alphas m;
     gumbel := gumbel m |}.

Definition named (p : string) (m : t) : Dict.t T :=
  (Conv2d.named (p ++ "conv1.") (conv1 m)
   ++ BatchNorm2d.named (p ++ "bn1.") (bn1 m)
   ++ Sequential.named (p ++ "layer1.") (layer1 m)
   ++ Sequential.named (p ++ "layer2.") (layer2 m)
   ++ Sequential.named (p ++ "layer3.") (layer3 m)
   ++ Sequential.named (p ++ "layer4.") (layer4 m)
   ++ Linear.named (p ++ "fc.") (fc m))%list.

Definition map_named (f : string -> T -> T) (p : string) (m : t) : t :=
  with_children m
    (Conv2d.map_named f (p ++ "conv1.") (conv1 m))
    (BatchNorm2d.map_named f (p ++ "bn1.") (bn1 m))
    (Sequential.map_named f (p ++ "layer1.") (layer1 m))
    (Sequential.map_named f (p ++ "layer2.") (layer2 m))
    (Sequential.map_named f (p ++ "layer3.") (layer3 m))
    (Sequential.map_named f (p ++ "layer4.") (layer4 m))
    (Linear.map_named f (p ++ "fc.") (fc m)).

#[global] Instance module : Module T t := {|
  state_dict := named;
  map_parameters := map_named
|}.

(** *** The block groups *)

(** What [getattr(self, block_name)] returns for the names of
    [block_names]: a stage or the classification head. *)
Inductive group :=
| Stage (l : Sequential.t (T:=T))
| Head (l : Linear.t (T:=T)).

Definition getattr (m : t) (block_name : string) : option group :=
  if String.eqb block_name "layer1" then Some (Stage (layer1 m))
  else if String.eqb block_name "layer2" then Some (Stage (layer2 m))
  else if String.eqb block_name "layer3" then Some (Stage (layer3 m))
  else if String.eqb block_name "layer4" then Some (Stage (layer4 m))
  else if String.eqb block_name "fc" then Some (Head (fc m))
  else None.

Definition group_named (p : string) (g : group) : Dict.t T :=
  match g with
  | Stage l => Sequential.named p l
  | Head l => Linear.named p l
  end.

Definition group_map_named (f : string -> T -> T) (p : string) (g : group)
  : group :=
  match g with
  | Stage l => Stage (Sequential.map_named f p l)
  | Head l => Head (Linear.map_named f p l)
  end.

#[global] Instance group_module : Module T group := {|
  state_dict := group_named;
  map_parameters := group_map_named
|}.

(** The group is mutated in place through the reference [getattr]
    returned: the instance afterwards holds the new group under the same
    name. *)
Definition store_group (m : t) (block_name : string) (g : group) : t :=
  match g with
  | Stage l =>
      if String.eqb block_name "layer1"
      then with_children m (conv1 m) (bn1 m) l (layer2 m) (layer3 m) (layer4 m) (fc m)
      else if String.eqb block_name "layer2"
      then with_children m (conv1 m) (bn1 m) (layer1 m) l (layer3 m) (layer4 m) (fc m)
      else if String.eqb block_name "layer3"
      then with_children m (conv1 m) (bn1 m) (layer1 m) (layer2 m) l (layer4 m) (fc m)
      else if String.eqb block_name "layer4"
      then with_children m (conv1 m) (bn1 m) (layer1 m) (layer2 m) (layer3 m) l (fc m)
      else m
  | Head l =>
      if String.eqb block_name "fc"
      then with_children m (conv1 m) (bn1 m) (layer1 m) (layer2 m) (layer3 m) (layer4 m) l
      else m
  end.


(** *** Method calls that read checkpoints

    A loader mutates the instance in place and may raise after it has
    done so; it reads the checkpoint store [fs], where an absent file
    makes [torch.load] raise.  [opened] logs the paths given to
    [torch.load], oldest first. *)

Inductive exn :=
| FileNotFoundError (path : string)
| RuntimeError (error_msgs : list load_error)
| IndexError
| ValueError
| AttributeError (name : string).

Record call_state := {
  self : t;
  opened : list string
}.

Definition call (A : Type) := call_state -> call_state * (exn + A).

Definition ret {A : Type} (a : A) : call A := fun s => (s, inr a).

Definition raise {A : Type} (e : exn) : call A := fun s => (s, inl e).

Definition bind {A B : Type} (c : call A) (k : A -> call B) : call B :=
  fun s => match c s with
           | (s', inr a) => k a s'
           | (s', inl e) => (s', inl e)
           end.

Definition get_self : call t := fun s => (s, inr (self s)).

Definition put_self (m : t) : call unit :=
  fun s => ({| self := m; opened := opened s |}, inr tt).

Fixpoint for_each {A : Type} (xs : list A) (body : A -> call unit)
  : call unit :=
  match xs with
  | [] => ret tt
  | x :: xs' => bind (body x) (fun _ => for_each xs' body)
  end.

Variable fs : string -> option (Dict.t T).

(** [torch.load(str(path))] *)
Definition torch_load (path : string) : call (Dict.t T) :=
  fun s =>
    let s' := {| self := self s; opened := (opened s ++ [path])%list |} in
    match fs path with
    | Some model_dict => (s', inr model_dict)
    | None => (s', inl (FileNotFoundError path))
    end.

Definition raise_if_errors (error_msgs : list load_error) : call unit :=
  match error_msgs with
  | [] => ret tt
  | _ :: _ => raise (RuntimeError error_msgs)
  end.

(** [self.load_state_dict(model_dict, strict=strict)] *)
Definition self_load_state_dict (model_dict : Dict.t T) (strict : bool)
  : call unit :=
  bind get_self (fun m =>
  let r := load_state_dict m model_dict strict in
  bind (put_self (fst r)) (fun _ =>
  raise_if_errors (snd r))).

(** [getattr(self, block_name).load_state_dict(model_dict, strict=strict)] *)
Definition group_load_state_dict (block_name : string)
           (model_dict : Dict.t T) (strict : bool) : call unit :=
  bind get_self (fun m =>
  match getattr m block_name with
  | None => raise (AttributeError block_name)
  | Some g =>
      let r := load_state_dict g model_dict strict in
      bind (put_self (store_group m block_name (fst r))) (fun _ =>
      raise_if_errors (snd r))
  end).

(** [xs[idx]] *)
Definition subscript (xs : list Z) (idx : nat) : call Z :=
  match nth_error xs idx with
  | Some x => ret x
  | None => raise IndexError
  end.

(** The dictionary handed to the group: the checkpoint, updated with its
    own entries under [block_name] re-keyed without the prefix. *)
Definition merged_dict (block_name : string) (model_dict : Dict.t T)
  : Dict.t T :=
  if String.eqb block_name "fc"
  then
    let modified_dict :=
      Dict.comprehension (Py.slice_from 3)
                         (fun k => Py.startswith k block_name) model_dict in
    Dict.update model_dict modified_dict
  else
    let modified_dict :=
      Dict.comprehension (Py.slice_from 7)
                         (fun k => Py.startswith k block_name) model_dict in
    Dict.update model_dict modified_dict.

(** The body of [for block_name in self.block_names], which the two
    loaders share word for word but for the sequence they index
    ([index] or [combination]) and for the folder and the model name. *)
Definition load_block (choice : list Z) (root name : string)
           (block_name : string) : call unit :=
  bind get_self (fun m =>
  bind (match Py.index (block_names m) block_name with
        | Some idx => ret idx
        | None => raise ValueError
        end) (fun idx =>
  bind (subscript choice idx) (fun c =>
  let saved_model_name := Py.format_model_path root name (c + 1) in
  bind (torch_load saved_model_name) (fun model_dict =>
  group_load_state_dict block_name (merged_dict block_name model_dict) false)))).

Definition load_gumbel_weight : call (list nat) :=
  bind get_self (fun m =>
  let index :=
    match arch_weights m false false with
    | PerPoint weights => torch_argmax weights
    | Flat _ => []
    end in
  let saved_model_name :=
    Py.format_model_path (Py.str_of_opt (weight_root m)) (model_name m) 42 in
  bind (torch_load saved_model_name) (fun model_dict =>
  bind (self_load_state_dict model_dict false) (fun _ =>
  bind (for_each (block_names m)
          (load_block (map Z.of_nat index)
                      (Py.str_of_opt (weight_root m)) (model_name m)))
       (fun _ =>
  ret index)))).

Definition load_combination_weight (combination : list Z)
           (weight_folder model_name : string) : call unit :=
  let saved_model_name := Py.format_model_path weight_folder model_name 50 in
  bind (torch_load saved_model_name) (fun model_dict =>
  bind (self_load_state_dict model_dict true) (fun _ =>
  bind get_self (fun m =>
  for_each (block_names m)
           (load_block combination weight_folder model_name)))).

End ResNet.
End ResNet.

(** *** The constructor functions

    The keyword arguments are [tau], [num_classes] and [weight_root]. *)

Section Constructors.
Context {T : Type} `{TensorEngine T} `{RandomSource}.

Definition resnet18 (temp tau : R) (num_classes : nat)
           (weight_root : option string) (rng0 : nat) : option (ResNet.t (T:=T)) :=
  ResNet.__init__ Block.Basic [2; 2; 2; 2] tau num_classes temp weight_root rng0.

Definition resnet34 (temp tau : R) (num_classes : nat)
           (weight_root : option string) (rng0 : nat) : option (ResNet.t (T:=T)) :=
  ResNet.__init__ Block.Basic [3; 4; 6; 3] tau num_classes temp weight_root rng0.

Definition resnet50 (temp tau : R) (num_classes : nat)
           (weight_root : option string) (rng0 : nat) : option (ResNet.t (T:=T)) :=
  ResNet.__init__ Block.Bottle [3; 4; 6; 3] tau num_classes temp weight_root rng0.

Definition resnet101 (temp tau : R) (num_classes : nat)
           (weight_root : option string) (rng0 : nat) : option (ResNet.t (T:=T)) :=
  ResNet.__init__ Block.Bottle [3; 4; 23; 3] tau num_classes temp weight_root rng0.

Definition resnet110 (temp tau : R) (num_classes : nat)
           (weight_root : option string) (rng0 : nat) : option (ResNet.t (T:=T)) :=
  ResNet.__init__ Block.Bottle [3; 4; 26; 3] tau num_classes temp weight_root rng0.

Definition resnet152 (temp tau : R) (num_classes : nat)
           (weight_root : option string) (rng0 : nat) : option (ResNet.t (T:=T)) :=
  ResNet.__init__ Block.Bottle [3; 8; 36; 3] tau num_classes temp weight_root rng0.

End Constructors.

(* ================================================================== *)
(** ** The shape engine

    Every primitive is interpreted by its shape contract on batched
    (4-dimensional) images: a tensor is its shape, and [None] is the
    error torch raises when the shapes do not fit. *)

Module ShapeEngine.

Definition tensor := list nat.

Definition conv2d_shape (x w : tensor) (stride padding : nat) : option tensor :=
  match x, w with
  | [n; c; h; wd], [o; i; kh; kw] =>
      if ((c =? i) && (1 <=? stride) && (1 <=? kh) && (1 <=? kw)
          && (kh <=? h + 2 * padding) && (kw <=? wd + 2 * padding))%nat
      then Some [n; o; (h + 2 * padding - kh) / stride + 1;
                 (wd + 2 * padding - kw) / stride + 1]
      else None
  | _, _ => None
  end.

Definition batch_norm_shape (x rm rv w b : tensor) : option tensor :=
  match x with
  | [n; c; h; wd] =>
      if shape_eqb rm [c] && shape_eqb rv [c]
         && shape_eqb w [c] && shape_eqb b [c]
      then Some x else None
  | _ => None
  end.

(** [res] broadcasts to [out], both read from the last dimension. *)
Fixpoint broadcasts_to (out res : list nat) : bool :=
  match res, out with
  | [], _ => true
  | _ :: _, [] => false
  | r :: res', o :: out' =>
      ((r =? o) || (r =? 1))%nat && broadcasts_to out' res'
  end.

Definition iadd_shape (out res : tensor) : option tensor :=
  if broadcasts_to (rev out) (rev res) then Some out else None.

Definition adaptive_avg_pool2d_shape (x : tensor) (size : nat) : option tensor :=
  match x with
  | [n; c; h; wd] =>
      if ((1 <=? c) && (1 <=? h) && (1 <=? wd))%nat
      then Some [n; c; size; size] else None
  | _ => None
  end.

Definition numel (s : list nat) : nat := fold_right Nat.mul 1 s.

Definition view_rows_shape (x : tensor) : option tensor :=
  match x with
  | n :: rest =>
      if (numel x =? 0)%nat then None else Some [n; numel rest]
  | [] => None
  end.

Definition linear_shape (x w b : tensor) : option tensor :=
  match x, w, b with
  | [n; f], [o; i], [o'] =>
      if ((f =? i) && (o =? o'))%nat then Some [n; o] else None
  | _, _, _ => None
  end.

#[global] Instance engine : TensorEngine tensor := {|
  shape := fun x => x;
  init_tensor := fun s _ _ => s;
  shape_init := fun s _ _ => eq_refl;
  conv2d := conv2d_shape;
  batch_norm := batch_norm_shape;
  relu := fun x => x;
  iadd := iadd_shape;
  adaptive_avg_pool2d := adaptive_avg_pool2d_shape;
  view_rows := view_rows_shape;
  linear := linear_shape;
  div_scalar := fun x _ => x
|}.

(** A random source for concrete runs. *)
#[global] Instance zero_source : RandomSource := {|
  randn := fun _ _ _ => 0%R;
  gumbel_noise := fun _ _ _ => 0%R
|}.

End ShapeEngine.

(* ================================================================== *)
(** * Properties *)

(** ** Dictionaries *)

Module DictFacts.
Section DictFacts.
Import Dict.
Variable V : Type.
Lemma get_set (k k' : string) (v : V) (d : t V) :
  get k' (set k v d) = if String.eqb k k' then Some v else get k' d.
Proof.
  induction d as [|[k0 v0] d IH]; simpl.
  - reflexivity.
  - destruct (String.eqb k0 k) eqn:E0; simpl.
    + apply String.eqb_eq in E0; subst k0.
      destruct (String.eqb k k'); reflexivity.
    + rewrite IH. destruct (String.eqb k0 k') eqn:E1; [|reflexivity].
      apply String.eqb_eq in E1; subst k0. now rewrite String.eqb_sym, E0.
Qed.
Lemma get_update (k : string) (e d : t V) :
  get k (update d e) =
  match get_last k e with Some v => Some v | None => get k d end.
Proof.
  unfold update. revert d.
  induction e as [|[k0 v0] e IH]; intros d; simpl.
  - reflexivity.
  - rewrite IH. destruct (get_last k e); [reflexivity|].
    rewrite get_set. simpl. now destruct (String.eqb k0 k).
Qed.
Lemma get_None_not_In (k : string) (d : t V) :
  get k d = None <-> ~ In k (keys d).
Proof.
  induction d as [|[k0 v0] d IH]; simpl.
  - tauto.
  - destruct (String.eqb k0 k) eqn:E.
    + apply String.eqb_eq in E. split; [discriminate|tauto].
    + apply String.eqb_neq in E. tauto.
Qed.
Lemma keys_set (k : string) (v : V) (d : t V) :
  keys (set k v d) = if mem k d then keys d else (keys d ++ [k])%list.
Proof.
  unfold mem. induction d as [|[k0 v0] d IH]; simpl.
  - reflexivity.
  - destruct (String.eqb k0 k) eqn:E; simpl.
    + reflexivity.
    + rewrite IH. now destruct (get k d).
Qed.
Lemma NoDup_set (k : string) (v : V) (d : t V) :
  NoDup (keys d) -> NoDup (keys (set k v d)).
Proof.
  intros H. rewrite keys_set. unfold mem.
  destruct (get k d) eqn:E; [exact H|].
  apply get_None_not_In in E.
  apply NoDup_app; [exact H | constructor; [tauto|constructor] |].
  intros x Hx [Hk|[]]. now subst.
Qed.
(** A comprehension builds a dictionary: no key occurs twice. *)
Lemma NoDup_comprehension f p (d : t V) :
  NoDup (keys (comprehension f p d)).
Proof.
  unfold comprehension.
  assert (G : forall acc, NoDup (keys acc) ->
    NoDup (keys (fold_left (fun acc kv =>
      if p (fst kv) then set (f (fst kv)) (snd kv) acc else acc) d acc))).
  { induction d as [|[k v] d IH]; intros acc H; simpl; [exact H|].
    apply IH. destruct (p k); [now apply NoDup_set | exact H]. }
  apply G. constructor.
Qed.
Lemma get_last_None (k : string) (e : t V) :
  get k e = None -> get_last k e = None.
Proof.
  induction e as [|[k0 v0] e IH]; simpl; [reflexivity|].
  destruct (String.eqb k0 k); [discriminate|].
  intros H. now rewrite (IH H).
Qed.
Lemma get_last_NoDup (k : string) (e : t V) :
  NoDup (keys e) -> get_last k e = get k e.
Proof.
  induction e as [|[k0 v0] e IH]; simpl; intros H; [reflexivity|].
  inversion H as [|? ? Hn Hd]; subst.
  destruct (String.eqb k0 k) eqn:E.
  - apply String.eqb_eq in E; subst k0.
    apply get_None_not_In in Hn. now rewrite (get_last_None _ _ Hn).
  - rewrite (IH Hd). now destruct (get k e).
Qed.
End DictFacts.
End DictFacts.

(** ** The laws of [state_dict] and [map_parameters]

    Rewriting the parameters of a module rewrites its state dict entry by
    entry, and depends on the rewriting function at the keys of the module
    only. *)

Class ModuleLaws {T M : Type} (Mod : Module T M) := {
  state_dict_map : forall (f : string -> T -> T) (p : string) (m : M),
    state_dict p (map_parameters f p m) =
    map (fun kv => (fst kv, f (fst kv) (snd kv))) (state_dict p m);
  map_parameters_ext : forall (f g : string -> T -> T) (p : string) (m : M),
    (forall k v, In (k, v) (state_dict p m) -> f k v = g k v) ->
    map_parameters f p m = map_parameters g p m
}.

(** Closes the extensionality law of a module from those of its
    children: every child is rewritten under the hypothesis restricted to
    its own part of the state dict. *)
Ltac child_ext E :=
  intros; apply E; cbn [app]; rewrite ?in_app_iff; cbn [In]; tauto.

Section Conv2dLaws.
Import Conv2d.
Context {T : Type} `{TensorEngine T}.

Lemma conv2d_named_map f p (c : t (T:=T)) :
  named p (map_named f p c) =
  map (fun kv => (fst kv, f (fst kv) (snd kv))) (named p c).
Proof. reflexivity. Qed.

Lemma conv2d_map_named_ext f g p (c : t (T:=T)) :
  (forall k v, In (k, v) (named p c) -> f k v = g k v) ->
  map_named f p c = map_named g p c.
Proof.
  intros E. unfold map_named. now rewrite (E _ _ (or_introl eq_refl)).
Qed.

#[global] Instance conv2d_laws : ModuleLaws (Conv2d.module (T:=T)).
Proof.
  split; intros; [apply conv2d_named_map | now apply conv2d_map_named_ext].
Qed.

End Conv2dLaws.

Section BatchNorm2dLaws.
Import BatchNorm2d.
Context {T : Type} `{TensorEngine T}.

Lemma batchnorm2d_named_map f p (b : t (T:=T)) :
  named p (map_named f p b) =
  map (fun kv => (fst kv, f (fst kv) (snd kv))) (named p b).
Proof. reflexivity. Qed.

Lemma batchnorm2d_map_named_ext f g p (b : t (T:=T)) :
  (forall k v, In (k, v) (named p b) -> f k v = g k v) ->
  map_named f p b = map_named g p b.
Proof.
  intros E. unfold map_named, named in *.
  f_equal; apply E; cbn [In]; tauto.
Qed.

#[global] Instance batchnorm2d_laws : ModuleLaws (BatchNorm2d.module (T:=T)).
Proof.
  split; intros; [apply batchnorm2d_named_map | now apply batchnorm2d_map_named_ext].
Qed.

End BatchNorm2dLaws.

Section LinearLaws.
Import Linear.
Context {T : Type} `{TensorEngine T}.

Lemma linear_named_map f p (l : t (T:=T)) :
  named p (map_named f p l) =
  map (fun kv => (fst kv, f (fst kv) (snd kv))) (named p l).
Proof. reflexivity. Qed.

Lemma linear_map_named_ext f g p (l : t (T:=T)) :
  (forall k v, In (k, v) (named p l) -> f k v = g k v) ->
  map_named f p l = map_named g p l.
Proof.
  intros E. unfold map_named, named in *.
  f_equal; apply E; cbn [In]; tauto.
Qed.

#[global] Instance linear_laws : ModuleLaws (Linear.module (T:=T)).
Proof.
  split; intros; [apply linear_named_map | now apply linear_map_named_ext].
Qed.

End LinearLaws.

Section DownsampleLaws.
Import Downsample.
Context {T : Type} `{TensorEngine T}.

Lemma downsample_named_map f p (d : t (T:=T)) :
  named p (map_named f p d) =
  map (fun kv => (fst kv, f (fst kv) (snd kv))) (named p d).
Proof. reflexivity. Qed.

Lemma downsample_map_named_ext f g p (d : t (T:=T)) :
  (forall k v, In (k, v) (named p d) -> f k v = g k v) ->
  map_named f p d = map_named g p d.
Proof.
  intros E. unfold map_named, named in *. f_equal.
  - apply conv2d_map_named_ext. child_ext E.
  - apply batchnorm2d_map_named_ext. child_ext E.
Qed.

#[global] Instance downsample_laws : ModuleLaws (Downsample.module (T:=T)).
Proof.
  split; intros; [apply downsample_named_map | now apply downsample_map_named_ext].
Qed.

End DownsampleLaws.

Lemma map_downsample_ext {T : Type} `{TensorEngine T} f g p
      (d : option (Downsample.t (T:=T))) :
  (forall k v, In (k, v) (named_downsample p d) -> f k v = g k v) ->
  map_downsample f p d = map_downsample g p d.
Proof.
  destruct d as [d|]; simpl; intros E; [|reflexivity].
  f_equal. now apply downsample_map_named_ext.
Qed.

Lemma named_map_downsample {T : Type} `{TensorEngine T} f p
      (d : option (Downsample.t (T:=T))) :
  named_downsample p (map_downsample f p d) =
  map (fun kv => (fst kv, f (fst kv) (snd kv))) (named_downsample p d).
Proof. destruct d; reflexivity. Qed.

Section BasicBlockLaws.
Import BasicBlock.
Context {T : Type} `{TensorEngine T}.

Lemma basicblock_named_map f p (b : t (T:=T)) :
  named p (map_named f p b) =
  map (fun kv => (fst kv, f (fst kv) (snd kv))) (named p b).
Proof.
  unfold named, map_named; cbn [conv1 bn1 conv2 bn2 downsample].
  rewrite !map_app, named_map_downsample. reflexivity.
Qed.

Lemma basicblock_map_named_ext f g p (b : t (T:=T)) :
  (forall k v, In (k, v) (named p b) -> f k v = g k v) ->
  map_named f p b = map_named g p b.
Proof.
  intros E. unfold map_named, named in *. f_equal.
  - apply conv2d_map_named_ext. child_ext E.
  - apply batchnorm2d_map_named_ext. child_ext E.
  - apply conv2d_map_named_ext. child_ext E.
  - apply batchnorm2d_map_named_ext. child_ext E.
  - apply map_downsample_ext. intros; apply E; rewrite !in_app_iff; tauto.
Qed.

End BasicBlockLaws.

Section BottleneckLaws.
Import Bottleneck.
Context {T : Type} `{TensorEngine T}.

Lemma bottleneck_named_map f p (b : t (T:=T)) :
  named p (map_named f p b) =
  map (fun kv => (fst kv, f (fst kv) (snd kv))) (named p b).
Proof.
  unfold named, map_named; cbn [conv1 bn1 conv2 bn2 conv3 bn3 downsample].
  rewrite !map_app, named_map_downsample. reflexivity.
Qed.

Lemma bottleneck_map_named_ext f g p (b : t (T:=T)) :
  (forall k v, In (k, v) (named p b) -> f k v = g k v) ->
  map_named f p b = map_named g p b.
Proof.
  intros E. unfold map_named, named in *. f_equal.
  - apply conv2d_map_named_ext. child_ext E.
  - apply batchnorm2d_map_named_ext. child_ext E.
  - apply conv2d_map_named_ext. child_ext E.
  - apply batchnorm2d_map_named_ext. child_ext E.
  - apply conv2d_map_named_ext. child_ext E.
  - apply batchnorm2d_map_named_ext. child_ext E.
  - apply map_downsample_ext. intros; apply E; rewrite !in_app_iff; tauto.
Qed.

End BottleneckLaws.

Section BlockLaws.
Import Block.
Context {T : Type} `{TensorEngine T}.

Lemma block_named_map f p (b : t (T:=T)) :
  named p (map_named f p b) =
  map (fun kv => (fst kv, f (fst kv) (snd kv))) (named p b).
Proof.
  destruct b; simpl.
  - apply basicblock_named_map.
  - apply bottleneck_named_map.
Qed.

Lemma block_map_named_ext f g p (b : t (T:=T)) :
  (forall k v, In (k, v) (named p b) -> f k v = g k v) ->
  map_named f p b = map_named g p b.
Proof.
  destruct b; simpl; intros E; f_equal.
  - now apply basicblock_map_named_ext.
  - now apply bottleneck_map_named_ext.
Qed.

End BlockLaws.

Section SequentialLaws.
Import Sequential.
Context {T : Type} `{TensorEngine T}.

Lemma sequential_named_map_from f p (l : t (T:=T)) : forall i,
  named_from i p (map_named_from i f p l) =
  map (fun kv => (fst kv, f (fst kv) (snd kv))) (named_from i p l).
Proof.
  induction l as [|b l IH]; intros i; simpl; [reflexivity|].
  now rewrite map_app, IH, block_named_map.
Qed.

Lemma sequential_map_named_from_ext f g p (l : t (T:=T)) : forall i,
  (forall k v, In (k, v) (named_from i p l) -> f k v = g k v) ->
  map_named_from i f p l = map_named_from i g p l.
Proof.
  induction l as [|b l IH]; intros i E; simpl in *; [reflexivity|].
  f_equal.
  - apply block_map_named_ext. intros; apply E; rewrite in_app_iff; tauto.
  - apply IH. intros; apply E; rewrite in_app_iff; tauto.
Qed.

Lemma sequential_named_map f p (l : t (T:=T)) :
  named p (map_named f p l) =
  map (fun kv => (fst kv, f (fst kv) (snd kv))) (named p l).
Proof. apply sequential_named_map_from. Qed.

Lemma sequential_map_named_ext f g p (l : t (T:=T)) :
  (forall k v, In (k, v) (named p l) -> f k v = g k v) ->
  map_named f p l = map_named g p l.
Proof. apply sequential_map_named_from_ext. Qed.

#[global] Instance sequential_laws : ModuleLaws (Sequential.module (T:=T)).
Proof.
  split; intros; [apply sequential_named_map | now apply sequential_map_named_ext].
Qed.

End SequentialLaws.

Section ResNetLaws.
Import ResNet.
Context {T : Type} `{TensorEngine T}.

Lemma resnet_named_map f p (m : t (T:=T)) :
  named p (map_named f p m) =
  map (fun kv => (fst kv, f (fst kv) (snd kv))) (named p m).
Proof.
  unfold named, map_named, with_children;
    cbn [conv1 bn1 layer1 layer2 layer3 layer4 fc].
  rewrite !map_app, !sequential_named_map. reflexivity.
Qed.

Lemma resnet_map_named_ext f g p (m : t (T:=T)) :
  (forall k v, In (k, v) (named p m) -> f k v = g k v) ->
  map_named f p m = map_named g p m.
Proof.
  intros E. unfold map_named, named in *. f_equal.
  - apply conv2d_map_named_ext. child_ext E.
  - apply batchnorm2d_map_named_ext. child_ext E.
  - apply sequential_map_named_ext. child_ext E.
  - apply sequential_map_named_ext. child_ext E.
  - apply sequential_map_named_ext. child_ext E.
  - apply sequential_map_named_ext. child_ext E.
  - apply linear_map_named_ext. child_ext E.
Qed.

Lemma group_named_map f p (g : group (T:=T)) :
  group_named p (group_map_named f p g) =
  map (fun kv => (fst kv, f (fst kv) (snd kv))) (group_named p g).
Proof.
  destruct g; simpl.
  - apply sequential_named_map.
  - apply linear_named_map.
Qed.

Lemma group_map_named_ext f g p (gr : group (T:=T)) :
  (forall k v, In (k, v) (group_named p gr) -> f k v = g k v) ->
  group_map_named f p gr = group_map_named g p gr.
Proof.
  destruct gr; simpl; intros E; f_equal.
  - now apply sequential_map_named_ext.
  - now apply linear_map_named_ext.
Qed.

#[global] Instance resnet_laws : ModuleLaws (ResNet.module (T:=T)).
Proof.
  split; intros; [apply resnet_named_map | now apply resnet_map_named_ext].
Qed.

#[global] Instance group_laws : ModuleLaws (ResNet.group_module (T:=T)).
Proof.
  split; intros; [apply group_named_map | now apply group_map_named_ext].
Qed.

End ResNetLaws.

(** ** The sampler *)

(** A [rows] x [cols] tensor of reals. *)
Definition has_shape (rows cols : nat) (t : list (list R)) : Prop :=
  List.length t = rows /\ Forall (fun r => List.length r = cols) t.

Lemma Rsum_scale (c : R) (xs : list R) :
  Rsum (map (fun e => (e / c)%R) xs) = (Rsum xs / c)%R.
Proof.
  induction xs as [|x xs IH]; simpl.
  - unfold Rdiv. now rewrite Rmult_0_l.
  - rewrite IH. unfold Rdiv. now rewrite Rmult_plus_distr_r.
Qed.

Lemma Rsum_exp_pos (xs : list R) :
  xs <> [] -> (0 < Rsum (map exp xs))%R.
Proof.
  assert (G : forall ys, (0 <= Rsum (map exp ys))%R).
  { induction ys as [|y ys IH]; simpl; [lra|].
    pose proof (exp_pos y). lra. }
  destruct xs as [|x xs]; [congruence|]. intros _. simpl.
  pose proof (exp_pos x). pose proof (G xs). lra.
Qed.

Lemma softmax_length (xs : list R) :
  List.length (softmax xs) = List.length xs.
Proof. unfold softmax. now rewrite !length_map. Qed.

(** Softmax normalises: a non-empty row sums to one. *)
Lemma softmax_sum (xs : list R) :
  xs <> [] -> Rsum (softmax xs) = 1%R.
Proof.
  intros Hne. unfold softmax. rewrite Rsum_scale.
  pose proof (Rsum_exp_pos Hne). field. lra.
Qed.

Lemma length_concat_uniform (rows cols : nat) (t : list (list R)) :
  has_shape rows cols t -> List.length (List.concat t) = rows * cols.
Proof.
  intros [Hl Hf]. subst rows.
  induction Hf as [|r t Hr Hf IH]; simpl; [reflexivity|].
  rewrite length_app, IH, Hr. reflexivity.
Qed.

Lemma gumbel_like_shape `{RandomSource} (r rows cols : nat) (t : list (list R)) :
  has_shape rows cols t -> has_shape rows cols (gumbel_like r t).
Proof.
  intros [Hl Hf]. unfold gumbel_like. split.
  - now rewrite length_map, length_combine, length_seq, Nat.min_id.
  - apply Forall_forall. intros row Hin.
    apply in_map_iff in Hin. destruct Hin as [[i row'] [<- Hin]].
    apply in_combine_r in Hin. simpl.
    rewrite length_map, length_seq.
    rewrite Forall_forall in Hf. now apply Hf.
Qed.

Lemma gumbel_softmax_shape (rows cols : nat) (tau : R) (a g : list (list R)) :
  has_shape rows cols a -> has_shape rows cols g ->
  has_shape rows cols (gumbel_softmax a tau g).
Proof.
  intros [Hla Hfa] [Hlg Hfg]. unfold gumbel_softmax. split.
  - rewrite length_map, length_combine, Hla, Hlg. apply Nat.min_id.
  - apply Forall_forall. intros row Hin.
    apply in_map_iff in Hin. destruct Hin as [[l gr] [<- Hin]]. simpl.
    rewrite softmax_length, length_map, length_combine.
    rewrite Forall_forall in Hfa, Hfg.
    rewrite (Hfa _ (in_combine_l _ _ _ _ Hin)).
    rewrite (Hfg _ (in_combine_r _ _ _ _ Hin)). apply Nat.min_id.
Qed.

Lemma gumbel_softmax_rows_sum (rows cols : nat) (tau : R) (a g : list (list R)) :
  0 < cols -> has_shape rows cols a -> has_shape rows cols g ->
  Forall (fun r => Rsum r = 1%R) (gumbel_softmax a tau g).
Proof.
  intros Hc [Hla Hfa] [Hlg Hfg]. unfold gumbel_softmax.
  apply Forall_forall. intros row Hin.
  apply in_map_iff in Hin. destruct Hin as [[l gr] [<- Hin]]. simpl.
  apply softmax_sum. intros E.
  apply (f_equal (@List.length _)) in E.
  rewrite length_map, length_combine in E. simpl in E.
  rewrite Forall_forall in Hfa, Hfg.
  rewrite (Hfa _ (in_combine_l _ _ _ _ Hin)) in E.
  rewrite (Hfg _ (in_combine_r _ _ _ _ Hin)) in E.
  rewrite Nat.min_id in E. lia.
Qed.

(** ** What the constructors build *)

Section Construction.
Context {T : Type} `{TensorEngine T} `{RandomSource}.

Lemma bind_fst_snd {A B : Type} (c : Ctor.t A) (k : A -> Ctor.t B) s :
  Ctor.bind c k s = k (fst (c s)) (snd (c s)).
Proof. unfold Ctor.bind. now destruct (c s). Qed.

Ltac ctor_step := repeat (rewrite bind_fst_snd; cbv beta).

(** [b] is what [block(inplanes, planes, stride, downsample)] returns in
    some state of the random generator. *)
Definition constructed_as (c : Block.cls) (inplanes planes stride : nat)
           (downsample : option (Downsample.t (T:=T))) (b : Block.t (T:=T)) : Prop :=
  exists st, b = fst (Block.__init__ c inplanes planes stride downsample st).

(** The downsample path [_make_layer] builds. *)
Definition new_downsample (inplanes out stride : nat) (st : Ctor.state)
  : Downsample.t (T:=T) :=
  {| Downsample.conv := fst (Conv2d.__init__ inplanes out 1 stride 0 st);
     Downsample.bn := BatchNorm2d.__init__ out |}.

(** The test of [_make_layer]. *)
Definition needs_downsample (stride inplanes out : nat) : bool :=
  negb (Nat.eqb stride 1) || negb (Nat.eqb inplanes out).

Lemma block_init_inplanes c ip p s ds st :
  Ctor.inplanes (snd (Block.__init__ (T:=T) c ip p s ds st)) = Ctor.inplanes st.
Proof. destruct c; reflexivity. Qed.

Lemma append_blocks_spec c p (range : list nat) : forall st,
  Ctor.inplanes (snd (ResNet.append_blocks (T:=T) c p range st)) = Ctor.inplanes st
  /\ List.length (fst (ResNet.append_blocks (T:=T) c p range st)) = List.length range
  /\ Forall (constructed_as c (Ctor.inplanes st) p 1 None)
            (fst (ResNet.append_blocks c p range st)).
Proof.
  induction range as [|i range IH]; intros st; simpl.
  - repeat split. constructor.
  - ctor_step. cbn [Ctor.ret Ctor.get_inplanes fst snd].
    destruct (IH (snd (Block.__init__ (T:=T) c (Ctor.inplanes st) p 1 None st)))
      as (Hi & Hl & Hf).
    rewrite block_init_inplanes in Hi, Hf.
    repeat split.
    + exact Hi.
    + cbn [List.length]. now rewrite Hl.
    + constructor; [now exists st | exact Hf].
Qed.

(** The stage [_make_layer] returns: a first block that takes the running
    channel count, the stride and the downsample path, then
    [blocks - 1] plain blocks; the running count is left at
    [planes * expansion]. *)
Lemma make_layer_spec c planes blocks stride st :
  let out := planes * Block.expansion c in
  exists first rest ds,
    fst (ResNet._make_layer (T:=T) c planes blocks stride st) = first :: rest
    /\ Ctor.inplanes (snd (ResNet._make_layer (T:=T) c planes blocks stride st)) = out
    /\ constructed_as c (Ctor.inplanes st) planes stride ds first
    /\ (if needs_downsample stride (Ctor.inplanes st) out
        then exists st', ds = Some (new_downsample (Ctor.inplanes st) out stride st')
        else ds = None)
    /\ List.length rest = blocks - 1
    /\ Forall (constructed_as c out planes 1 None) rest.
Proof.
  intros out. unfold ResNet._make_layer. ctor_step.
  cbn [Ctor.get_inplanes Ctor.ret fst snd].
  fold out. fold (needs_downsample stride (Ctor.inplanes st) out).
  match goal with
  | |- context [ResNet.append_blocks c planes ?r ?s] =>
      destruct (append_blocks_spec c planes r s) as (Hi & Hl & Hf)
  end.
  cbn [Ctor.set_inplanes Ctor.inplanes fst snd] in Hi, Hf.
  do 3 eexists. split; [reflexivity|].
  split; [exact Hi|].
  split; [eexists; reflexivity|].
  split.
  - destruct (needs_downsample stride (Ctor.inplanes st) out).
    + ctor_step. cbn [Ctor.ret fst]. eexists. reflexivity.
    + reflexivity.
  - split; [now rewrite Hl, length_seq | exact Hf].
Qed.

End Construction.

Ltac ctor_step := repeat (rewrite bind_fst_snd; cbv beta).

Section Constructed.
Context {T : Type} `{TensorEngine T} `{RandomSource}.

(** [1e-3 * torch.randn(k, num_ops)], from the draw [r] *)
Definition init_alphas (r : nat) : list (list R) :=
  map (fun i => map (fun j => (1 / 1000 * randn r i j)%R) (seq 0 ResNet.num_ops))
      (seq 0 ResNet.k).

(** Everything [__init__] leaves in the instance. *)
Record constructed (c : Block.cls) (l0 l1 l2 l3 : nat) (tau : R)
       (num_classes : nat) (temp : R) (weight_root : option string)
       (m : ResNet.t (T:=T)) : Prop := {
  cons_conv1 : exists s, ResNet.conv1 m = fst (Conv2d.__init__ 3 64 3 1 1 s);
  cons_bn1 : ResNet.bn1 m = BatchNorm2d.__init__ 64;
  cons_layer1 : exists s,
    Ctor.inplanes s = 64
    /\ ResNet.layer1 m = fst (ResNet._make_layer c 64 l0 1 s);
  cons_layer2 : exists s,
    Ctor.inplanes s = 64 * Block.expansion c
    /\ ResNet.layer2 m = fst (ResNet._make_layer c 128 l1 2 s);
  cons_layer3 : exists s,
    Ctor.inplanes s = 128 * Block.expansion c
    /\ ResNet.layer3 m = fst (ResNet._make_layer c 256 l2 2 s);
  cons_layer4 : exists s,
    Ctor.inplanes s = 256 * Block.expansion c
    /\ ResNet.layer4 m = fst (ResNet._make_layer c 512 l3 2 s);
  cons_avgpool : ResNet.avgpool m = 2;
  cons_fc : exists s,
    ResNet.fc m = fst (Linear.__init__ (512 * Block.expansion c * 4) num_classes s);
  cons_temp : ResNet.temp m = temp;
  cons_block_names :
    ResNet.block_names m = ["layer1"; "layer2"; "layer3"; "layer4"; "fc"];
  cons_weight_root : ResNet.weight_root m = weight_root;
  cons_block : ResNet._block m = c;
  cons_num_classes : ResNet._num_classes m = num_classes;
  cons_tau : ResNet._tau m = tau;
  cons_model_name : ResNet.model_name m = "resnet50_ti";
  cons_inplanes : ResNet.inplanes m = 512 * Block.expansion c;
  cons_alphas : exists r r',
    ResNet.alphas m = init_alphas r
    /\ ResNet.gumbel m = gumbel_like r' (init_alphas r)
}.

Lemma make_layer_inplanes c planes blocks stride st :
  Ctor.inplanes (snd (ResNet._make_layer (T:=T) c planes blocks stride st))
  = planes * Block.expansion c.
Proof.
  destruct (make_layer_spec c planes blocks stride st)
    as (first & rest & ds & _ & Hi & _). exact Hi.
Qed.

Lemma construct_spec c l0 l1 l2 l3 tau num_classes temp weight_root rng0 :
  constructed c l0 l1 l2 l3 tau num_classes temp weight_root
    (fst (ResNet.construct c l0 l1 l2 l3 tau num_classes temp weight_root
            {| Ctor.inplanes := 64; Ctor.rng := rng0 |})).
Proof.
  unfold ResNet.construct. ctor_step.
  cbn [Ctor.ret Ctor.get_inplanes fst snd].
  constructor;
    cbn [ResNet.conv1 ResNet.bn1 ResNet.layer1 ResNet.layer2 ResNet.layer3
         ResNet.layer4 ResNet.avgpool ResNet.fc ResNet.temp ResNet.block_names
         ResNet.weight_root ResNet._block ResNet._num_classes ResNet._tau
         ResNet.model_name ResNet.inplanes ResNet.alphas ResNet.gumbel];
    try reflexivity.
  - eexists; reflexivity.
  - eexists; split; [|reflexivity]. reflexivity.
  - eexists; split; [|reflexivity]. apply make_layer_inplanes.
  - eexists; split; [|reflexivity]. apply make_layer_inplanes.
  - eexists; split; [|reflexivity]. apply make_layer_inplanes.
  - eexists; reflexivity.
  - unfold ResNet._initialize_alphas, Linear.__init__. ctor_step.
    cbn [Ctor.ret Ctor.draw Ctor.inplanes fst snd].
    apply make_layer_inplanes.
  - unfold ResNet._initialize_alphas. ctor_step.
    cbn [Ctor.ret fst snd]. do 2 eexists. split; reflexivity.
Qed.

Lemma init_spec c layers tau num_classes temp weight_root rng0 m :
  ResNet.__init__ c layers tau num_classes temp weight_root rng0 = Some m ->
  exists l0 l1 l2 l3 rest,
    layers = l0 :: l1 :: l2 :: l3 :: rest
    /\ constructed c l0 l1 l2 l3 tau num_classes temp weight_root m.
Proof.
  unfold ResNet.__init__.
  destruct layers as [|l0 [|l1 [|l2 [|l3 rest]]]]; try discriminate.
  intros E. injection E as <-.
  exists l0, l1, l2, l3, rest. split; [reflexivity|apply construct_spec].
Qed.

End Constructed.

(** ** C1: the shape of the architecture weights *)

Section ArchWeights.
Context {T : Type} `{TensorEngine T} `{RandomSource}.

Lemma init_alphas_shape (r : nat) :
  has_shape ResNet.k ResNet.num_ops (init_alphas r).
Proof.
  unfold init_alphas. split.
  - now rewrite length_map, length_seq.
  - apply Forall_forall. intros row Hin.
    apply in_map_iff in Hin. destruct Hin as [i [<- _]].
    now rewrite length_map, length_seq.
Qed.

(** The weights of any instance whose two tensors are [rows] x [cols]. *)
Lemma arch_weights_of_shape (rows cols : nat) (m : ResNet.t (T:=T)) (smooth : bool) :
  0 < cols ->
  has_shape rows cols (ResNet.alphas m) ->
  has_shape rows cols (ResNet.gumbel m) ->
  (exists w, ResNet.arch_weights m smooth true = Flat w
             /\ List.length w = rows * cols)
  /\ (exists ws, ResNet.arch_weights m smooth false = PerPoint ws
                 /\ List.length ws = rows
                 /\ Forall (fun r => List.length r = cols /\ Rsum r = 1%R) ws).
Proof.
  intros Hc Ha Hg. unfold ResNet.arch_weights.
  pose proof (gumbel_softmax_shape (ResNet._tau m) Ha Hg) as Hs.
  pose proof (gumbel_softmax_rows_sum (ResNet._tau m) Hc Ha Hg) as Hsum.
  split.
  - eexists. split; [reflexivity|]. now apply length_concat_uniform.
  - eexists. split; [reflexivity|]. destruct Hs as [Hl Hf]. split; [exact Hl|].
    rewrite Forall_forall in *. intros r Hr. split; auto.
Qed.

(** C1.  For the configured [k = 5] and [num_ops = 100], on every instance
    a constructor returns, [arch_weights(cat=True)] is one flat sequence of
    length [k * num_ops = 500], and [arch_weights(cat=False)] is [5]
    sequences, each of length [100] and each summing to [1]. *)
Theorem arch_weights_shape
        (c : Block.cls) (layers : list nat) (tau : R) (num_classes : nat)
        (temp : R) (weight_root : option string) (rng0 : nat)
        (m : ResNet.t (T:=T)) (smooth : bool) :
  ResNet.__init__ c layers tau num_classes temp weight_root rng0 = Some m ->
  ResNet.k = 5 /\ ResNet.num_ops = 100
  /\ (exists w, ResNet.arch_weights m smooth true = Flat w
                /\ List.length w = ResNet.k * ResNet.num_ops
                /\ List.length w = 500)
  /\ (exists ws, ResNet.arch_weights m smooth false = PerPoint ws
                 /\ List.length ws = 5
                 /\ Forall (fun r => List.length r = 100 /\ Rsum r = 1%R) ws).
Proof.
  intros Hm. destruct (init_spec _ _ _ _ _ _ _ Hm) as (l0 & l1 & l2 & l3 & rest & _ & Hc).
  destruct (cons_alphas Hc) as (r & r' & Ha & Hg).
  assert (Hsa : has_shape ResNet.k ResNet.num_ops (ResNet.alphas m))
    by (rewrite Ha; apply init_alphas_shape).
  assert (Hsg : has_shape ResNet.k ResNet.num_ops (ResNet.gumbel m))
    by (rewrite Hg; apply gumbel_like_shape, init_alphas_shape).
  assert (Hpos : 0 < ResNet.num_ops) by (unfold ResNet.num_ops; lia).
  destruct (arch_weights_of_shape m smooth Hpos Hsa Hsg)
    as [(w & Hw & Hlw) (ws & Hws & Hlws & Hf)].
  split; [reflexivity|]. split; [reflexivity|]. split.
  - exists w. repeat split; [exact Hw | exact Hlw | rewrite Hlw; reflexivity].
  - exists ws. repeat split; [exact Hws | exact Hlws | exact Hf].
Qed.

End ArchWeights.

(** ** What a checkpoint load cannot reach *)

Section Frame.
Context {T : Type} `{TensorEngine T}.
Variable fs : string -> option (Dict.t T).

(** The attributes of [m] that are not registered parameters or buffers
    have the same value in [m']. *)
Record same_attributes (m m' : ResNet.t (T:=T)) : Prop := {
  same_alphas : ResNet.alphas m' = ResNet.alphas m;
  same_gumbel : ResNet.gumbel m' = ResNet.gumbel m;
  same_tau : ResNet._tau m' = ResNet._tau m;
  same_temp : ResNet.temp m' = ResNet.temp m;
  same_block_names : ResNet.block_names m' = ResNet.block_names m;
  same_weight_root : ResNet.weight_root m' = ResNet.weight_root m;
  same_model_name : ResNet.model_name m' = ResNet.model_name m;
  same_block : ResNet._block m' = ResNet._block m;
  same_num_classes : ResNet._num_classes m' = ResNet._num_classes m;
  same_inplanes : ResNet.inplanes m' = ResNet.inplanes m;
  same_avgpool : ResNet.avgpool m' = ResNet.avgpool m
}.

Lemma same_attributes_refl m : same_attributes m m.
Proof. constructor; reflexivity. Qed.

Lemma same_attributes_trans m1 m2 m3 :
  same_attributes m1 m2 -> same_attributes m2 m3 -> same_attributes m1 m3.
Proof.
  intros [] []. constructor; congruence.
Qed.

Lemma same_with_children m c1 b1 l1 l2 l3 l4 f :
  same_attributes m (ResNet.with_children m c1 b1 l1 l2 l3 l4 f).
Proof. constructor; reflexivity. Qed.

Lemma same_store_group m block_name g :
  same_attributes m (ResNet.store_group m block_name g).
Proof.
  unfold ResNet.store_group.
  destruct g;
    repeat match goal with
           | |- context [String.eqb ?a ?b] => destruct (String.eqb a b)
           end;
    first [apply same_with_children | apply same_attributes_refl].
Qed.

(** A call keeps the unregistered attributes, however it ends. *)
Definition frame {A : Type} (c : ResNet.call (T:=T) A) : Prop :=
  forall s, same_attributes (ResNet.self s) (ResNet.self (fst (c s))).

Lemma frame_ret {A : Type} (a : A) : frame (ResNet.ret a).
Proof. intros s. apply same_attributes_refl. Qed.

Lemma frame_raise {A : Type} (e : ResNet.exn) : frame (ResNet.raise (A:=A) e).
Proof. intros s. apply same_attributes_refl. Qed.

Lemma frame_bind {A B : Type} (c : ResNet.call A) (k : A -> ResNet.call B) :
  frame c -> (forall a, frame (k a)) -> frame (ResNet.bind c k).
Proof.
  intros Hc Hk s. unfold ResNet.bind.
  specialize (Hc s). destruct (c s) as [s' [e|a]]; simpl in *.
  - exact Hc.
  - eapply same_attributes_trans; [exact Hc | apply Hk].
Qed.

Lemma frame_get_self : frame ResNet.get_self.
Proof. intros s. apply same_attributes_refl. Qed.

Lemma frame_torch_load path : frame (ResNet.torch_load fs path).
Proof.
  intros s. unfold ResNet.torch_load.
  destruct (fs path); apply same_attributes_refl.
Qed.

Lemma frame_raise_if_errors msgs : frame (ResNet.raise_if_errors msgs).
Proof. destruct msgs; [apply frame_ret | apply frame_raise]. Qed.

Lemma frame_for_each {A : Type} (xs : list A) (body : A -> ResNet.call unit) :
  (forall x, frame (body x)) -> frame (ResNet.for_each xs body).
Proof.
  intros Hb. induction xs as [|x xs IH]; simpl.
  - apply frame_ret.
  - apply frame_bind; [apply Hb | intros _; exact IH].
Qed.

Lemma frame_self_load_state_dict model_dict strict :
  frame (ResNet.self_load_state_dict model_dict strict).
Proof.
  intros s. unfold ResNet.self_load_state_dict, ResNet.bind, ResNet.get_self,
    ResNet.put_self, load_state_dict. cbn [fst snd].
  match goal with
  | |- context [ResNet.raise_if_errors ?e] =>
      pose proof (frame_raise_if_errors e) as F
  end.
  match goal with
  | |- context [ResNet.raise_if_errors ?e ?s'] =>
      specialize (F s'); destruct (ResNet.raise_if_errors e s') as [s'' r]
  end.
  cbn [ResNet.self fst] in *.
  eapply same_attributes_trans; [|destruct r; exact F].
  apply same_with_children.
Qed.

Lemma frame_group_load_state_dict block_name model_dict strict :
  frame (ResNet.group_load_state_dict block_name model_dict strict).
Proof.
  intros s. unfold ResNet.group_load_state_dict, ResNet.bind, ResNet.get_self.
  destruct (ResNet.getattr (ResNet.self s) block_name) as [g|];
    [|apply same_attributes_refl].
  unfold ResNet.put_self.
  match goal with
  | |- context [ResNet.raise_if_errors ?e ?s'] =>
      pose proof (frame_raise_if_errors e s') as F;
        destruct (ResNet.raise_if_errors e s') as [s'' r]
  end.
  cbn [ResNet.self fst] in *.
  eapply same_attributes_trans; [|destruct r; exact F].
  apply same_store_group.
Qed.

Lemma frame_load_block choice root name block_name :
  frame (ResNet.load_block fs choice root name block_name).
Proof.
  unfold ResNet.load_block.
  apply frame_bind; [apply frame_get_self|]. intros m.
  apply frame_bind.
  { destruct (Py.index _ _); [apply frame_ret | apply frame_raise]. }
  intros idx. apply frame_bind.
  { unfold ResNet.subscript. destruct (nth_error _ _);
      [apply frame_ret | apply frame_raise]. }
  intros c. apply frame_bind; [apply frame_torch_load|]. intros d.
  apply frame_group_load_state_dict.
Qed.

Lemma frame_load_gumbel_weight : frame (ResNet.load_gumbel_weight fs).
Proof.
  unfold ResNet.load_gumbel_weight.
  apply frame_bind; [apply frame_get_self|]. intros m.
  apply frame_bind; [apply frame_torch_load|]. intros d.
  apply frame_bind; [apply frame_self_load_state_dict|]. intros _.
  apply frame_bind; [|intros _; apply frame_ret].
  apply frame_for_each. intros x. apply frame_load_block.
Qed.

Lemma frame_load_combination_weight combination weight_folder model_name :
  frame (ResNet.load_combination_weight fs combination weight_folder model_name).
Proof.
  unfold ResNet.load_combination_weight.
  apply frame_bind; [apply frame_torch_load|]. intros d.
  apply frame_bind; [apply frame_self_load_state_dict|]. intros _.
  apply frame_bind; [apply frame_get_self|]. intros m.
  apply frame_for_each. intros x. apply frame_load_block.
Qed.

End Frame.

(** ** The names of the registered parameters *)

Section Keys.
Context {T : Type} `{TensorEngine T}.

Lemma append_assoc (a b c : string) : (a ++ b) ++ c = a ++ (b ++ c).
Proof. induction a as [|x a IH]; simpl; [reflexivity | now rewrite IH]. Qed.

(** Every key of [d] extends the prefix [p]. *)
Definition keys_under (p : string) (d : Dict.t T) : Prop :=
  forall k v, In (k, v) d -> exists s, k = p ++ s.

Lemma keys_under_nil p : keys_under p [].
Proof. intros k v []. Qed.

Lemma keys_under_app p d e :
  keys_under p d -> keys_under p e -> keys_under p (d ++ e)%list.
Proof.
  intros Hd He k v Hin. apply in_app_iff in Hin. destruct Hin; eauto.
Qed.

Lemma keys_under_weaken p q d : keys_under (p ++ q) d -> keys_under p d.
Proof.
  intros Hd k v Hin. destruct (Hd k v Hin) as [s ->].
  exists (q ++ s). apply append_assoc.
Qed.

Lemma keys_under_cons p s v d :
  keys_under p d -> keys_under p ((p ++ s, v) :: d).
Proof.
  intros Hd k w [E|Hin]; [injection E as <- _; now exists s | eauto].
Qed.

Lemma conv2d_keys_under p c : keys_under p (Conv2d.named (T:=T) p c).
Proof. unfold Conv2d.named. repeat apply keys_under_cons. apply keys_under_nil. Qed.

Lemma batchnorm2d_keys_under p b : keys_under p (BatchNorm2d.named (T:=T) p b).
Proof.
  unfold BatchNorm2d.named. repeat apply keys_under_cons. apply keys_under_nil.
Qed.

Lemma linear_keys_under p l : keys_under p (Linear.named (T:=T) p l).
Proof. unfold Linear.named. repeat apply keys_under_cons. apply keys_under_nil. Qed.

Lemma downsample_keys_under p d : keys_under p (Downsample.named (T:=T) p d).
Proof.
  unfold Downsample.named. apply keys_under_app.
  - eapply keys_under_weaken, conv2d_keys_under.
  - eapply keys_under_weaken, batchnorm2d_keys_under.
Qed.

Lemma named_downsample_keys_under p d : keys_under p (named_downsample (T:=T) p d).
Proof.
  destruct d; simpl; [|apply keys_under_nil].
  eapply keys_under_weaken, downsample_keys_under.
Qed.

Ltac keys_under_children :=
  repeat (apply keys_under_app;
          [first [eapply keys_under_weaken, conv2d_keys_under
                 |eapply keys_under_weaken, batchnorm2d_keys_under]|]).

Lemma basicblock_keys_under p b : keys_under p (BasicBlock.named (T:=T) p b).
Proof.
  unfold BasicBlock.named. keys_under_children. apply named_downsample_keys_under.
Qed.

Lemma bottleneck_keys_under p b : keys_under p (Bottleneck.named (T:=T) p b).
Proof.
  unfold Bottleneck.named. keys_under_children. apply named_downsample_keys_under.
Qed.

Lemma block_keys_under p b : keys_under p (Block.named (T:=T) p b).
Proof.
  destruct b; [apply basicblock_keys_under | apply bottleneck_keys_under].
Qed.

Lemma sequential_keys_under_from p l : forall i,
  keys_under p (Sequential.named_from (T:=T) i p l).
Proof.
  induction l as [|b l IH]; intros i; simpl; [apply keys_under_nil|].
  apply keys_under_app; [|apply IH].
  eapply keys_under_weaken, block_keys_under.
Qed.

Lemma sequential_keys_under p l : keys_under p (Sequential.named (T:=T) p l).
Proof. apply sequential_keys_under_from. Qed.

(** The groups a key of the whole network can start with. *)
Definition top_level_prefixes : list string :=
  ["conv1."; "bn1."; "layer1."; "layer2."; "layer3."; "layer4."; "fc."].

Lemma resnet_keys_prefixed (m : ResNet.t (T:=T)) k v :
  In (k, v) (ResNet.named "" m) ->
  exists g s, In g top_level_prefixes /\ k = g ++ s.
Proof.
  unfold ResNet.named. rewrite !in_app_iff. unfold top_level_prefixes.
  intros [Hin|[Hin|[Hin|[Hin|[Hin|[Hin|Hin]]]]]];
    [ apply conv2d_keys_under in Hin
    | apply batchnorm2d_keys_under in Hin
    | apply sequential_keys_under in Hin
    | apply sequential_keys_under in Hin
    | apply sequential_keys_under in Hin
    | apply sequential_keys_under in Hin
    | apply linear_keys_under in Hin ];
    destruct Hin as [s ->]; eexists; exists s; (split; [|reflexivity]);
      cbn [In]; tauto.
Qed.

(** No registered parameter or buffer is called [alphas] or [gumbel]. *)
Lemma alphas_gumbel_not_registered (m : ResNet.t (T:=T)) :
  ~ In "alphas" (Dict.keys (state_dict "" m))
  /\ ~ In "gumbel" (Dict.keys (state_dict "" m)).
Proof.
  split; intros Hin; apply in_map_iff in Hin;
    destruct Hin as [[k v] [E Hin]]; simpl in E; subst k;
    apply resnet_keys_prefixed in Hin;
    destruct Hin as (g & s & Hg & E);
    cbn [In top_level_prefixes] in Hg;
    repeat (destruct Hg as [<-|Hg]; [discriminate E|]); exact Hg.
Qed.

End Keys.

(** ** The lifetime of an instance *)

Section Lifetime.
Context {T : Type} `{TensorEngine T} `{RandomSource}.
Variable fs : string -> option (Dict.t T).

(** What can happen to an instance once it is built: a call of one of its
    methods, an in-place update of [alphas] by the owner of
    [arch_parameters()], an assignment to [_tau]. *)
Inductive event :=
| Call_forward (x : T)
| Call_arch_parameters
| Call_arch_weights (smooth cat : bool)
| Call_load_gumbel_weight
| Call_load_combination_weight (combination : list Z)
                               (weight_folder model_name : string)
| Update_alphas (new_alphas : list (list R))
| Assign_tau (tau : R).

Definition assign (m : ResNet.t (T:=T)) (new_alphas : list (list R)) (tau : R)
  : ResNet.t (T:=T) :=
  {| ResNet.inplanes := ResNet.inplanes m;
     ResNet.conv1 := ResNet.conv1 m; ResNet.bn1 := ResNet.bn1 m;
     ResNet.layer1 := ResNet.layer1 m; ResNet.layer2 := ResNet.layer2 m;
     ResNet.layer3 := ResNet.layer3 m; ResNet.layer4 := ResNet.layer4 m;
     ResNet.avgpool := ResNet.avgpool m;
     ResNet.fc := ResNet.fc m;
     ResNet.temp := ResNet.temp m;
     ResNet.block_names := ResNet.block_names m;
     ResNet.weight_root := ResNet.weight_root m;
     ResNet._block := ResNet._block m;
     ResNet._num_classes := ResNet._num_classes m;
     ResNet._tau := tau;
     ResNet.model_name := ResNet.model_name m;
     ResNet.alphas := new_alphas;
     ResNet.gumbel := ResNet.gumbel m |}.

Definition step (s : ResNet.call_state (T:=T)) (e : event)
  : ResNet.call_state (T:=T) :=
  match e with
  | Call_forward _ | Call_arch_parameters | Call_arch_weights _ _ => s
  | Call_load_gumbel_weight => fst (ResNet.load_gumbel_weight fs s)
  | Call_load_combination_weight c f n =>
      fst (ResNet.load_combination_weight fs c f n s)
  | Update_alphas a =>
      {| ResNet.self := assign (ResNet.self s) a (ResNet._tau (ResNet.self s));
         ResNet.opened := ResNet.opened s |}
  | Assign_tau tau =>
      {| ResNet.self := assign (ResNet.self s) (ResNet.alphas (ResNet.self s)) tau;
         ResNet.opened := ResNet.opened s |}
  end.

Definition run (events : list event) (s : ResNet.call_state (T:=T))
  : ResNet.call_state (T:=T) :=
  fold_left step events s.

Lemma step_keeps_gumbel s e :
  ResNet.gumbel (ResNet.self (step s e)) = ResNet.gumbel (ResNet.self s).
Proof.
  destruct e; try reflexivity; simpl.
  - apply (same_gumbel (frame_load_gumbel_weight fs s)).
  - apply (same_gumbel (frame_load_combination_weight fs _ _ _ s)).
Qed.

Lemma run_keeps_gumbel events : forall s,
  ResNet.gumbel (ResNet.self (run events s)) = ResNet.gumbel (ResNet.self s).
Proof.
  induction events as [|e events IH]; intros s; simpl; [reflexivity|].
  unfold run in IH. now rewrite IH, step_keeps_gumbel.
Qed.

(** C2.  The Gumbel noise of an instance is the one sample [__init__]
    drew: whatever happens to the instance afterwards (calls of its
    methods, updates of [alphas], assignments to [_tau]), [gumbel] is that
    sample, and two calls of [arch_weights] made with the same [alphas] and
    the same [_tau] return the same result. *)
Theorem gumbel_sampled_once
        (c : Block.cls) (layers : list nat) (tau : R) (num_classes : nat)
        (temp : R) (weight_root : option string) (rng0 : nat)
        (m0 : ResNet.t (T:=T)) (before between : list event)
        (smooth cat : bool) :
  ResNet.__init__ c layers tau num_classes temp weight_root rng0 = Some m0 ->
  let s1 := run before {| ResNet.self := m0; ResNet.opened := [] |} in
  let s2 := run between s1 in
  (exists r r',
      ResNet.gumbel m0 = gumbel_like r' (init_alphas r)
      /\ ResNet.gumbel (ResNet.self s1) = ResNet.gumbel m0
      /\ ResNet.gumbel (ResNet.self s2) = ResNet.gumbel m0)
  /\ (ResNet.alphas (ResNet.self s2) = ResNet.alphas (ResNet.self s1) ->
      ResNet._tau (ResNet.self s2) = ResNet._tau (ResNet.self s1) ->
      ResNet.arch_weights (ResNet.self s2) smooth cat
      = ResNet.arch_weights (ResNet.self s1) smooth cat).
Proof.
  intros Hm s1 s2.
  destruct (init_spec _ _ _ _ _ _ _ Hm) as (l0 & l1 & l2 & l3 & rest & _ & Hc).
  destruct (cons_alphas Hc) as (r & r' & Ha & Hg).
  assert (G1 : ResNet.gumbel (ResNet.self s1) = ResNet.gumbel m0)
    by apply run_keeps_gumbel.
  assert (G2 : ResNet.gumbel (ResNet.self s2) = ResNet.gumbel (ResNet.self s1))
    by apply run_keeps_gumbel.
  split.
  - exists r, r'. rewrite <- Ha. repeat split; congruence.
  - intros Ea Et. unfold ResNet.arch_weights. now rewrite Ea, Et, G2.
Qed.

End Lifetime.

(** ** C9: the loaders leave [alphas] and [gumbel] alone *)

Section LoadersFrame.
Context {T : Type} `{TensorEngine T}.

(** C9.  Whatever the checkpoint store holds and however the call ends,
    [load_gumbel_weight] and [load_combination_weight] leave [alphas] and
    [gumbel] as they were: neither is a key of the state dict, and a
    [load_state_dict], strict or not, changes neither. *)
Theorem loaders_keep_alphas_and_gumbel
        (fs : string -> option (Dict.t T)) (s : ResNet.call_state (T:=T))
        (combination : list Z) (weight_folder model_name : string) :
  let s1 := fst (ResNet.load_gumbel_weight fs s) in
  let s2 := fst (ResNet.load_combination_weight
                   fs combination weight_folder model_name s) in
  (ResNet.alphas (ResNet.self s1) = ResNet.alphas (ResNet.self s)
   /\ ResNet.gumbel (ResNet.self s1) = ResNet.gumbel (ResNet.self s))
  /\ (ResNet.alphas (ResNet.self s2) = ResNet.alphas (ResNet.self s)
      /\ ResNet.gumbel (ResNet.self s2) = ResNet.gumbel (ResNet.self s))
  /\ (~ In "alphas" (Dict.keys (state_dict "" (ResNet.self s)))
      /\ ~ In "gumbel" (Dict.keys (state_dict "" (ResNet.self s))))
  /\ (forall (m : ResNet.t (T:=T)) (model_dict : Dict.t T) (strict : bool),
         ResNet.alphas (fst (load_state_dict m model_dict strict)) = ResNet.alphas m
         /\ ResNet.gumbel (fst (load_state_dict m model_dict strict)) = ResNet.gumbel m).
Proof.
  intros s1 s2.
  pose proof (frame_load_gumbel_weight fs s) as F1.
  pose proof (frame_load_combination_weight fs combination weight_folder
                                            model_name s) as F2.
  split; [split; [apply (same_alphas F1) | apply (same_gumbel F1)]|].
  split; [split; [apply (same_alphas F2) | apply (same_gumbel F2)]|].
  split; [apply alphas_gumbel_not_registered|].
  intros m model_dict strict. split; reflexivity.
Qed.

End LoadersFrame.

(** ** C10: the baseline checkpoints *)

Section Baseline.
Context {T : Type} `{TensorEngine T} `{RandomSource}.
Variable fs : string -> option (Dict.t T).

(** The paths a call gives to [torch.load] are added after those already
    logged. *)
Lemma torch_load_first {A : Type} path (k : Dict.t T -> ResNet.call (T:=T) A) s :
  (forall d s0, exists l,
        ResNet.opened (fst (k d s0)) = (ResNet.opened s0 ++ l)%list) ->
  exists rest,
    ResNet.opened (fst (ResNet.bind (ResNet.torch_load fs path) k s))
    = (ResNet.opened s ++ path :: rest)%list.
Proof.
  intros Hk. unfold ResNet.bind, ResNet.torch_load.
  destruct (fs path) as [d|].
  - match goal with |- context [k d ?s0] => destruct (Hk d s0) as [l E] end.
    exists l. rewrite E. cbn [ResNet.opened]. now rewrite <- app_assoc.
  - exists []. reflexivity.
Qed.

Definition appends {A : Type} (c : ResNet.call (T:=T) A) : Prop :=
  forall s, exists l, ResNet.opened (fst (c s)) = (ResNet.opened s ++ l)%list.

Lemma appends_ret {A : Type} (a : A) : appends (ResNet.ret a).
Proof. intros s. exists []. simpl. now rewrite app_nil_r. Qed.

Lemma appends_raise {A : Type} e : appends (ResNet.raise (A:=A) e).
Proof. intros s. exists []. simpl. now rewrite app_nil_r. Qed.

Lemma appends_bind {A B : Type} (c : ResNet.call A) (k : A -> ResNet.call B) :
  appends c -> (forall a, appends (k a)) -> appends (ResNet.bind c k).
Proof.
  intros Hc Hk s. unfold ResNet.bind.
  destruct (Hc s) as [l E]. destruct (c s) as [s' [e|a]]; simpl in *.
  - now exists l.
  - destruct (Hk a s') as [l' E']. exists (l ++ l')%list.
    now rewrite E', E, app_assoc.
Qed.

Lemma appends_get_self : appends ResNet.get_self.
Proof. intros s. exists []. simpl. now rewrite app_nil_r. Qed.

Lemma appends_put_self m : appends (ResNet.put_self m).
Proof. intros s. exists []. simpl. now rewrite app_nil_r. Qed.

Lemma appends_torch_load path : appends (ResNet.torch_load fs path).
Proof.
  intros s. exists [path]. unfold ResNet.torch_load.
  now destruct (fs path).
Qed.

Lemma appends_raise_if_errors msgs : appends (ResNet.raise_if_errors msgs).
Proof. destruct msgs; [apply appends_ret | apply appends_raise]. Qed.

Lemma appends_for_each {A : Type} (xs : list A) (body : A -> ResNet.call unit) :
  (forall x, appends (body x)) -> appends (ResNet.for_each xs body).
Proof.
  intros Hb. induction xs as [|x xs IH]; simpl.
  - apply appends_ret.
  - apply appends_bind; [apply Hb | intros _; exact IH].
Qed.

Lemma appends_self_load_state_dict d strict :
  appends (ResNet.self_load_state_dict d strict).
Proof.
  unfold ResNet.self_load_state_dict.
  apply appends_bind; [apply appends_get_self|]. intros m.
  apply appends_bind; [apply appends_put_self|]. intros _.
  apply appends_raise_if_errors.
Qed.

Lemma appends_group_load_state_dict block_name d strict :
  appends (ResNet.group_load_state_dict block_name d strict).
Proof.
  unfold ResNet.group_load_state_dict.
  apply appends_bind; [apply appends_get_self|]. intros m.
  destruct (ResNet.getattr m block_name); [|apply appends_raise].
  apply appends_bind; [apply appends_put_self|]. intros _.
  apply appends_raise_if_errors.
Qed.

Lemma appends_load_block choice root name block_name :
  appends (ResNet.load_block fs choice root name block_name).
Proof.
  unfold ResNet.load_block.
  apply appends_bind; [apply appends_get_self|]. intros m.
  apply appends_bind.
  { destruct (Py.index _ _); [apply appends_ret | apply appends_raise]. }
  intros idx. apply appends_bind.
  { unfold ResNet.subscript. destruct (nth_error _ _);
      [apply appends_ret | apply appends_raise]. }
  intros c. apply appends_bind; [apply appends_torch_load|]. intros d.
  apply appends_group_load_state_dict.
Qed.

Lemma run_keeps_identity (events : list (event (T:=T))) : forall s,
  ResNet.model_name (ResNet.self (run fs events s))
  = ResNet.model_name (ResNet.self s)
  /\ ResNet.weight_root (ResNet.self (run fs events s))
     = ResNet.weight_root (ResNet.self s).
Proof.
  induction events as [|e events IH]; intros s; simpl; [now split|].
  destruct (IH (step fs s e)) as [E1 E2]. unfold run in *.
  rewrite E1, E2. clear.
  destruct e; try (split; reflexivity); simpl.
  - split; [apply (same_model_name (frame_load_gumbel_weight fs s))
           |apply (same_weight_root (frame_load_gumbel_weight fs s))].
  - split; [apply (same_model_name (frame_load_combination_weight fs _ _ _ s))
           |apply (same_weight_root (frame_load_combination_weight fs _ _ _ s))].
Qed.


End Baseline.

(** ** C6: the backbone and its running channel count *)

Section Backbone.
Context {T : Type} `{TensorEngine T} `{RandomSource}.

(** What the constructor of a block records. *)
Lemma constructed_as_config c ip p s ds (b : Block.t (T:=T)) :
  constructed_as c ip p s ds b ->
  Block.class_of b = c /\ Block.in_channels b = ip /\ Block.planes b = p
  /\ Block.stride b = s /\ Block.out_channels b = p * Block.expansion c
  /\ Block.downsample b = ds.
Proof.
  intros [st ->]. destruct c; cbn; repeat split; try reflexivity.
  unfold BasicBlock.expansion. lia.
Qed.

(** The blocks of a stage of width [planes], entered with [inplanes]
    channels and the stride [stride]. *)
Record stage_of (c : Block.cls) (inplanes planes blocks stride : nat)
       (l : Sequential.t (T:=T)) : Prop := {
  stage_blocks : exists first rest ds,
    l = first :: rest
    /\ constructed_as c inplanes planes stride ds first
    /\ (if needs_downsample stride inplanes (planes * Block.expansion c)
        then exists st, ds = Some (new_downsample inplanes
                                     (planes * Block.expansion c) stride st)
        else ds = None)
    /\ List.length rest = blocks - 1
    /\ Forall (constructed_as c (planes * Block.expansion c) planes 1 None) rest
}.

Lemma make_layer_stage c planes blocks stride st :
  stage_of c (Ctor.inplanes st) planes blocks stride
           (fst (ResNet._make_layer (T:=T) c planes blocks stride st)).
Proof.
  destruct (make_layer_spec c planes blocks stride st)
    as (first & rest & ds & E & _ & Hf & Hd & Hl & Hr).
  constructor. exists first, rest, ds. auto.
Qed.

(** The same, read on the blocks: the first block takes [inplanes]
    channels and the stride, and has a downsample path exactly when the
    stride is not [1] or [inplanes] is not [planes * expansion]; each of
    the [blocks - 1] blocks after it takes [planes * expansion] channels
    with stride [1] and no downsample path. *)
Definition stage_layout (c : Block.cls) (inplanes planes blocks stride : nat)
           (l : Sequential.t (T:=T)) : Prop :=
  exists first rest,
    l = first :: rest
    /\ List.length rest = blocks - 1
    /\ Block.class_of first = c
    /\ Block.in_channels first = inplanes
    /\ Block.planes first = planes
    /\ Block.stride first = stride
    /\ Block.out_channels first = planes * Block.expansion c
    /\ (Block.downsample first <> None
        <-> stride <> 1 \/ inplanes <> planes * Block.expansion c)
    /\ Forall (fun b => Block.class_of b = c
                        /\ Block.in_channels b = planes * Block.expansion c
                        /\ Block.planes b = planes
                        /\ Block.stride b = 1
                        /\ Block.out_channels b = planes * Block.expansion c
                        /\ Block.downsample b = None) rest.

Lemma stage_of_layout c ip planes blocks stride l :
  stage_of c ip planes blocks stride l ->
  stage_layout c ip planes blocks stride l.
Proof.
  intros [(first & rest & ds & -> & Hf & Hd & Hl & Hr)].
  exists first, rest.
  destruct (constructed_as_config Hf) as (Ec & Ei & Ep & Es & Eo & Ed).
  repeat (split; [assumption || reflexivity|]). split.
  - rewrite Ed. unfold needs_downsample in Hd.
    destruct (Nat.eqb_spec stride 1) as [->|Hs];
      destruct (Nat.eqb_spec ip (planes * Block.expansion c)) as [Ee|Hi];
      cbn [negb orb] in Hd.
    + subst ds. split; [congruence|]. intros [?|?]; congruence.
    + destruct Hd as [st ->]. split; [auto|discriminate].
    + destruct Hd as [st ->]. split; [auto|discriminate].
    + destruct Hd as [st ->]. split; [auto|discriminate].
  - eapply Forall_impl; [|exact Hr]. intros b Hb.
    destruct (constructed_as_config Hb) as (? & ? & ? & ? & ? & ?).
    repeat split; assumption.
Qed.

(** Each block takes the channel count the one before it leaves, starting
    from [inplanes]. *)
Fixpoint chained (inplanes : nat) (bs : list (Block.t (T:=T))) : Prop :=
  match bs with
  | [] => True
  | b :: bs' => Block.in_channels b = inplanes
                /\ chained (Block.out_channels b) bs'
  end.

(** The channel count a chain leaves. *)
Fixpoint leaves (inplanes : nat) (bs : list (Block.t (T:=T))) : nat :=
  match bs with
  | [] => inplanes
  | b :: bs' => leaves (Block.out_channels b) bs'
  end.

Lemma chained_app ip bs bs' :
  chained ip bs -> chained (leaves ip bs) bs' -> chained ip (bs ++ bs').
Proof.
  revert ip. induction bs as [|b bs IH]; intros ip; simpl; [tauto|].
  intros [E Hc] Hc'. split; [exact E|]. now apply IH.
Qed.

Lemma leaves_app ip bs bs' :
  leaves ip (bs ++ bs') = leaves (leaves ip bs) bs'.
Proof. revert ip. induction bs as [|b bs IH]; intros ip; simpl; auto. Qed.

Lemma plain_blocks_chained c planes (rest : list (Block.t (T:=T))) :
  Forall (constructed_as c (planes * Block.expansion c) planes 1 None) rest ->
  chained (planes * Block.expansion c) rest
  /\ leaves (planes * Block.expansion c) rest = planes * Block.expansion c.
Proof.
  induction 1 as [|b rest Hb Hr IH]; simpl; [tauto|].
  destruct (constructed_as_config Hb) as (_ & Ei & _ & _ & Eo & _).
  rewrite Eo. tauto.
Qed.

Lemma stage_chained c ip planes blocks stride l :
  stage_of c ip planes blocks stride l ->
  chained ip l /\ leaves ip l = planes * Block.expansion c.
Proof.
  intros [(first & rest & ds & -> & Hf & _ & _ & Hr)].
  destruct (constructed_as_config Hf) as (_ & Ei & _ & _ & Eo & _).
  destruct (plain_blocks_chained Hr) as [Hc Hl].
  simpl. rewrite Eo. tauto.
Qed.

(** The four stages of a constructed network, in order. *)
Definition all_blocks (m : ResNet.t (T:=T)) : list (Block.t (T:=T)) :=
  (ResNet.layer1 m ++ ResNet.layer2 m ++ ResNet.layer3 m ++ ResNet.layer4 m)%list.

Lemma constructed_stages c l0 l1 l2 l3 tau nc temp wr (m : ResNet.t (T:=T)) :
  constructed c l0 l1 l2 l3 tau nc temp wr m ->
  stage_of c 64 64 l0 1 (ResNet.layer1 m)
  /\ stage_of c (64 * Block.expansion c) 128 l1 2 (ResNet.layer2 m)
  /\ stage_of c (128 * Block.expansion c) 256 l2 2 (ResNet.layer3 m)
  /\ stage_of c (256 * Block.expansion c) 512 l3 2 (ResNet.layer4 m).
Proof.
  intros Hc.
  destruct (cons_layer1 Hc) as (s1 & E1 & ->).
  destruct (cons_layer2 Hc) as (s2 & E2 & ->).
  destruct (cons_layer3 Hc) as (s3 & E3 & ->).
  destruct (cons_layer4 Hc) as (s4 & E4 & ->).
  rewrite <- E1 at 1. rewrite <- E2, <- E3, <- E4.
  repeat split; apply make_layer_stage.
Qed.

(** C6.  The backbone of every constructed network: the running channel
    count starts at [64]; the stages have the widths [64], [128], [256],
    [512], the first with stride [1] and the others with stride [2]; in a
    stage, the first block takes the running count, the stride and the
    downsample path, and every later block has stride [1], no downsample
    path and [width * expansion] input channels; so each block takes the
    channel count the block before it leaves, and the count ends at
    [512 * expansion]. *)
Theorem backbone_channels
        (c : Block.cls) (layers : list nat) (tau : R) (num_classes : nat)
        (temp : R) (weight_root : option string) (rng0 : nat)
        (m : ResNet.t (T:=T)) :
  ResNet.__init__ c layers tau num_classes temp weight_root rng0 = Some m ->
  exists l0 l1 l2 l3 rest,
    layers = l0 :: l1 :: l2 :: l3 :: rest
    /\ Conv2d.out_channels (ResNet.conv1 m) = 64
    /\ stage_layout c 64 64 l0 1 (ResNet.layer1 m)
    /\ stage_layout c (64 * Block.expansion c) 128 l1 2 (ResNet.layer2 m)
    /\ stage_layout c (128 * Block.expansion c) 256 l2 2 (ResNet.layer3 m)
    /\ stage_layout c (256 * Block.expansion c) 512 l3 2 (ResNet.layer4 m)
    /\ chained 64 (all_blocks m)
    /\ leaves 64 (all_blocks m) = 512 * Block.expansion c
    /\ ResNet.inplanes m = 512 * Block.expansion c.
Proof.
  intros Hm.
  destruct (init_spec _ _ _ _ _ _ _ Hm) as (l0 & l1 & l2 & l3 & rest & -> & Hc).
  exists l0, l1, l2, l3, rest.
  destruct (constructed_stages Hc) as (S1 & S2 & S3 & S4).
  destruct (stage_chained S1) as [C1 L1].
  destruct (stage_chained S2) as [C2 L2].
  destruct (stage_chained S3) as [C3 L3].
  destruct (stage_chained S4) as [C4 L4].
  split; [reflexivity|]. split.
  { destruct (cons_conv1 Hc) as [s ->]. reflexivity. }
  do 4 (split; [now apply stage_of_layout|]).
  unfold all_blocks. split; [|split].
  - apply chained_app; [exact C1|]. rewrite L1.
    apply chained_app; [exact C2|]. rewrite L2.
    apply chained_app; [exact C3|]. now rewrite L3.
  - now rewrite !leaves_app, L1, L2, L3, L4.
  - apply (cons_inplanes Hc).
Qed.

End Backbone.

(** ** C5: the downsample path *)

Section DownsampleRule.
Context {T : Type} `{TensorEngine T} `{RandomSource}.

(** A block as [_make_layer] makes it: built by the constructor of its
    class with a stride of at least one, and with a downsample path
    exactly when the test of [_make_layer] holds. *)
Definition well_made (c : Block.cls) (b : Block.t (T:=T)) : Prop :=
  exists ip p s ds,
    1 <= s
    /\ constructed_as c ip p s ds b
    /\ (if needs_downsample s ip (p * Block.expansion c)
        then exists st, ds = Some (new_downsample ip (p * Block.expansion c) s st)
        else ds = None).

Lemma needs_downsample_plain out : needs_downsample 1 out out = false.
Proof. unfold needs_downsample. simpl. now rewrite Nat.eqb_refl. Qed.

Lemma stage_blocks_well_made c ip p blocks s (l : Sequential.t (T:=T)) :
  1 <= s -> stage_of c ip p blocks s l -> Forall (well_made c) l.
Proof.
  intros Hs [(first & rest & ds & -> & Hf & Hd & _ & Hr)].
  constructor.
  - exists ip, p, s, ds. auto.
  - eapply Forall_impl; [|exact Hr]. intros b Hb.
    exists (p * Block.expansion c), p, 1, None.
    rewrite needs_downsample_plain. auto.
Qed.

Lemma constructed_blocks_well_made c l0 l1 l2 l3 tau nc temp wr
      (m : ResNet.t (T:=T)) :
  constructed c l0 l1 l2 l3 tau nc temp wr m ->
  Forall (well_made c) (all_blocks m).
Proof.
  intros Hc. destruct (constructed_stages Hc) as (S1 & S2 & S3 & S4).
  unfold all_blocks. rewrite !Forall_app.
  repeat split; eapply stage_blocks_well_made; try eassumption; lia.
Qed.

(** The rule of the downsample path, read on the block itself. *)
Definition downsample_rule (c : Block.cls) (b : Block.t (T:=T)) : Prop :=
  let out := Block.planes b * Block.expansion c in
  (Block.downsample b <> None
   <-> Block.stride b <> 1 \/ Block.in_channels b <> out)
  /\ (forall d, Block.downsample b = Some d ->
                Conv2d.kernel_size (Downsample.conv d) = 1
                /\ Conv2d.padding (Downsample.conv d) = 0
                /\ Conv2d.stride (Downsample.conv d) = Block.stride b
                /\ Conv2d.in_channels (Downsample.conv d) = Block.in_channels b
                /\ Conv2d.out_channels (Downsample.conv d) = out
                /\ shape (Conv2d.weight (Downsample.conv d))
                   = [out; Block.in_channels b; 1; 1]
                /\ BatchNorm2d.num_features (Downsample.bn d) = out
                /\ Dict.keys (state_dict "downsample." d)
                   = ["downsample.0.weight"; "downsample.1.weight";
                      "downsample.1.bias"; "downsample.1.running_mean";
                      "downsample.1.running_var";
                      "downsample.1.num_batches_tracked"]).

Lemma needs_downsample_iff s ip out :
  needs_downsample s ip out = true <-> s <> 1 \/ ip <> out.
Proof.
  unfold needs_downsample. rewrite orb_true_iff, !negb_true_iff, !Nat.eqb_neq.
  reflexivity.
Qed.

Lemma well_made_rule c (b : Block.t (T:=T)) :
  well_made c b -> downsample_rule c b.
Proof.
  intros (ip & p & s & ds & Hs & Hb & Hd).
  destruct (constructed_as_config Hb) as (_ & Ei & Ep & Es & _ & Ed).
  unfold downsample_rule. rewrite Ei, Ep, Es, Ed. clear Ei Ep Es Ed Hb.
  destruct (needs_downsample s ip (p * Block.expansion c)) eqn:N.
  - destruct Hd as [st ->]. split.
    + split; [intros _; now apply needs_downsample_iff | discriminate].
    + intros d [= <-]. unfold new_downsample.
      cbn [Downsample.conv Downsample.bn Conv2d.__init__ Ctor.bind Ctor.ret
           Ctor.draw fst Conv2d.kernel_size Conv2d.padding Conv2d.stride
           Conv2d.in_channels Conv2d.out_channels Conv2d.weight
           BatchNorm2d.__init__ BatchNorm2d.num_features].
      rewrite shape_init. repeat split; reflexivity.
  - subst ds. split.
    + split; [congruence|]. intros Hn. apply needs_downsample_iff in Hn.
      congruence.
    + discriminate.
Qed.

(** The forward pass of a block, in the two paths it adds. *)
Lemma block_forward_paths (b : Block.t (T:=T)) (x : T) :
  Block.forward b x =
  (out <- Block.main_path b x ;;
   res <- Block.residual b x ;;
   out <- iadd out res ;;
   Some (relu out))%fwd.
Proof. destruct b; reflexivity. Qed.

Lemma residual_of_constructed c ip p s ds (b : Block.t (T:=T)) (x : T) :
  constructed_as c ip p s ds b ->
  Block.residual b x = match ds with
                       | Some d => Downsample.forward d x
                       | None => Some x
                       end.
Proof. intros [st ->]. destruct c; reflexivity. Qed.

End DownsampleRule.

(** ** Shapes through the network *)

Section Shapes.
Import ShapeEngine.

(** The spatial size a 3x3 convolution with padding 1, or a 1x1
    convolution without padding, leaves at stride [s]. *)
Definition down (s h : nat) : nat := (h - 1) / s + 1.

Lemma down_1 h : 1 <= h -> down 1 h = h.
Proof. intros Hh. unfold down. rewrite Nat.div_1_r. lia. Qed.

Lemma down_pos s h : 1 <= down s h.
Proof. unfold down. lia. Qed.

Lemma shape_eqb_refl s : shape_eqb s s = true.
Proof. unfold shape_eqb. now destruct (list_eq_dec Nat.eq_dec s s). Qed.

Lemma conv3x3_shape n c h w o s :
  1 <= s -> 1 <= h -> 1 <= w ->
  conv2d_shape [n; c; h; w] [o; c; 3; 3] s 1 = Some [n; o; down s h; down s w].
Proof.
  intros Hs Hh Hw. unfold conv2d_shape, down.
  rewrite Nat.eqb_refl.
  replace (1 <=? s)%nat with true by (symmetry; apply Nat.leb_le; lia).
  replace (3 <=? h + 2 * 1)%nat with true by (symmetry; apply Nat.leb_le; lia).
  replace (3 <=? w + 2 * 1)%nat with true by (symmetry; apply Nat.leb_le; lia).
  cbn [Nat.leb andb].
  replace (h + 2 * 1 - 3) with (h - 1) by lia.
  replace (w + 2 * 1 - 3) with (w - 1) by lia. reflexivity.
Qed.

Lemma conv1x1_shape n c h w o s :
  1 <= s -> 1 <= h -> 1 <= w ->
  conv2d_shape [n; c; h; w] [o; c; 1; 1] s 0 = Some [n; o; down s h; down s w].
Proof.
  intros Hs Hh Hw. unfold conv2d_shape, down.
  rewrite Nat.eqb_refl.
  replace (1 <=? s)%nat with true by (symmetry; apply Nat.leb_le; lia).
  replace (1 <=? h + 2 * 0)%nat with true by (symmetry; apply Nat.leb_le; lia).
  replace (1 <=? w + 2 * 0)%nat with true by (symmetry; apply Nat.leb_le; lia).
  cbn [Nat.leb andb].
  replace (h + 2 * 0 - 1) with (h - 1) by lia.
  replace (w + 2 * 0 - 1) with (w - 1) by lia. reflexivity.
Qed.

Lemma batch_norm_shape_same n c h w :
  batch_norm_shape [n; c; h; w] [c] [c] [c] [c] = Some [n; c; h; w].
Proof. unfold batch_norm_shape. now rewrite shape_eqb_refl. Qed.

Lemma broadcasts_to_refl s : broadcasts_to s s = true.
Proof. induction s as [|x s IH]; simpl; [reflexivity|]. now rewrite Nat.eqb_refl. Qed.

Lemma iadd_shape_same s : iadd_shape s s = Some s.
Proof. unfold iadd_shape. now rewrite broadcasts_to_refl. Qed.

(** One step of a forward pass on shapes. *)
Ltac shape_step :=
  first
    [ rewrite conv3x3_shape by (try apply down_pos; lia)
    | rewrite conv1x1_shape by (try apply down_pos; lia)
    | rewrite batch_norm_shape_same
    | rewrite iadd_shape_same ];
  cbn [obind].

Ltac shape_unfold :=
  cbn [Block.__init__ BasicBlock.__init__ Bottleneck.__init__
       BatchNorm2d.__init__ Conv2d.__init__ conv3x3
       Ctor.bind Ctor.ret Ctor.draw fst snd init_tensor engine];
  unfold Block.main_path, Block.residual, Block.forward,
    BasicBlock.main_path, BasicBlock.residual, BasicBlock.forward,
    Bottleneck.main_path, Bottleneck.residual, Bottleneck.forward,
    Downsample.forward, Conv2d.forward, BatchNorm2d.forward;
  cbn [BasicBlock.conv1 BasicBlock.bn1 BasicBlock.conv2 BasicBlock.bn2
       BasicBlock.downsample
       Bottleneck.conv1 Bottleneck.bn1 Bottleneck.conv2 Bottleneck.bn2
       Bottleneck.conv3 Bottleneck.bn3 Bottleneck.downsample
       Downsample.conv Downsample.bn
       Conv2d.weight Conv2d.stride Conv2d.padding
       BatchNorm2d.weight BatchNorm2d.bias BatchNorm2d.running_mean
       BatchNorm2d.running_var
       conv2d batch_norm relu iadd engine].

Lemma main_path_shape c ip p s ds (b : Block.t (T:=tensor)) n h w :
  constructed_as c ip p s ds b ->
  1 <= s -> 1 <= h -> 1 <= w ->
  Block.main_path b [n; ip; h; w]
  = Some [n; p * Block.expansion c; down s h; down s w].
Proof.
  intros [st ->] Hs Hh Hw. destruct c; shape_unfold.
  - repeat shape_step.
    repeat rewrite down_1 by (first [apply down_pos | lia]).
    unfold Block.expansion, BasicBlock.expansion. now rewrite Nat.mul_1_r.
  - repeat shape_step.
    repeat rewrite down_1 by (first [apply down_pos | lia]). reflexivity.
Qed.

Lemma new_downsample_shape ip out s st n h w :
  1 <= s -> 1 <= h -> 1 <= w ->
  Downsample.forward (new_downsample (T:=tensor) ip out s st) [n; ip; h; w]
  = Some [n; out; down s h; down s w].
Proof.
  intros Hs Hh Hw. unfold new_downsample. shape_unfold.
  now repeat shape_step.
Qed.

Lemma needs_downsample_false s ip out :
  needs_downsample s ip out = false -> s = 1 /\ ip = out.
Proof.
  unfold needs_downsample. rewrite orb_false_iff, !negb_false_iff, !Nat.eqb_eq.
  tauto.
Qed.

(** A block made by [_make_layer]: the two paths have one shape, and the
    block returns it. *)
Lemma made_block_shapes c ip p s ds (b : Block.t (T:=tensor)) n h w :
  constructed_as c ip p s ds b ->
  (if needs_downsample s ip (p * Block.expansion c)
   then exists st, ds = Some (new_downsample ip (p * Block.expansion c) s st)
   else ds = None) ->
  1 <= s -> 1 <= h -> 1 <= w ->
  let y := [n; p * Block.expansion c; down s h; down s w] in
  Block.main_path b [n; ip; h; w] = Some y
  /\ Block.residual b [n; ip; h; w] = Some y
  /\ Block.forward b [n; ip; h; w] = Some y.
Proof.
  intros Hb Hd Hs Hh Hw y.
  assert (Em : Block.main_path b [n; ip; h; w] = Some y)
    by now apply main_path_shape with (ds := ds).
  assert (Er : Block.residual b [n; ip; h; w] = Some y).
  { rewrite (residual_of_constructed _ Hb).
    destruct (needs_downsample s ip (p * Block.expansion c)) eqn:N.
    - destruct Hd as [st ->]. now apply new_downsample_shape.
    - subst ds. apply needs_downsample_false in N. destruct N as [-> ->].
      unfold y. now rewrite !down_1. }
  repeat split; try assumption.
  rewrite block_forward_paths, Em, Er. cbn [obind iadd engine].
  now rewrite iadd_shape_same.
Qed.

Lemma plain_blocks_forward c p (rest : list (Block.t (T:=tensor))) n h w :
  Forall (constructed_as c (p * Block.expansion c) p 1 None) rest ->
  1 <= h -> 1 <= w ->
  Sequential.forward rest [n; p * Block.expansion c; h; w]
  = Some [n; p * Block.expansion c; h; w].
Proof.
  intros Hr Hh Hw. induction Hr as [|b rest Hb Hr IH]; [reflexivity|].
  cbn [Sequential.forward].
  assert (Hd : if needs_downsample 1 (p * Block.expansion c)
                                    (p * Block.expansion c)
               then exists st, @None (Downsample.t (T:=tensor))
                               = Some (new_downsample (p * Block.expansion c)
                                         (p * Block.expansion c) 1 st)
               else @None (Downsample.t (T:=tensor)) = None)
    by now rewrite needs_downsample_plain.
  destruct (made_block_shapes n Hb Hd (le_n 1) Hh Hw) as (_ & _ & Ef).
  rewrite Ef, !down_1 by lia. cbn [obind]. exact IH.
Qed.

Lemma stage_forward c ip p blocks s (l : Sequential.t (T:=tensor)) n h w :
  stage_of c ip p blocks s l ->
  1 <= s -> 1 <= h -> 1 <= w ->
  Sequential.forward l [n; ip; h; w]
  = Some [n; p * Block.expansion c; down s h; down s w].
Proof.
  intros [(first & rest & ds & -> & Hf & Hd & _ & Hr)] Hs Hh Hw.
  cbn [Sequential.forward].
  destruct (made_block_shapes n Hf Hd Hs Hh Hw) as (_ & _ & Ef).
  rewrite Ef. cbn [obind]. apply plain_blocks_forward; auto using down_pos.
Qed.

Lemma expansion_pos c : 1 <= Block.expansion c.
Proof. destruct c; cbv; lia. Qed.

(** The head on shapes: pooling to 2x2, flattening and the linear layer
    take [c] channels of any size to [num_classes] logits, when the linear
    layer expects [c * 4] features. *)
Lemma head_shape (f : Linear.t (T:=tensor)) n c h w num_classes st :
  f = fst (Linear.__init__ (c * 4) num_classes st) ->
  1 <= n -> 1 <= c -> 1 <= h -> 1 <= w ->
  (x <- adaptive_avg_pool2d [n; c; h; w] 2 ;;
   x <- view_rows x ;;
   Linear.forward f x)%fwd = Some [n; num_classes].
Proof.
  intros -> Hn Hc Hh Hw.
  cbn [adaptive_avg_pool2d engine]. unfold adaptive_avg_pool2d_shape.
  replace (1 <=? c)%nat with true by (symmetry; apply Nat.leb_le; lia).
  replace (1 <=? h)%nat with true by (symmetry; apply Nat.leb_le; lia).
  replace (1 <=? w)%nat with true by (symmetry; apply Nat.leb_le; lia).
  cbn [andb obind view_rows engine]. unfold view_rows_shape.
  replace (numel [n; c; 2; 2] =? 0)%nat with false
    by (symmetry; apply Nat.eqb_neq; unfold numel; cbn [fold_right]; nia).
  cbn [obind]. unfold Linear.forward, Linear.__init__.
  cbn [Ctor.bind Ctor.ret Ctor.draw fst snd Linear.weight Linear.bias
       init_tensor linear engine].
  unfold linear_shape.
  replace (numel [c; 2; 2] =? c * 4)%nat with true
    by (symmetry; apply Nat.eqb_eq; unfold numel; cbn [fold_right]; lia).
  now rewrite Nat.eqb_refl.
Qed.

(** The whole forward pass on shapes: a batch of [n] images of any size
    gives [n] rows of [num_classes] logits. *)
Lemma forward_shape `{RandomSource} c l0 l1 l2 l3 tau num_classes temp wr
      (m : ResNet.t (T:=tensor)) n h w :
  constructed c l0 l1 l2 l3 tau num_classes temp wr m ->
  1 <= n -> 1 <= h -> 1 <= w ->
  ResNet.forward m [n; 3; h; w] = Some [n; num_classes].
Proof.
  intros Hc Hn Hh Hw.
  destruct (constructed_stages Hc) as (S1 & S2 & S3 & S4).
  unfold ResNet.forward.
  destruct (cons_conv1 Hc) as [s0 ->]. rewrite (cons_bn1 Hc).
  unfold Conv2d.forward, BatchNorm2d.forward.
  cbn [Conv2d.__init__ Ctor.bind Ctor.ret Ctor.draw fst
       Conv2d.weight Conv2d.stride Conv2d.padding init_tensor engine
       BatchNorm2d.__init__ BatchNorm2d.weight BatchNorm2d.bias
       BatchNorm2d.running_mean BatchNorm2d.running_var
       conv2d batch_norm relu].
  rewrite conv3x3_shape by lia. cbn [obind].
  rewrite batch_norm_shape_same, !down_1 by lia. cbn [obind].
  rewrite (stage_forward n S1) by lia. cbn [obind].
  rewrite (stage_forward n S2) by (try apply down_pos; lia). cbn [obind].
  rewrite (stage_forward n S3) by (try apply down_pos; lia). cbn [obind].
  rewrite (stage_forward n S4) by (try apply down_pos; lia). cbn [obind].
  rewrite (cons_avgpool Hc).
  destruct (cons_fc Hc) as [sf Ef].
  pose proof (expansion_pos c) as He.
  assert (Hhead := fun h' w' Hh' Hw' =>
            @head_shape _ n (512 * Block.expansion c) h' w' num_classes sf
                        Ef Hn ltac:(lia) Hh' Hw').
  match goal with
  | |- context [adaptive_avg_pool2d [n; _; ?h4; ?w4] 2] =>
      specialize (Hhead h4 w4 (down_pos _ _) (down_pos _ _))
  end.
  cbn [adaptive_avg_pool2d view_rows engine] in Hhead |- *.
  unfold obind in Hhead |- *.
  destruct (adaptive_avg_pool2d_shape _ 2) as [x1|]; [|discriminate Hhead].
  destruct (view_rows_shape x1) as [x2|]; [|discriminate Hhead].
  now rewrite Hhead.
Qed.

End Shapes.


(** ** C7: the head of the forward pass *)

Section Head.
Context {T : Type} `{TensorEngine T}.

(** The stem and the four stages: [forward] up to the pooling. *)
Definition stages (m : ResNet.t (T:=T)) (x : T) : option T :=
  (x <- Conv2d.forward (ResNet.conv1 m) x ;;
   x <- BatchNorm2d.forward (ResNet.bn1 m) x ;;
   let x := relu x in
   x <- Sequential.forward (ResNet.layer1 m) x ;;
   x <- Sequential.forward (ResNet.layer2 m) x ;;
   x <- Sequential.forward (ResNet.layer3 m) x ;;
   Sequential.forward (ResNet.layer4 m) x)%fwd.

(** The head in the words of the specification: adaptive average pooling
    to 2x2, flattening, the linear layer, and the division by the
    temperature as the last operation. *)
Definition head_spec (fc_weight fc_bias : T) (temperature : R) (x : T)
  : option T :=
  (pooled <- adaptive_avg_pool2d x 2 ;;
   flat <- view_rows pooled ;;
   logits <- linear flat fc_weight fc_bias ;;
   Some (div_scalar logits temperature))%fwd.

Lemma forward_is_stages_then_head (m : ResNet.t (T:=T)) (x : T) :
  ResNet.avgpool m = 2 ->
  ResNet.forward m x =
  (y <- stages m x ;;
   head_spec (Linear.weight (ResNet.fc m)) (Linear.bias (ResNet.fc m))
             (ResNet.temp m) y)%fwd.
Proof.
  intros Ea. unfold ResNet.forward, stages, head_spec, Linear.forward.
  rewrite Ea.
  destruct (Conv2d.forward (ResNet.conv1 m) x) as [x1|]; [|reflexivity].
  cbn [obind].
  destruct (BatchNorm2d.forward (ResNet.bn1 m) x1) as [x2|]; [|reflexivity].
  cbn [obind].
  destruct (Sequential.forward (ResNet.layer1 m) (relu x2)) as [x3|];
    [|reflexivity].
  cbn [obind].
  destruct (Sequential.forward (ResNet.layer2 m) x3) as [x4|]; [|reflexivity].
  cbn [obind].
  destruct (Sequential.forward (ResNet.layer3 m) x4) as [x5|]; [|reflexivity].
  cbn [obind].
  destruct (Sequential.forward (ResNet.layer4 m) x5) as [x6|]; reflexivity.
Qed.

End Head.


(** ** C8: the forward pass does not read the selection tensors *)

Section Selection.
Context {T : Type} `{TensorEngine T}.

(** The attributes [forward] reads have the same value in [m] and [m']. *)
Record same_network (m m' : ResNet.t (T:=T)) : Prop := {
  net_conv1 : ResNet.conv1 m' = ResNet.conv1 m;
  net_bn1 : ResNet.bn1 m' = ResNet.bn1 m;
  net_layer1 : ResNet.layer1 m' = ResNet.layer1 m;
  net_layer2 : ResNet.layer2 m' = ResNet.layer2 m;
  net_layer3 : ResNet.layer3 m' = ResNet.layer3 m;
  net_layer4 : ResNet.layer4 m' = ResNet.layer4 m;
  net_avgpool : ResNet.avgpool m' = ResNet.avgpool m;
  net_fc : ResNet.fc m' = ResNet.fc m;
  net_temp : ResNet.temp m' = ResNet.temp m
}.

(** The instance [m] with other selection tensors. *)
Definition with_selection (m : ResNet.t (T:=T)) (alphas gumbel : list (list R))
  : ResNet.t (T:=T) :=
  {| ResNet.inplanes := ResNet.inplanes m;
     ResNet.conv1 := ResNet.conv1 m; ResNet.bn1 := ResNet.bn1 m;
     ResNet.layer1 := ResNet.layer1 m; ResNet.layer2 := ResNet.layer2 m;
     ResNet.layer3 := ResNet.layer3 m; ResNet.layer4 := ResNet.layer4 m;
     ResNet.avgpool := ResNet.avgpool m;
     ResNet.fc := ResNet.fc m;
     ResNet.temp := ResNet.temp m;
     ResNet.block_names := ResNet.block_names m;
     ResNet.weight_root := ResNet.weight_root m;
     ResNet._block := ResNet._block m;
     ResNet._num_classes := ResNet._num_classes m;
     ResNet._tau := ResNet._tau m;
     ResNet.model_name := ResNet.model_name m;
     ResNet.alphas := alphas;
     ResNet.gumbel := gumbel |}.

(** C8.  [forward] reads neither [alphas] nor [gumbel]: an instance with
    any other values of the two tensors returns the same output on every
    input, and so do any two instances that agree on the layers, the
    pooling size and the temperature. *)
Theorem forward_ignores_selection
        (m m' : ResNet.t (T:=T)) (alphas gumbel : list (list R)) (x : T) :
  ResNet.forward (with_selection m alphas gumbel) x = ResNet.forward m x
  /\ (same_network m m' -> ResNet.forward m' x = ResNet.forward m x).
Proof.
  split; [reflexivity|].
  intros [E1 E2 E3 E4 E5 E6 E7 E8 E9]. unfold ResNet.forward.
  now rewrite E1, E2, E3, E4, E5, E6, E7, E8, E9.
Qed.

End Selection.

(** ** Checkpoints and what a group load reads from them *)

Section Checkpoints.
Context {T : Type} `{TensorEngine T}.

Lemma startswith_app (p s : string) : Py.startswith (p ++ s) p = true.
Proof.
  unfold Py.startswith. induction p as [|a p IH]; simpl.
  - now destruct s.
  - now destruct (ascii_dec a a).
Qed.

Lemma startswith_inv (p k : string) :
  Py.startswith k p = true -> exists s, k = p ++ s.
Proof.
  unfold Py.startswith. revert k.
  induction p as [|a p IH]; intros k.
  - intros _. now exists k.
  - destruct k as [|b k]; simpl; [discriminate|].
    destruct (ascii_dec a b) as [->|]; [|discriminate].
    intros Hp. destruct (IH k Hp) as [s ->]. now exists s.
Qed.

Lemma append_inj_l (p s s' : string) : p ++ s = p ++ s' -> s = s'.
Proof. induction p as [|a p IH]; simpl; [auto|]. intros [= E]. auto. Qed.

(** A comprehension is the update of an empty dictionary with the kept
    items, re-keyed. *)
Lemma comprehension_update (f : string -> string) (p : string -> bool)
      (d : Dict.t T) :
  Dict.comprehension f p d
  = Dict.update [] (map (fun kv => (f (fst kv), snd kv))
                        (filter (fun kv => p (fst kv)) d)).
Proof.
  unfold Dict.comprehension, Dict.update. generalize (@nil (string * T)).
  induction d as [|[k v] d IH]; intros acc; simpl; [reflexivity|].
  destruct (p k); simpl; apply IH.
Qed.

Lemma get_comprehension (f : string -> string) (p : string -> bool)
      (d : Dict.t T) (k : string) :
  Dict.get k (Dict.comprehension f p d)
  = Dict.get_last k (map (fun kv => (f (fst kv), snd kv))
                         (filter (fun kv => p (fst kv)) d)).
Proof.
  rewrite comprehension_update, DictFacts.get_update.
  now destruct (Dict.get_last _ _).
Qed.

(** Re-keying by [f] the items that pass [p] inverts the embedding [e] of
    the new keys among the old ones. *)
Lemma get_last_rekeyed (f e : string -> string) (p : string -> bool)
      (d : Dict.t T) (k : string) :
  (forall k0, In k0 (Dict.keys d) -> p k0 = true -> e (f k0) = k0) ->
  p (e k) = true -> f (e k) = k ->
  Dict.get_last k (map (fun kv => (f (fst kv), snd kv))
                       (filter (fun kv => p (fst kv)) d))
  = Dict.get_last (e k) d.
Proof.
  intros Ha Hp Hf. induction d as [|[k0 v0] d IH]; simpl; [reflexivity|].
  assert (IH' := IH (fun k1 H1 => Ha k1 (or_intror H1))). clear IH.
  destruct (p k0) eqn:P0; simpl.
  - rewrite IH'. destruct (Dict.get_last (e k) d); [reflexivity|].
    destruct (String.eqb k0 (e k)) eqn:E.
    + apply String.eqb_eq in E. subst k0. rewrite Hf.
      now rewrite String.eqb_refl.
    + destruct (String.eqb (f k0) k) eqn:E'; [|reflexivity].
      apply String.eqb_eq in E'. subst k.
      rewrite (Ha k0 (or_introl eq_refl) P0) in E.
      now rewrite String.eqb_refl in E.
  - rewrite IH'. destruct (Dict.get_last (e k) d); [reflexivity|].
    destruct (String.eqb k0 (e k)) eqn:E; [|reflexivity].
    apply String.eqb_eq in E. subst k0. congruence.
Qed.

(** A checkpoint of the whole network: every key is under one of its
    seven parameterised children. *)
Definition prefixed (ck : Dict.t T) : Prop :=
  forall k, In k (Dict.keys ck) ->
            exists g s, In g top_level_prefixes /\ k = g ++ s.

(** The characters the source cuts for a group: the name and the dot. *)
Definition cut (block_name : string) : nat :=
  if String.eqb block_name "fc" then 3 else 7.

Definition group_names : list string :=
  ["layer1"; "layer2"; "layer3"; "layer4"; "fc"].

Lemma merged_dict_cut block_name (ck : Dict.t T) :
  ResNet.merged_dict block_name ck
  = Dict.update ck (Dict.comprehension (Py.slice_from (cut block_name))
                                       (fun k => Py.startswith k block_name) ck).
Proof.
  unfold ResNet.merged_dict, cut. now destruct (String.eqb block_name "fc").
Qed.

(** Under a top-level prefix, a key starts with the name of a group only
    when the prefix is that name and a dot, and the cut then leaves the
    rest. *)
Lemma group_key_cut block_name g s :
  In block_name group_names -> In g top_level_prefixes ->
  Py.startswith (g ++ s) block_name = true ->
  (block_name ++ ".") ++ Py.slice_from (cut block_name) (g ++ s) = g ++ s.
Proof.
  unfold group_names, top_level_prefixes. cbn [In].
  intros Hb Hg.
  repeat (destruct Hb as [<-|Hb]; [|]); try contradiction;
    repeat (destruct Hg as [<-|Hg]; [|]); try contradiction;
    cbn; intros E; first [discriminate E | reflexivity].
Qed.

Lemma group_key_embed block_name k :
  In block_name group_names ->
  Py.startswith ((block_name ++ ".") ++ k) block_name = true
  /\ Py.slice_from (cut block_name) ((block_name ++ ".") ++ k) = k.
Proof.
  unfold group_names. cbn [In]. intros Hb.
  repeat (destruct Hb as [<-|Hb]; [|]); try contradiction;
    split; cbn; try reflexivity; now destruct k.
Qed.

(** What a group load finds under the key [k]: the entry of the
    checkpoint under the name of the group, and otherwise the entry of
    the checkpoint at [k] itself. *)
Lemma get_merged_dict block_name (ck : Dict.t T) (k : string) :
  In block_name group_names ->
  NoDup (Dict.keys ck) -> prefixed ck ->
  Dict.get k (ResNet.merged_dict block_name ck)
  = match Dict.get ((block_name ++ ".") ++ k) ck with
    | Some v => Some v
    | None => Dict.get k ck
    end.
Proof.
  intros Hb Hn Hp. rewrite merged_dict_cut, DictFacts.get_update.
  rewrite DictFacts.get_last_NoDup by apply DictFacts.NoDup_comprehension.
  rewrite get_comprehension.
  rewrite (@get_last_rekeyed (Py.slice_from (cut block_name))
             (fun k' => (block_name ++ ".") ++ k')
             (fun k0 => Py.startswith k0 block_name) ck k).
  - now rewrite DictFacts.get_last_NoDup by exact Hn.
  - intros k0 Hin Hs. destruct (Hp k0 Hin) as (g & s & Hg & ->).
    now apply group_key_cut.
  - apply (group_key_embed k Hb).
  - apply (group_key_embed k Hb).
Qed.

End Checkpoints.

(** ** The names of a group inside the names of the network *)

Section Shift.
Context {T : Type} `{TensorEngine T}.

(** The state dict under the prefix [p ++ q] is the one under [q] with
    [p] put before every key. *)
Definition shift (p : string) (d : Dict.t T) : Dict.t T :=
  map (fun kv => (p ++ fst kv, snd kv)) d.

Lemma shift_app p d e : shift p (d ++ e)%list = (shift p d ++ shift p e)%list.
Proof. apply map_app. Qed.

Lemma conv2d_named_shift p q c :
  Conv2d.named (T:=T) (p ++ q) c = shift p (Conv2d.named q c).
Proof. unfold Conv2d.named, shift. cbn. now rewrite !append_assoc. Qed.

Lemma batchnorm2d_named_shift p q b :
  BatchNorm2d.named (T:=T) (p ++ q) b = shift p (BatchNorm2d.named q b).
Proof. unfold BatchNorm2d.named, shift. cbn. now rewrite !append_assoc. Qed.

Lemma linear_named_shift p q l :
  Linear.named (T:=T) (p ++ q) l = shift p (Linear.named q l).
Proof. unfold Linear.named, shift. cbn. now rewrite !append_assoc. Qed.

Lemma downsample_named_shift p q d :
  Downsample.named (T:=T) (p ++ q) d = shift p (Downsample.named q d).
Proof.
  unfold Downsample.named. rewrite shift_app, !append_assoc.
  now rewrite conv2d_named_shift, batchnorm2d_named_shift.
Qed.

Lemma named_downsample_shift p q d :
  named_downsample (T:=T) (p ++ q) d = shift p (named_downsample q d).
Proof.
  destruct d; simpl; [|reflexivity].
  now rewrite append_assoc, downsample_named_shift.
Qed.

Lemma basicblock_named_shift p q b :
  BasicBlock.named (T:=T) (p ++ q) b = shift p (BasicBlock.named q b).
Proof.
  unfold BasicBlock.named. rewrite !shift_app, !append_assoc.
  now rewrite !conv2d_named_shift, !batchnorm2d_named_shift,
    named_downsample_shift.
Qed.

Lemma bottleneck_named_shift p q b :
  Bottleneck.named (T:=T) (p ++ q) b = shift p (Bottleneck.named q b).
Proof.
  unfold Bottleneck.named. rewrite !shift_app, !append_assoc.
  now rewrite !conv2d_named_shift, !batchnorm2d_named_shift,
    named_downsample_shift.
Qed.

Lemma block_named_shift p q b :
  Block.named (T:=T) (p ++ q) b = shift p (Block.named q b).
Proof.
  destruct b; [apply basicblock_named_shift | apply bottleneck_named_shift].
Qed.

Lemma sequential_named_shift_from p q l : forall i,
  Sequential.named_from (T:=T) i (p ++ q) l
  = shift p (Sequential.named_from i q l).
Proof.
  induction l as [|b l IH]; intros i; simpl; [reflexivity|].
  now rewrite shift_app, IH, !append_assoc, block_named_shift.
Qed.

Lemma sequential_named_shift p q l :
  Sequential.named (T:=T) (p ++ q) l = shift p (Sequential.named q l).
Proof. apply sequential_named_shift_from. Qed.

(** The state dict of a group, under the name of the group, is part of
    the state dict of the network. *)
Lemma group_entries_in_network (m : ResNet.t (T:=T)) block_name g k v :
  ResNet.getattr m block_name = Some g ->
  In (k, v) (state_dict "" g) ->
  In ((block_name ++ ".") ++ k, v) (state_dict "" m).
Proof.
  unfold ResNet.getattr.
  repeat match goal with
         | |- context [String.eqb block_name ?n] =>
             let E := fresh "E" in
             destruct (String.eqb block_name n) eqn:E;
               [apply String.eqb_eq in E; subst block_name|]
         end; try discriminate;
    intros [= <-] Hin; cbn [state_dict ResNet.module ResNet.group_module
                              ResNet.group_named] in *;
    unfold ResNet.named; rewrite !in_app_iff.
  - do 2 right; left.
    change ("" ++ "layer1.") with ("layer1." ++ "").
    rewrite sequential_named_shift. apply in_map_iff. now exists (k, v).
  - do 3 right; left.
    change ("" ++ "layer2.") with ("layer2." ++ "").
    rewrite sequential_named_shift. apply in_map_iff. now exists (k, v).
  - do 4 right; left.
    change ("" ++ "layer3.") with ("layer3." ++ "").
    rewrite sequential_named_shift. apply in_map_iff. now exists (k, v).
  - do 5 right; left.
    change ("" ++ "layer4.") with ("layer4." ++ "").
    rewrite sequential_named_shift. apply in_map_iff. now exists (k, v).
  - do 6 right.
    change ("" ++ "fc.") with ("fc." ++ "").
    rewrite linear_named_shift. apply in_map_iff. now exists (k, v).
Qed.

End Shift.

(** ** The names of a group are not names of the network *)

Section RelativeKeys.
Context {T : Type} `{TensorEngine T}.

Definition digits : list ascii :=
  ["0"; "1"; "2"; "3"; "4"; "5"; "6"; "7"; "8"; "9"]%char.

Lemma to_uint_nonnil (i : nat) : Nat.to_uint i <> Decimal.Nil.
Proof.
  rewrite <- (DecimalNat.Unsigned.of_to i) at 1.
  rewrite DecimalNat.Unsigned.to_of. apply DecimalFacts.unorm_nonnil.
Qed.

Lemma str_of_nat_digit (i : nat) :
  exists d rest, Py.str_of_nat i = String d rest /\ In d digits.
Proof.
  unfold Py.str_of_nat. pose proof (to_uint_nonnil i) as Hn.
  destruct (Nat.to_uint i); [congruence|..]; cbn [NilEmpty.string_of_uint];
    do 2 eexists; (split; [reflexivity|]); cbn; tauto.
Qed.

(** No top-level prefix starts the key [k]. *)
Definition relative (k : string) : Prop :=
  forall g, In g top_level_prefixes -> Py.startswith k g = false.

Lemma digit_relative d rest : In d digits -> relative (String d rest).
Proof.
  unfold digits, relative, top_level_prefixes. cbn [In].
  intros Hd g Hg.
  repeat (destruct Hd as [<-|Hd]; [|]); try contradiction;
    repeat (destruct Hg as [<-|Hg]; [|]); try contradiction; reflexivity.
Qed.

Lemma sequential_keys_relative l : forall i k v,
  In (k, v) (Sequential.named_from (T:=T) i "" l) -> relative k.
Proof.
  induction l as [|b l IH]; intros i k v; simpl; [tauto|].
  rewrite in_app_iff. intros [Hin|Hin]; [|eauto].
  apply block_keys_under in Hin. destruct Hin as [s ->].
  destruct (str_of_nat_digit i) as (d & rest & -> & Hd).
  cbn. now apply digit_relative.
Qed.

Lemma group_keys_relative (g : ResNet.group (T:=T)) k v :
  In (k, v) (state_dict "" g) -> relative k.
Proof.
  destruct g as [l|l]; cbn [state_dict ResNet.group_module ResNet.group_named].
  - apply sequential_keys_relative.
  - unfold Linear.named. cbn [In].
    intros [[= <- _]|[[= <- _]|[]]]; intros g Hg;
      unfold top_level_prefixes in Hg; cbn [In] in Hg;
      repeat (destruct Hg as [<-|Hg]; [|]); try contradiction; reflexivity.
Qed.

Lemma relative_absent (ck : Dict.t T) k :
  prefixed ck -> relative k -> Dict.get k ck = None.
Proof.
  intros Hp Hr. apply DictFacts.get_None_not_In. intros Hin.
  destruct (Hp k Hin) as (g & s & Hg & ->).
  specialize (Hr g Hg). now rewrite startswith_app in Hr.
Qed.

(** A group load reads, for each of its parameters, the entry of the
    checkpoint under the name of the group. *)
Lemma get_merged_dict_group block_name (ck : Dict.t T)
      (g : ResNet.group (T:=T)) k v :
  In block_name group_names ->
  NoDup (Dict.keys ck) -> prefixed ck ->
  In (k, v) (state_dict "" g) ->
  Dict.get k (ResNet.merged_dict block_name ck)
  = Dict.get ((block_name ++ ".") ++ k) ck.
Proof.
  intros Hb Hn Hp Hin. rewrite get_merged_dict by assumption.
  rewrite (relative_absent Hp (group_keys_relative _ _ _ Hin)).
  now destruct (Dict.get _ ck).
Qed.

End RelativeKeys.

(** ** One group load *)

Section GroupLoad.
Context {T : Type} `{TensorEngine T}.
Variable fs : string -> option (Dict.t T).

Fixpoint nodupb (l : list string) : bool :=
  match l with
  | [] => true
  | k :: l' => negb (existsb (String.eqb k) l') && nodupb l'
  end.

Definition prefixedb (ck : Dict.t T) : bool :=
  forallb (fun k => existsb (fun g => Py.startswith k g) top_level_prefixes)
          (Dict.keys ck).

(** No entry of [ck] has the key of an entry of [d] and another shape. *)
Definition fits (ck d : Dict.t T) : bool :=
  forallb (fun kv => negb (size_mismatch ck kv)) d.

(** A checkpoint of the architecture of [m]: a dictionary (no key twice)
    whose keys are under the children of the network and whose tensors
    have the shapes of the parameters of [m] they name. *)
Definition checkpoint_ok (m : ResNet.t (T:=T)) (ck : Dict.t T) : bool :=
  nodupb (Dict.keys ck) && prefixedb ck && fits ck (state_dict "" m).

Lemma nodupb_NoDup l : nodupb l = true -> NoDup l.
Proof.
  induction l as [|k l IH]; simpl; [constructor|].
  rewrite andb_true_iff, negb_true_iff. intros [Hk Hl].
  constructor; [|auto]. intros Hin.
  assert (existsb (String.eqb k) l = true); [|congruence].
  apply existsb_exists. exists k. split; [exact Hin|apply String.eqb_refl].
Qed.

Lemma prefixedb_prefixed ck : prefixedb ck = true -> prefixed ck.
Proof.
  unfold prefixedb, prefixed. rewrite forallb_forall. intros Hp k Hin.
  specialize (Hp k Hin). apply existsb_exists in Hp.
  destruct Hp as (g & Hg & Hs). apply startswith_inv in Hs.
  destruct Hs as [s ->]. now exists g, s.
Qed.

Lemma checkpoint_ok_inv m ck :
  checkpoint_ok m ck = true ->
  NoDup (Dict.keys ck) /\ prefixed ck /\ fits ck (state_dict "" m) = true.
Proof.
  unfold checkpoint_ok. rewrite !andb_true_iff. intros [[Hn Hp] Hf].
  auto using nodupb_NoDup, prefixedb_prefixed.
Qed.

Lemma fits_no_errors ck d :
  fits ck d = true -> filter (size_mismatch ck) d = [].
Proof.
  unfold fits. induction d as [|kv d IH]; simpl; [reflexivity|].
  rewrite andb_true_iff, negb_true_iff. intros [-> Hd]. auto.
Qed.

Lemma filter_none {A : Type} (p : A -> bool) (l : list A) :
  (forall x, In x l -> p x = false) -> filter p l = [].
Proof.
  induction l as [|x l IH]; simpl; intros Hp; [reflexivity|].
  rewrite (Hp x (or_introl eq_refl)). auto.
Qed.

Lemma fits_entry ck d k v :
  fits ck d = true -> In (k, v) d -> size_mismatch ck (k, v) = false.
Proof.
  unfold fits. rewrite forallb_forall. intros Hf Hin.
  specialize (Hf _ Hin). now apply negb_true_iff in Hf.
Qed.

Lemma shape_copy_ sd k (old : T) : shape (copy_ sd k old) = shape old.
Proof.
  unfold copy_. destruct (Dict.get k sd) as [v|]; [|reflexivity].
  unfold shape_eqb.
  now destruct (list_eq_dec Nat.eq_dec (shape v) (shape old)).
Qed.

(** A load keeps the shape of every parameter, so a checkpoint that fits
    before the load fits after it. *)
Lemma fits_after_load {M : Type} {Mod : Module T M}
      {Laws : ModuleLaws Mod} ck sd (m : M) p :
  fits ck (state_dict p m) = true ->
  fits ck (state_dict p (map_parameters (copy_ sd) p m)) = true.
Proof.
  rewrite state_dict_map. unfold fits. rewrite !forallb_forall.
  intros Hf kv Hin. apply in_map_iff in Hin.
  destruct Hin as [[k v] [<- Hin]]. specialize (Hf _ Hin).
  unfold size_mismatch in *. cbn [fst snd] in *.
  now rewrite shape_copy_.
Qed.

(** The new value of a parameter of a group: the entry of the checkpoint
    under the name of the group, when there is one of the same shape. *)
Definition under (block_name : string) (ck : Dict.t T) (k : string) (old : T) : T :=
  copy_ ck ((block_name ++ ".") ++ k) old.

(** The entries of [ck] under the name of a group have the shapes of the
    parameters of the group. *)
Definition group_fits (block_name : string) (ck : Dict.t T)
           (g : ResNet.group (T:=T)) : Prop :=
  forall k v, In (k, v) (state_dict "" g) ->
              size_mismatch ck ((block_name ++ ".") ++ k, v) = false.

Lemma group_fits_of_fits (m : ResNet.t (T:=T)) block_name g ck :
  fits ck (state_dict "" m) = true ->
  ResNet.getattr m block_name = Some g ->
  group_fits block_name ck g.
Proof.
  intros Hf Hg k v Hin.
  exact (@fits_entry _ _ _ _ Hf
           (@group_entries_in_network _ _ m block_name g k v Hg Hin)).
Qed.

(** The non-strict load of a group from the merged dictionary, when the
    checkpoint is one of the architecture. *)
Lemma group_load_fits block_name (g : ResNet.group (T:=T)) ck :
  In block_name group_names ->
  NoDup (Dict.keys ck) -> prefixed ck ->
  group_fits block_name ck g ->
  load_state_dict g (ResNet.merged_dict block_name ck) false
  = (map_parameters (under block_name ck) "" g, []).
Proof.
  intros Hb Hn Hp Hf. unfold load_state_dict. f_equal.
  - apply map_parameters_ext. intros k v Hin. unfold under, copy_.
    now rewrite (@get_merged_dict_group _ _ block_name ck g k v Hb Hn Hp Hin).
  - rewrite filter_none; [reflexivity|]. intros [k v] Hin.
    pose proof (Hf k v Hin) as E.
    unfold size_mismatch in *. cbn [fst snd] in *.
    now rewrite (@get_merged_dict_group _ _ block_name ck g k v Hb Hn Hp Hin).
Qed.

(** One round of the loop, when the file is there and fits. *)
Lemma load_block_ok choice root name block_name idx c ck
      (s : ResNet.call_state (T:=T)) g :
  In block_name group_names ->
  Py.index (ResNet.block_names (ResNet.self s)) block_name = Some idx ->
  nth_error choice idx = Some c ->
  fs (Py.format_model_path root name (c + 1)) = Some ck ->
  ResNet.getattr (ResNet.self s) block_name = Some g ->
  NoDup (Dict.keys ck) -> prefixed ck ->
  group_fits block_name ck g ->
  ResNet.load_block fs choice root name block_name s
  = ({| ResNet.self :=
          ResNet.store_group (ResNet.self s) block_name
                             (map_parameters (under block_name ck) "" g);
        ResNet.opened :=
          (ResNet.opened s ++ [Py.format_model_path root name (c + 1)])%list |},
     inr tt).
Proof.
  intros Hb Hi Hc Hfs Hg Hn Hp Hf.
  unfold ResNet.load_block, ResNet.bind, ResNet.get_self.
  rewrite Hi. cbn [ResNet.ret]. unfold ResNet.subscript. rewrite Hc.
  cbn [ResNet.ret]. unfold ResNet.torch_load. rewrite Hfs.
  unfold ResNet.group_load_state_dict, ResNet.bind, ResNet.get_self.
  cbn [ResNet.self]. rewrite Hg.
  rewrite (@group_load_fits block_name g ck Hb Hn Hp Hf). reflexivity.
Qed.

(** The instance after the five group loads: each group has taken, for
    each of its parameters, the entry of its own checkpoint under the
    name of the group. *)
Definition groups_loaded (m : ResNet.t (T:=T)) (ck1 ck2 ck3 ck4 ck5 : Dict.t T)
  : ResNet.t (T:=T) :=
  ResNet.with_children m (ResNet.conv1 m) (ResNet.bn1 m)
    (Sequential.map_named (under "layer1" ck1) "" (ResNet.layer1 m))
    (Sequential.map_named (under "layer2" ck2) "" (ResNet.layer2 m))
    (Sequential.map_named (under "layer3" ck3) "" (ResNet.layer3 m))
    (Sequential.map_named (under "layer4" ck4) "" (ResNet.layer4 m))
    (Linear.map_named (under "fc" ck5) "" (ResNet.fc m)).

(** The loop of the two loaders, when the five files are there and are
    checkpoints of the architecture. *)
Lemma load_groups_ok choice root name (s : ResNet.call_state (T:=T))
      c1 c2 c3 c4 c5 rest ck1 ck2 ck3 ck4 ck5 :
  let m := ResNet.self s in
  let path c := Py.format_model_path root name (c + 1) in
  ResNet.block_names m = group_names ->
  choice = c1 :: c2 :: c3 :: c4 :: c5 :: rest ->
  fs (path c1) = Some ck1 -> fs (path c2) = Some ck2 ->
  fs (path c3) = Some ck3 -> fs (path c4) = Some ck4 ->
  fs (path c5) = Some ck5 ->
  checkpoint_ok m ck1 = true -> checkpoint_ok m ck2 = true ->
  checkpoint_ok m ck3 = true -> checkpoint_ok m ck4 = true ->
  checkpoint_ok m ck5 = true ->
  ResNet.for_each group_names (ResNet.load_block fs choice root name) s
  = ({| ResNet.self := groups_loaded m ck1 ck2 ck3 ck4 ck5;
        ResNet.opened :=
          (ResNet.opened s
           ++ [path c1; path c2; path c3; path c4; path c5])%list |},
     inr tt).
Proof.
  intros m path Hnames -> F1 F2 F3 F4 F5 K1 K2 K3 K4 K5.
  apply checkpoint_ok_inv in K1, K2, K3, K4, K5.
  destruct K1 as (N1 & P1 & Q1), K2 as (N2 & P2 & Q2), K3 as (N3 & P3 & Q3),
           K4 as (N4 & P4 & Q4), K5 as (N5 & P5 & Q5).
  unfold group_names. cbn [ResNet.for_each].
  assert (Hn : forall m' : ResNet.t (T:=T),
             ResNet.block_names m' = ResNet.block_names m ->
                          ResNet.block_names m'
                          = ["layer1"; "layer2"; "layer3"; "layer4"; "fc"])
    by (intros m' ->; exact Hnames).
  unfold ResNet.bind at 1.
  erewrite (@load_block_ok _ _ _ "layer1" 0 c1 ck1 _ _);
    [ | cbn; tauto | rewrite Hn; reflexivity | reflexivity
      | exact F1 | reflexivity | exact N1 | exact P1
      | now apply (group_fits_of_fits m) ].
  unfold ResNet.bind at 1.
  erewrite (@load_block_ok _ _ _ "layer2" 1 c2 ck2 _ _);
    [ | cbn; tauto | rewrite Hn; reflexivity | reflexivity
      | exact F2 | reflexivity | exact N2 | exact P2
      | now apply (group_fits_of_fits m) ].
  unfold ResNet.bind at 1.
  erewrite (@load_block_ok _ _ _ "layer3" 2 c3 ck3 _ _);
    [ | cbn; tauto | rewrite Hn; reflexivity | reflexivity
      | exact F3 | reflexivity | exact N3 | exact P3
      | now apply (group_fits_of_fits m) ].
  unfold ResNet.bind at 1.
  erewrite (@load_block_ok _ _ _ "layer4" 3 c4 ck4 _ _);
    [ | cbn; tauto | rewrite Hn; reflexivity | reflexivity
      | exact F4 | reflexivity | exact N4 | exact P4
      | now apply (group_fits_of_fits m) ].
  unfold ResNet.bind at 1.
  erewrite (@load_block_ok _ _ _ "fc" 4 c5 ck5 _ _);
    [ | cbn; tauto | rewrite Hn; reflexivity | reflexivity
      | exact F5 | reflexivity | exact N5 | exact P5
      | now apply (group_fits_of_fits m) ].
  cbn [ResNet.ret ResNet.self ResNet.opened].
  rewrite <- !app_assoc. reflexivity.
Qed.

End GroupLoad.

(** ** C3: what [load_gumbel_weight] loads *)

Section LoadGumbel.
Context {T : Type} `{TensorEngine T}.
Variable fs : string -> option (Dict.t T).

Lemma checkpoint_ok_after_load (m : ResNet.t (T:=T)) sd ck :
  checkpoint_ok m ck = true ->
  checkpoint_ok (map_parameters (copy_ sd) "" m) ck = true.
Proof.
  unfold checkpoint_ok. rewrite !andb_true_iff. intros [[Hn Hp] Hf].
  repeat split; try assumption. now apply fits_after_load.
Qed.

(** The non-strict load of the whole network from a checkpoint that
    fits. *)
Lemma self_load_ok (s : ResNet.call_state (T:=T)) ck :
  fits ck (state_dict "" (ResNet.self s)) = true ->
  ResNet.self_load_state_dict ck false s
  = ({| ResNet.self := map_parameters (copy_ ck) "" (ResNet.self s);
        ResNet.opened := ResNet.opened s |}, inr tt).
Proof.
  intros Hf. unfold ResNet.self_load_state_dict, ResNet.bind, ResNet.get_self,
    ResNet.put_self, load_state_dict. cbn [fst snd ResNet.self ResNet.opened].
  now rewrite (fits_no_errors _ _ Hf).
Qed.

Lemma five_entries {A : Type} (d : A) (l : list A) :
  List.length l = 5 ->
  l = [nth 0 l d; nth 1 l d; nth 2 l d; nth 3 l d; nth 4 l d].
Proof.
  destruct l as [|a0 [|a1 [|a2 [|a3 [|a4 [|a5 l]]]]]]; try discriminate.
  reflexivity.
Qed.


End LoadGumbel.

(** ** C4: strict and non-strict loads *)

Section Strictness.
Context {T : Type} `{TensorEngine T}.
Variable fs : string -> option (Dict.t T).

Definition is_size_mismatch (e : load_error) : Prop :=
  match e with
  | Size_mismatch _ => True
  | _ => False
  end.

Definition is_key_error (e : load_error) : Prop :=
  match e with
  | Unexpected_keys _ | Missing_keys _ => True
  | Size_mismatch _ => False
  end.

(** The keys of the checkpoint are not exactly the names the module
    expects. *)
Definition keys_differ {M : Type} `{Module T M} (m : M) (ck : Dict.t T) : Prop :=
  exists k,
    (In k (Dict.keys ck) /\ ~ In k (Dict.keys (state_dict "" m)))
    \/ (In k (Dict.keys (state_dict "" m)) /\ ~ In k (Dict.keys ck)).

Lemma mem_false_iff (k : string) (d : Dict.t T) :
  Dict.mem k d = false <-> ~ In k (Dict.keys d).
Proof.
  unfold Dict.mem. rewrite <- DictFacts.get_None_not_In.
  destruct (Dict.get k d); split; congruence.
Qed.

Lemma nonempty_msg_in mk ks k :
  In k ks -> In (mk ks) (nonempty_msg mk ks).
Proof. destruct ks; [intros []|]. intros _. now left. Qed.

(** A strict load reports a key error as soon as the keys differ. *)
Lemma strict_load_key_error {M : Type} `{Module T M} (m : M) (ck : Dict.t T) :
  keys_differ m ck ->
  exists e, In e (snd (load_state_dict m ck true)) /\ is_key_error e.
Proof.
  intros [k [[Hin Hout]|[Hin Hout]]]; unfold load_state_dict; cbn [snd].
  - eexists. split.
    + apply in_or_app. right. apply in_or_app. left.
      apply nonempty_msg_in with (k := k).
      apply filter_In. split; [exact Hin|].
      apply negb_true_iff. now apply mem_false_iff.
    + exact I.
  - eexists. split.
    + apply in_or_app. left. apply nonempty_msg_in with (k := k).
      apply filter_In. split; [exact Hin|].
      apply negb_true_iff. now apply mem_false_iff.
    + exact I.
Qed.

(** A non-strict load reports size mismatches only. *)
Lemma nonstrict_load_errors {M : Type} `{Module T M} (m : M) (sd : Dict.t T) :
  Forall is_size_mismatch (snd (load_state_dict m sd false)).
Proof.
  unfold load_state_dict. cbn [snd]. apply Forall_forall.
  intros e He. apply in_map_iff in He. now destruct He as [kv [<- _]].
Qed.

(** A key the checkpoint does not have leaves the parameter as it was. *)
Lemma nonstrict_load_missing {M : Type} {Mod : Module T M}
      {Laws : ModuleLaws Mod} (m : M) (sd : Dict.t T) (strict : bool) k v :
  In (k, v) (state_dict "" m) -> Dict.get k sd = None ->
  In (k, v) (state_dict "" (fst (load_state_dict m sd strict))).
Proof.
  intros Hin Hg. unfold load_state_dict. cbn [fst].
  rewrite state_dict_map. apply in_map_iff. exists (k, v).
  split; [|exact Hin]. cbn [fst snd]. unfold copy_. now rewrite Hg.
Qed.

(** A key of the checkpoint with the shape of the parameter is copied. *)
Lemma nonstrict_load_matching {M : Type} {Mod : Module T M}
      {Laws : ModuleLaws Mod} (m : M) (sd : Dict.t T)
      (strict : bool) k v v' :
  In (k, v) (state_dict "" m) -> Dict.get k sd = Some v' ->
  shape v' = shape v ->
  In (k, v') (state_dict "" (fst (load_state_dict m sd strict))).
Proof.
  intros Hin Hg Hs. unfold load_state_dict. cbn [fst].
  rewrite state_dict_map. apply in_map_iff. exists (k, v).
  split; [|exact Hin]. cbn [fst snd]. unfold copy_. rewrite Hg, Hs.
  now rewrite shape_eqb_refl.
Qed.

(** The entries of the checkpoint under other keys change nothing. *)
Lemma nonstrict_load_unmatched {M : Type} {Mod : Module T M}
      {Laws : ModuleLaws Mod} (m : M)
      (sd sd' : Dict.t T) :
  (forall k, In k (Dict.keys (state_dict "" m)) ->
             Dict.get k sd = Dict.get k sd') ->
  load_state_dict m sd false = load_state_dict m sd' false.
Proof.
  intros E. unfold load_state_dict. f_equal.
  - apply map_parameters_ext. intros k v Hin. unfold copy_.
    rewrite (E k); [reflexivity|].
    apply in_map_iff. now exists (k, v).
  - f_equal. apply filter_ext_in. intros [k v] Hin.
    unfold size_mismatch. cbn [fst snd]. rewrite (E k); [reflexivity|].
    apply in_map_iff. now exists (k, v).
Qed.

(** A call whose [RuntimeError]s report size mismatches only. *)
Definition only_size_errors {A : Type} (c : ResNet.call (T:=T) A) : Prop :=
  forall s s' msgs,
    c s = (s', inl (ResNet.RuntimeError msgs)) -> Forall is_size_mismatch msgs.

Lemma only_size_ret {A : Type} (a : A) : only_size_errors (ResNet.ret a).
Proof. intros s s' msgs. discriminate. Qed.

Lemma only_size_raise {A : Type} e :
  (forall msgs, e = ResNet.RuntimeError msgs -> Forall is_size_mismatch msgs) ->
  only_size_errors (ResNet.raise (A:=A) e).
Proof. intros He s s' msgs [= _ E]. auto. Qed.

Lemma only_size_bind {A B : Type} (c : ResNet.call A) (k : A -> ResNet.call B) :
  only_size_errors c -> (forall a, only_size_errors (k a)) ->
  only_size_errors (ResNet.bind c k).
Proof.
  intros Hc Hk s s' msgs. unfold ResNet.bind.
  destruct (c s) as [s1 [e|a]] eqn:E.
  - intros [= <- ->]. eapply Hc, E.
  - apply Hk.
Qed.

Lemma only_size_raise_if_errors msgs :
  Forall is_size_mismatch msgs ->
  only_size_errors (ResNet.raise_if_errors msgs).
Proof.
  intros Hm. destruct msgs; [apply only_size_ret|].
  apply only_size_raise. intros msgs' [= <-]. exact Hm.
Qed.

Lemma only_size_torch_load path : only_size_errors (ResNet.torch_load fs path).
Proof.
  intros s s' msgs. unfold ResNet.torch_load. destruct (fs path); discriminate.
Qed.

Lemma only_size_for_each {A : Type} (xs : list A) (body : A -> ResNet.call unit) :
  (forall x, only_size_errors (body x)) ->
  only_size_errors (ResNet.for_each xs body).
Proof.
  intros Hb. induction xs as [|x xs IH]; simpl.
  - apply only_size_ret.
  - apply only_size_bind; [apply Hb | intros _; exact IH].
Qed.

Lemma only_size_self_load sd :
  only_size_errors (ResNet.self_load_state_dict sd false).
Proof.
  unfold ResNet.self_load_state_dict.
  apply only_size_bind; [intros s s' msgs; discriminate|]. intros m.
  apply only_size_bind; [intros s s' msgs; discriminate|]. intros _.
  apply only_size_raise_if_errors, nonstrict_load_errors.
Qed.

Lemma only_size_group_load block_name sd :
  only_size_errors (ResNet.group_load_state_dict block_name sd false).
Proof.
  unfold ResNet.group_load_state_dict.
  apply only_size_bind; [intros s s' msgs; discriminate|]. intros m.
  destruct (ResNet.getattr m block_name);
    [|apply only_size_raise; discriminate].
  apply only_size_bind; [intros s s' msgs; discriminate|]. intros _.
  apply only_size_raise_if_errors, nonstrict_load_errors.
Qed.

Lemma only_size_load_block choice root name block_name :
  only_size_errors (ResNet.load_block fs choice root name block_name).
Proof.
  unfold ResNet.load_block.
  apply only_size_bind; [intros s s' msgs; discriminate|]. intros m.
  apply only_size_bind.
  { destruct (Py.index _ _); [apply only_size_ret|].
    apply only_size_raise; discriminate. }
  intros idx. apply only_size_bind.
  { unfold ResNet.subscript. destruct (nth_error _ _); [apply only_size_ret|].
    apply only_size_raise; discriminate. }
  intros c. apply only_size_bind; [apply only_size_torch_load|]. intros d.
  apply only_size_group_load.
Qed.


End Strictness.

(** ** Concrete runs *)

(** [resnet18(temp=1.0, tau=0.1, num_classes=200)] on the shape engine *)
Definition resnet18_shapes : option (ResNet.t (T:=ShapeEngine.tensor)) :=
  resnet18 (T:=ShapeEngine.tensor) 1%R (1 / 10)%R 200 None 0.

Definition resnet18_instance : ResNet.t (T:=ShapeEngine.tensor) :=
  fst (ResNet.construct Block.Basic 2 2 2 2 (1 / 10)%R 200 1%R None
         {| Ctor.inplanes := 64; Ctor.rng := 0 |}).

Definition resnet18_state : ResNet.call_state (T:=ShapeEngine.tensor) :=
  {| ResNet.self := resnet18_instance; ResNet.opened := [] |}.

(** A store where every path holds the same partial checkpoint. *)
Definition partial_checkpoint : Dict.t ShapeEngine.tensor :=
  [("conv1.weight", [64; 3; 3; 3]);
   ("layer1.0.conv1.weight", [64; 64; 3; 3]);
   ("fc.bias", [200])].

Definition partial_store (path : string) : option (Dict.t ShapeEngine.tensor) :=
  Some partial_checkpoint.

Lemma resnet18_built :
  ResNet.__init__ (T:=ShapeEngine.tensor) Block.Basic [2; 2; 2; 2]
                  (1 / 10)%R 200 1%R None 0
  = Some resnet18_instance.
Proof. vm_compute. reflexivity. Qed.

Lemma arch_weights_shape_witness :
  exists ws, ResNet.arch_weights resnet18_instance false false = PerPoint ws
             /\ List.length ws = 5
             /\ Forall (fun r => List.length r = 100 /\ Rsum r = 1%R) ws.
Proof.
  pose proof (arch_weights_shape (m:=resnet18_instance) _ _ _ _ _ _ _ false
                                 resnet18_built) as P.
  destruct P as (_ & _ & _ & P). exact P.
Defined.

Lemma restore_alphas (fs : string -> option (Dict.t ShapeEngine.tensor))
      (s : ResNet.call_state (T:=ShapeEngine.tensor)) (a : list (list R)) :
  let s' := run fs [Update_alphas a; Call_forward [2; 3; 64; 64];
                    Update_alphas (ResNet.alphas (ResNet.self s))] s in
  ResNet.alphas (ResNet.self s') = ResNet.alphas (ResNet.self s)
  /\ ResNet._tau (ResNet.self s') = ResNet._tau (ResNet.self s).
Proof. split; reflexivity. Qed.

Lemma gumbel_sampled_once_witness :
  let s1 := run partial_store [Call_load_gumbel_weight]
                {| ResNet.self := resnet18_instance; ResNet.opened := [] |} in
  let s2 := run partial_store
                [Update_alphas []; Call_forward [2; 3; 64; 64];
                 Update_alphas (ResNet.alphas (ResNet.self s1))] s1 in
  ResNet.arch_weights (ResNet.self s2) false true
  = ResNet.arch_weights (ResNet.self s1) false true.
Proof.
  intros s1 s2.
  pose proof (gumbel_sampled_once (m0:=resnet18_instance) partial_store
                _ _ _ _ _ _ _
                [Call_load_gumbel_weight]
                [Update_alphas []; Call_forward [2; 3; 64; 64];
                 Update_alphas (ResNet.alphas (ResNet.self s1))]
                false true resnet18_built) as P.
  destruct P as [_ P].
  exact (P (proj1 (restore_alphas partial_store s1 []))
           (proj2 (restore_alphas partial_store s1 []))).
Defined.


Lemma partial_checkpoint_ok :
  checkpoint_ok (ResNet.self resnet18_state) partial_checkpoint = true.
Proof. vm_compute. reflexivity. Qed.

Lemma resnet18_block_names :
  ResNet.block_names (ResNet.self resnet18_state)
  = ["layer1"; "layer2"; "layer3"; "layer4"; "fc"].
Proof. vm_compute. reflexivity. Qed.

Lemma resnet18_selection_rows :
  List.length (ResNet.alphas (ResNet.self resnet18_state)) = 5
  /\ List.length (ResNet.gumbel (ResNet.self resnet18_state)) = 5.
Proof. split; vm_compute; reflexivity. Qed.


Definition plain_block : Block.t (T:=ShapeEngine.tensor) :=
  fst (Block.__init__ Block.Basic 64 64 1 None
         {| Ctor.inplanes := 64; Ctor.rng := 0 |}).

(** The first block of the second stage of [resnet18]. *)
Definition downsampling_block : Block.t (T:=ShapeEngine.tensor) :=
  hd plain_block (ResNet.layer2 resnet18_instance).

Lemma downsampling_block_in : In downsampling_block (all_blocks resnet18_instance).
Proof.
  unfold all_blocks. apply in_or_app. right. apply in_or_app. left.
  vm_compute. left. reflexivity.
Qed.

Example downsampling_block_shapes :
  Block.stride downsampling_block = 2
  /\ Block.in_channels downsampling_block = 64
  /\ Block.out_channels downsampling_block = 128
  /\ Block.downsample downsampling_block <> None
  /\ Block.forward downsampling_block [2; 64; 32; 32] = Some [2; 128; 16; 16].
Proof. vm_compute. repeat split. discriminate. Qed.


Lemma backbone_channels_witness :
  chained 64 (all_blocks resnet18_instance)
  /\ leaves 64 (all_blocks resnet18_instance) = 512 * Block.expansion Block.Basic
  /\ ResNet.inplanes resnet18_instance = 512 * Block.expansion Block.Basic.
Proof.
  pose proof (backbone_channels (m:=resnet18_instance) _ _ _ _ _ _ _
                                resnet18_built) as P.
  destruct P as (l0 & l1 & l2 & l3 & rest & _ & _ & _ & _ & _ & _ & P).
  exact P.
Defined.


Lemma same_network_with_selection {T : Type} `{TensorEngine T}
      (m : ResNet.t (T:=T)) (alphas gumbel : list (list R)) :
  same_network m (with_selection m alphas gumbel).
Proof. constructor; reflexivity. Qed.

Lemma forward_ignores_selection_witness :
  ResNet.forward (with_selection resnet18_instance [[1%R]] []) [2; 3; 64; 64]
  = ResNet.forward resnet18_instance [2; 3; 64; 64].
Proof.
  pose proof (forward_ignores_selection resnet18_instance
                (with_selection resnet18_instance [[1%R]] []) [] []
                [2; 3; 64; 64]) as P.
  destruct P as [_ P].
  exact (P (same_network_with_selection resnet18_instance [[1%R]] [])).
Defined.


Example first_opened_path :
  Py.format_model_path (Py.str_of_opt None) "resnet50_ti" 42
  = "None/resnet50_ti_cross_entropy_42.model"
  /\ Py.format_model_path "weights" "resnet18" 50
     = "weights/resnet18_cross_entropy_50.model".
Proof. split; reflexivity. Qed.

(* ================================================================== *)
(** * Further properties of the loaders *)

(** ** The loop over the block groups *)

Section GroupLoop.
Context {T : Type} `{TensorEngine T}.
Variable fs : string -> option (Dict.t T).

Lemma index_lt (xs : list string) (x : string) : forall idx,
  Py.index xs x = Some idx -> idx < List.length xs.
Proof.
  induction xs as [|y ys IH]; intros idx; simpl; [discriminate|].
  destruct (String.eqb y x).
  - intros [= <-]. lia.
  - destruct (Py.index ys x) as [i|]; [|discriminate].
    intros [= <-]. specialize (IH i eq_refl). lia.
Qed.

Lemma bind_ext_at {A B : Type} (c : ResNet.call (T:=T) A)
      (k k' : A -> ResNet.call B) s :
  (forall a s', c s = (s', inr a) -> k a s' = k' a s') ->
  ResNet.bind c k s = ResNet.bind c k' s.
Proof.
  intros E. unfold ResNet.bind. destruct (c s) as [s' [e|a]]; auto.
Qed.

Lemma for_each_app {A : Type} (xs ys : list A)
      (body : A -> ResNet.call (T:=T) unit) s :
  ResNet.for_each (xs ++ ys) body s
  = ResNet.bind (ResNet.for_each xs body)
                (fun _ => ResNet.for_each ys body) s.
Proof.
  revert s. induction xs as [|x xs IH]; intros s; [reflexivity|].
  cbn [app ResNet.for_each]. unfold ResNet.bind.
  destruct (body x s) as [s1 [e|u]]; [reflexivity|]. apply IH.
Qed.

(** A round of the loop keeps the list it runs over. *)
Lemma load_block_names choice root name block_name (s : ResNet.call_state (T:=T)) :
  ResNet.block_names
    (ResNet.self (fst (ResNet.load_block fs choice root name block_name s)))
  = ResNet.block_names (ResNet.self s).
Proof. apply same_block_names, frame_load_block. Qed.

Lemma rounds_names choice root name xs (s : ResNet.call_state (T:=T)) :
  ResNet.block_names
    (ResNet.self (fst (ResNet.for_each xs
                         (ResNet.load_block fs choice root name) s)))
  = ResNet.block_names (ResNet.self s).
Proof.
  apply same_block_names.
  apply frame_for_each. intros x. apply frame_load_block.
Qed.

(** A round, step by step. *)
Lemma load_block_steps choice root name block_name (s : ResNet.call_state (T:=T)) :
  ResNet.load_block fs choice root name block_name s
  = match Py.index (ResNet.block_names (ResNet.self s)) block_name with
    | None => (s, inl ResNet.ValueError)
    | Some idx =>
        match nth_error choice idx with
        | None => (s, inl ResNet.IndexError)
        | Some c =>
            ResNet.bind
              (ResNet.torch_load fs (Py.format_model_path root name (c + 1)))
              (fun model_dict =>
                 ResNet.group_load_state_dict
                   block_name (ResNet.merged_dict block_name model_dict) false)
              s
        end
    end.
Proof.
  unfold ResNet.load_block, ResNet.bind at 1, ResNet.get_self.
  unfold ResNet.bind at 1.
  destruct (Py.index (ResNet.block_names (ResNet.self s)) block_name)
    as [idx|]; cbn [ResNet.ret ResNet.raise]; [|reflexivity].
  unfold ResNet.bind at 1, ResNet.subscript.
  now destruct (nth_error choice idx).
Qed.

(** A round that returns has found the position of the group and an entry
    of [choice] at that position. *)
Lemma load_block_returns choice root name block_name
      (s s' : ResNet.call_state (T:=T)) u :
  ResNet.load_block fs choice root name block_name s = (s', inr u) ->
  exists idx,
    Py.index (ResNet.block_names (ResNet.self s)) block_name = Some idx
    /\ idx < List.length choice.
Proof.
  unfold ResNet.load_block, ResNet.bind at 1, ResNet.get_self.
  unfold ResNet.bind at 1.
  destruct (Py.index (ResNet.block_names (ResNet.self s)) block_name)
    as [idx|]; cbn [ResNet.ret ResNet.raise]; [|discriminate].
  unfold ResNet.bind at 1, ResNet.subscript.
  destruct (nth_error choice idx) as [c|] eqn:E;
    cbn [ResNet.ret ResNet.raise]; [|discriminate].
  intros _. exists idx. split; [reflexivity|].
  apply nth_error_Some. congruence.
Qed.

Lemma rounds_return choice root name xs : forall (s s' : ResNet.call_state (T:=T)) u,
  ResNet.for_each xs (ResNet.load_block fs choice root name) s = (s', inr u) ->
  Forall (fun b => exists idx,
              Py.index (ResNet.block_names (ResNet.self s)) b = Some idx
              /\ idx < List.length choice) xs.
Proof.
  induction xs as [|x xs IH]; intros s s' u; [constructor|].
  cbn [ResNet.for_each]. unfold ResNet.bind.
  destruct (ResNet.load_block fs choice root name x s) as [s1 [e|u1]] eqn:E;
    [discriminate|].
  intros E'. constructor.
  - eapply load_block_returns, E.
  - pose proof (load_block_names choice root name x s) as Hn.
    rewrite E in Hn. cbn [fst] in Hn. rewrite <- Hn. eapply IH, E'.
Qed.

(** A round reads [choice] at the position of the group only, which is
    below the number of groups. *)
Lemma load_block_choice choice choice' root name block_name
      (s : ResNet.call_state (T:=T)) :
  let n := List.length (ResNet.block_names (ResNet.self s)) in
  firstn n choice = firstn n choice' ->
  ResNet.load_block fs choice root name block_name s
  = ResNet.load_block fs choice' root name block_name s.
Proof.
  intros n E. unfold ResNet.load_block, ResNet.bind at 1 5, ResNet.get_self.
  unfold ResNet.bind at 1 4.
  destruct (Py.index (ResNet.block_names (ResNet.self s)) block_name)
    as [idx|] eqn:Ei; cbn [ResNet.ret ResNet.raise]; [|reflexivity].
  apply index_lt in Ei. fold n in Ei.
  unfold ResNet.bind at 1 3, ResNet.subscript.
  assert (En : nth_error choice idx = nth_error choice' idx).
  { pose proof (nth_error_firstn n choice idx) as E1.
    pose proof (nth_error_firstn n choice' idx) as E2.
    apply Nat.ltb_lt in Ei. rewrite Ei in E1, E2. congruence. }
  now rewrite En.
Qed.

Lemma rounds_choice choice choice' root name xs : forall (s : ResNet.call_state (T:=T)),
  let n := List.length (ResNet.block_names (ResNet.self s)) in
  firstn n choice = firstn n choice' ->
  ResNet.for_each xs (ResNet.load_block fs choice root name) s
  = ResNet.for_each xs (ResNet.load_block fs choice' root name) s.
Proof.
  induction xs as [|x xs IH]; intros s n E; [reflexivity|].
  cbn [ResNet.for_each]. unfold ResNet.bind.
  rewrite (@load_block_choice choice choice' root name x s E).
  destruct (ResNet.load_block fs choice' root name x s) as [s1 [e|u]] eqn:E1;
    [reflexivity|].
  apply IH.
  pose proof (load_block_names choice' root name x s) as Hn.
  rewrite E1 in Hn. cbn [fst] in Hn. rewrite Hn. exact E.
Qed.

End GroupLoop.

(** ** Absent files and the entries of [combination] *)

Section LoaderFiles.
Context {T : Type} `{TensorEngine T}.
Variable fs : string -> option (Dict.t T).

(** The state in which the loop of [load_combination_weight] starts, when
    the baseline file is there. *)
Definition after_baseline (s : ResNet.call_state (T:=T)) (path : string)
           (ck0 : Dict.t T) (strict : bool) : ResNet.call_state (T:=T) :=
  {| ResNet.self := fst (load_state_dict (ResNet.self s) ck0 strict);
     ResNet.opened := (ResNet.opened s ++ [path])%list |}.

Lemma after_baseline_names s path ck0 strict :
  ResNet.block_names (ResNet.self (after_baseline s path ck0 strict))
  = ResNet.block_names (ResNet.self s).
Proof. reflexivity. Qed.

(** The loader up to its loop. *)
Lemma load_combination_weight_loop combination weight_folder model_name
      (s : ResNet.call_state (T:=T)) ck0 :
  let p50 := Py.format_model_path weight_folder model_name 50 in
  fs p50 = Some ck0 ->
  snd (load_state_dict (ResNet.self s) ck0 true) = [] ->
  ResNet.load_combination_weight fs combination weight_folder model_name s
  = ResNet.for_each (ResNet.block_names (ResNet.self s))
      (ResNet.load_block fs combination weight_folder model_name)
      (after_baseline s p50 ck0 true).
Proof.
  intros p50 Hfs Hok.
  unfold ResNet.load_combination_weight, ResNet.bind at 1, ResNet.torch_load.
  fold p50. rewrite Hfs. unfold ResNet.bind at 1.
  unfold ResNet.self_load_state_dict, ResNet.bind at 1 2, ResNet.get_self,
    ResNet.put_self. cbn [ResNet.self ResNet.opened].
  rewrite Hok. cbn [ResNet.raise_if_errors ResNet.ret].
  unfold ResNet.bind. reflexivity.
Qed.

(** X9.  When the baseline file is absent, each loader ends in a
    [FileNotFoundError] for the baseline path, having opened nothing else
    and with the instance as it was. *)
Theorem missing_baseline_file
        (s : ResNet.call_state (T:=T)) (combination : list Z)
        (weight_folder model_name : string) :
  let m := ResNet.self s in
  let p42 := Py.format_model_path (Py.str_of_opt (ResNet.weight_root m))
                                  (ResNet.model_name m) 42 in
  let p50 := Py.format_model_path weight_folder model_name 50 in
  (fs p42 = None ->
   ResNet.load_gumbel_weight fs s
   = ({| ResNet.self := m; ResNet.opened := (ResNet.opened s ++ [p42])%list |},
      inl (ResNet.FileNotFoundError p42)))
  /\ (fs p50 = None ->
      ResNet.load_combination_weight fs combination weight_folder model_name s
      = ({| ResNet.self := m; ResNet.opened := (ResNet.opened s ++ [p50])%list |},
         inl (ResNet.FileNotFoundError p50))).
Proof.
  intros m p42 p50. split; intros Hfs.
  - unfold ResNet.load_gumbel_weight, ResNet.bind, ResNet.get_self,
      ResNet.torch_load. fold m. fold p42. now rewrite Hfs.
  - unfold ResNet.load_combination_weight, ResNet.bind, ResNet.torch_load.
    fold p50. now rewrite Hfs.
Qed.

(** X10.  [load_combination_weight] is not atomic.  When the baseline has been
    loaded, the groups [pre] have been loaded and left the state [s1], and
    the file of the next group [b] is absent, the call ends in a
    [FileNotFoundError] for that file: the instance keeps what the
    baseline and the groups [pre] gave it, and no file of a later group
    is opened. *)
Theorem missing_group_file
        (s s1 : ResNet.call_state (T:=T)) (combination : list Z)
        (weight_folder model_name : string) (ck0 : Dict.t T)
        (pre post : list string) (b : string) (idx : nat) (c : Z) :
  let m := ResNet.self s in
  let p50 := Py.format_model_path weight_folder model_name 50 in
  let path := Py.format_model_path weight_folder model_name (c + 1) in
  fs p50 = Some ck0 ->
  snd (load_state_dict m ck0 true) = [] ->
  ResNet.block_names m = (pre ++ b :: post)%list ->
  ResNet.for_each pre
    (ResNet.load_block fs combination weight_folder model_name)
    (after_baseline s p50 ck0 true) = (s1, inr tt) ->
  Py.index (ResNet.block_names m) b = Some idx ->
  nth_error combination idx = Some c ->
  fs path = None ->
  ResNet.load_combination_weight fs combination weight_folder model_name s
  = ({| ResNet.self := ResNet.self s1;
        ResNet.opened := (ResNet.opened s1 ++ [path])%list |},
     inl (ResNet.FileNotFoundError path)).
Proof.
  intros m p50 path Hfs Hok Hnames Hpre Hidx Hc Hnone.
  rewrite (@load_combination_weight_loop combination weight_folder model_name
             s ck0 Hfs Hok).
  fold m. fold p50. rewrite Hnames, for_each_app.
  unfold ResNet.bind at 1. rewrite Hpre.
  cbn [ResNet.for_each]. unfold ResNet.bind at 1.
  pose proof (rounds_names fs combination weight_folder model_name pre
                (after_baseline s p50 ck0 true)) as Hn.
  rewrite Hpre, after_baseline_names in Hn. cbn [fst] in Hn.
  unfold ResNet.load_block, ResNet.bind at 1, ResNet.get_self.
  unfold ResNet.bind at 1. rewrite Hn. fold m. rewrite Hidx.
  cbn [ResNet.ret]. unfold ResNet.bind at 1, ResNet.subscript. rewrite Hc.
  cbn [ResNet.ret]. unfold ResNet.bind at 1, ResNet.torch_load.
  fold path. now rewrite Hnone.
Qed.

(** X11.  On an instance with the five group names, a [combination] of
    fewer than five entries never lets [load_combination_weight] return:
    the call ends in an exception.  With the empty [combination] and a
    baseline that passes the strict load, the exception is the
    [IndexError] of the first round, raised once the baseline is loaded
    and before any other file is opened. *)
Theorem short_combination
        (s : ResNet.call_state (T:=T)) (combination : list Z)
        (weight_folder model_name : string) :
  let p50 := Py.format_model_path weight_folder model_name 50 in
  ResNet.block_names (ResNet.self s)
  = ["layer1"; "layer2"; "layer3"; "layer4"; "fc"] ->
  List.length combination < 5 ->
  (exists s' e,
      ResNet.load_combination_weight fs combination weight_folder model_name s
      = (s', inl e))
  /\ (forall ck0,
         combination = [] ->
         fs p50 = Some ck0 ->
         snd (load_state_dict (ResNet.self s) ck0 true) = [] ->
         ResNet.load_combination_weight fs combination weight_folder
                                        model_name s
         = (after_baseline s p50 ck0 true, inl ResNet.IndexError)).
Proof.
  intros p50 Hnames Hlen. split.
  - destruct (ResNet.load_combination_weight fs combination weight_folder
                model_name s) as [s' [e|u]] eqn:E; [now exists s', e|].
    exfalso. revert E.
    unfold ResNet.load_combination_weight, ResNet.bind at 1.
    pose proof (frame_torch_load fs
                  (Py.format_model_path weight_folder model_name 50) s) as F0.
    destruct (ResNet.torch_load fs _ s) as [s0 [e|d]]; [discriminate|].
    unfold ResNet.bind at 1.
    pose proof (frame_self_load_state_dict d true s0) as F1.
    destruct (ResNet.self_load_state_dict d true s0) as [s2 [e|u2]];
      [discriminate|].
    unfold ResNet.bind at 1, ResNet.get_self. cbn [fst] in F0, F1.
    rewrite (same_block_names F1), (same_block_names F0), Hnames.
    intros E. apply rounds_return in E.
    rewrite (same_block_names F1), (same_block_names F0), Hnames in E.
    do 4 (apply Forall_cons_iff in E; destruct E as [_ E]).
    apply Forall_cons_iff in E. destruct E as [(idx & Hi & Hlt) _].
    cbn in Hi. injection Hi as <-. lia.
  - intros ck0 -> Hfs Hok.
    rewrite (@load_combination_weight_loop [] weight_folder model_name
               s ck0 Hfs Hok).
    rewrite Hnames. cbn [ResNet.for_each]. unfold ResNet.bind.
    rewrite load_block_steps, after_baseline_names, Hnames. reflexivity.
Qed.

(** X12.  [load_combination_weight] reads [combination] at the positions of the
    groups only: two sequences with the same first entries, as many as
    there are groups, give the same run. *)
Theorem combination_prefix
        (s : ResNet.call_state (T:=T)) (combination combination' : list Z)
        (weight_folder model_name : string) :
  let n := List.length (ResNet.block_names (ResNet.self s)) in
  firstn n combination = firstn n combination' ->
  ResNet.load_combination_weight fs combination weight_folder model_name s
  = ResNet.load_combination_weight fs combination' weight_folder model_name s.
Proof.
  intros n E.
  unfold ResNet.load_combination_weight, ResNet.bind at 1 4.
  pose proof (frame_torch_load fs
                (Py.format_model_path weight_folder model_name 50) s) as F0.
  destruct (ResNet.torch_load fs _ s) as [s0 [e|d]]; [reflexivity|].
  unfold ResNet.bind at 1 3.
  pose proof (frame_self_load_state_dict d true s0) as F1.
  destruct (ResNet.self_load_state_dict d true s0) as [s2 [e|u2]];
    [reflexivity|].
  unfold ResNet.bind, ResNet.get_self. cbn [fst] in F0, F1.
  apply rounds_choice.
  rewrite (same_block_names F1), (same_block_names F0). exact E.
Qed.

End LoaderFiles.

(** ** The files a loader opens *)

Section Paths.

Lemma length_append (a b : string) :
  String.length (a ++ b) = String.length a + String.length b.
Proof. induction a as [|x a IH]; simpl; [reflexivity | now rewrite IH]. Qed.

Lemma append_inj_r (a b s : string) : a ++ s = b ++ s -> a = b.
Proof.
  revert b. induction a as [|x a IH]; intros [|y b] E; simpl in E.
  - reflexivity.
  - apply (f_equal String.length) in E. simpl in E.
    rewrite length_append in E. lia.
  - apply (f_equal String.length) in E. simpl in E.
    rewrite length_append in E. lia.
  - injection E as -> E. f_equal. now apply IH.
Qed.

Lemma to_int_parsed (z : Z) :
  NilZero.int_of_string (NilZero.string_of_int (Z.to_int z)) = Some (Z.to_int z).
Proof.
  apply NilZero.isi; destruct z; simpl; try discriminate;
    intros [= E]; exact (DecimalPos.Unsigned.to_uint_nonnil p E).
Qed.

Lemma str_of_int_inj (a b : Z) : Py.str_of_int a = Py.str_of_int b -> a = b.
Proof.
  unfold Py.str_of_int. intros E. apply DecimalZ.to_int_inj.
  pose proof (to_int_parsed a) as Ea. pose proof (to_int_parsed b) as Eb.
  rewrite E in Ea. congruence.
Qed.

(** X13.  In one folder and for one model name, two candidate ids name the
    same checkpoint file only when they are the same id. *)
Theorem format_model_path_inj (root name : string) (a b : Z) :
  Py.format_model_path root name a = Py.format_model_path root name b
  <-> a = b.
Proof.
  split; [|now intros ->]. unfold Py.format_model_path. intros E.
  do 4 apply append_inj_l in E. apply append_inj_r in E.
  now apply str_of_int_inj.
Qed.

End Paths.

Section OpenedFiles.
Context {T : Type} `{TensorEngine T}.
Variable fs : string -> option (Dict.t T).

(** The call opens files that satisfy [P] only, at most [n] of them, and
    exactly [n] when it returns. *)
Definition opens_within (P : string -> Prop) (n : nat) {A : Type}
           (c : ResNet.call (T:=T) A) : Prop :=
  forall s, exists l,
    ResNet.opened (fst (c s)) = (ResNet.opened s ++ l)%list
    /\ Forall P l /\ List.length l <= n
    /\ (forall a, snd (c s) = inr a -> List.length l = n).

Lemma opens_ret P {A : Type} (a : A) : opens_within P 0 (ResNet.ret a).
Proof.
  intros s. exists []. cbn. rewrite app_nil_r. repeat split; auto.
Qed.

Lemma opens_raise P n {A : Type} (e : ResNet.exn) :
  opens_within P n (ResNet.raise (A:=A) e).
Proof.
  intros s. exists []. cbn. rewrite app_nil_r.
  repeat split; auto; [lia | discriminate].
Qed.

Lemma opens_bind P n n' {A B : Type} (c : ResNet.call A) (k : A -> ResNet.call B) :
  opens_within P n c -> (forall a, opens_within P n' (k a)) ->
  opens_within P (n + n') (ResNet.bind c k).
Proof.
  intros Hc Hk s. unfold ResNet.bind.
  destruct (Hc s) as (l & E & HP & Hle & Hn).
  destruct (c s) as [s1 [e|a]]; cbn [fst snd] in *.
  - exists l. repeat split; auto; [lia | discriminate].
  - destruct (Hk a s1) as (l' & E' & HP' & Hle' & Hn').
    exists (l ++ l')%list. rewrite E', E, app_assoc, length_app.
    repeat split; auto.
    + apply Forall_app. auto.
    + specialize (Hn a eq_refl). lia.
    + intros b Hb. rewrite (Hn a eq_refl), (Hn' b Hb). reflexivity.
Qed.

Lemma opens_torch_load (P : string -> Prop) path :
  P path -> opens_within P 1 (ResNet.torch_load fs path).
Proof.
  intros HP s. exists [path]. unfold ResNet.torch_load.
  destruct (fs path); cbn; repeat split; auto.
Qed.

Lemma opens_raise_if_errors P msgs :
  opens_within P 0 (ResNet.raise_if_errors msgs).
Proof. destruct msgs; [apply opens_ret | apply opens_raise]. Qed.

Lemma opens_self_load_state_dict P d strict :
  opens_within P 0 (ResNet.self_load_state_dict d strict).
Proof.
  intros s. exists []. rewrite app_nil_r.
  unfold ResNet.self_load_state_dict, ResNet.bind, ResNet.get_self,
    ResNet.put_self.
  destruct (snd (load_state_dict (ResNet.self s) d strict));
    cbn; repeat split; auto.
Qed.

Lemma opens_group_load_state_dict P block_name d strict :
  opens_within P 0 (ResNet.group_load_state_dict block_name d strict).
Proof.
  intros s. exists []. rewrite app_nil_r.
  unfold ResNet.group_load_state_dict, ResNet.bind, ResNet.get_self,
    ResNet.put_self.
  destruct (ResNet.getattr (ResNet.self s) block_name) as [g|];
    [|cbn; repeat split; auto].
  destruct (snd (load_state_dict g d strict)); cbn; repeat split; auto.
Qed.

(** The file of a candidate of [choice]. *)
Definition candidate_file (choice : list Z) (root name : string)
           (path : string) : Prop :=
  exists c, In c choice /\ path = Py.format_model_path root name (c + 1).

Lemma opens_load_block (P : string -> Prop) choice root name block_name :
  (forall path, candidate_file choice root name path -> P path) ->
  opens_within P 1 (ResNet.load_block fs choice root name block_name).
Proof.
  intros HP s. rewrite load_block_steps.
  destruct (Py.index (ResNet.block_names (ResNet.self s)) block_name)
    as [idx|]; [|exact (@opens_raise P 1 unit ResNet.ValueError s)].
  destruct (nth_error choice idx) as [c|] eqn:E;
    [|exact (@opens_raise P 1 unit ResNet.IndexError s)].
  apply (@opens_bind P 1 0).
  - apply opens_torch_load, HP. exists c. split; [|reflexivity].
    eapply nth_error_In, E.
  - intros d. apply opens_group_load_state_dict.
Qed.

Lemma opens_rounds (P : string -> Prop) choice root name xs :
  (forall path, candidate_file choice root name path -> P path) ->
  opens_within P (List.length xs)
    (ResNet.for_each xs (ResNet.load_block fs choice root name)).
Proof.
  intros HP. induction xs as [|x xs IH]; cbn [ResNet.for_each List.length].
  - apply opens_ret.
  - apply (@opens_bind P 1 (List.length xs));
      [now apply opens_load_block | intros _; exact IH].
Qed.

(** X8.  Whatever the checkpoints hold and however the call ends, a loader
    opens the baseline file and files of the candidates it was given
    only ([combination], or the arg-max indices), one per group at most;
    when it returns it has opened exactly one file more than there are
    groups. *)
Theorem loaders_open_only (s : ResNet.call_state (T:=T))
        (combination : list Z) (weight_folder model_name : string) :
  let m := ResNet.self s in
  let root := Py.str_of_opt (ResNet.weight_root m) in
  let index :=
    torch_argmax (gumbel_softmax (ResNet.alphas m) (ResNet._tau m)
                                 (ResNet.gumbel m)) in
  let n := S (List.length (ResNet.block_names m)) in
  (exists l,
      ResNet.opened (fst (ResNet.load_gumbel_weight fs s))
      = (ResNet.opened s ++ l)%list
      /\ Forall (fun path =>
                   path = Py.format_model_path root (ResNet.model_name m) 42
                   \/ candidate_file (map Z.of_nat index) root
                                     (ResNet.model_name m) path) l
      /\ List.length l <= n
      /\ (forall r, snd (ResNet.load_gumbel_weight fs s) = inr r ->
                    List.length l = n))
  /\ (exists l,
         ResNet.opened (fst (ResNet.load_combination_weight
                               fs combination weight_folder model_name s))
         = (ResNet.opened s ++ l)%list
         /\ Forall (fun path =>
                      path = Py.format_model_path weight_folder model_name 50
                      \/ candidate_file combination weight_folder model_name
                                        path) l
         /\ List.length l <= n
         /\ (forall r, snd (ResNet.load_combination_weight
                              fs combination weight_folder model_name s)
                       = inr r ->
                       List.length l = n)).
Proof.
  intros m root index n. split.
  - assert (G : opens_within
                  (fun path =>
                     path = Py.format_model_path root (ResNet.model_name m) 42
                     \/ candidate_file (map Z.of_nat index) root
                                       (ResNet.model_name m) path)
                  n
                  (ResNet.bind
                     (ResNet.torch_load fs
                        (Py.format_model_path root (ResNet.model_name m) 42))
                     (fun model_dict =>
                        ResNet.bind (ResNet.self_load_state_dict model_dict false)
                          (fun _ =>
                             ResNet.bind
                               (ResNet.for_each (ResNet.block_names m)
                                  (ResNet.load_block fs (map Z.of_nat index) root
                                                     (ResNet.model_name m)))
                               (fun _ => ResNet.ret index))))).
    { apply (@opens_bind _ 1 (List.length (ResNet.block_names m)));
        [apply opens_torch_load; now left|]. intros d.
      apply (@opens_bind _ 0 (List.length (ResNet.block_names m)));
        [apply opens_self_load_state_dict|]. intros _.
      replace (List.length (ResNet.block_names m))
        with (List.length (ResNet.block_names m) + 0) by lia.
      apply opens_bind; [|intros _; apply opens_ret].
      apply opens_rounds. now right. }
    exact (G s).
  - assert (G : forall names,
               opens_within
                 (fun path =>
                    path = Py.format_model_path weight_folder model_name 50
                    \/ candidate_file combination weight_folder model_name path)
                 (S (List.length names))
                 (ResNet.bind
                    (ResNet.torch_load fs
                       (Py.format_model_path weight_folder model_name 50))
                    (fun model_dict =>
                       ResNet.bind (ResNet.self_load_state_dict model_dict true)
                         (fun _ =>
                            ResNet.for_each names
                              (ResNet.load_block fs combination weight_folder
                                                 model_name))))).
    { intros names. apply (@opens_bind _ 1 (List.length names));
        [apply opens_torch_load; now left|]. intros d.
      apply (@opens_bind _ 0 (List.length names));
        [apply opens_self_load_state_dict|]. intros _.
      apply opens_rounds. now right. }
    specialize (G (ResNet.block_names m) s).
    assert (E : ResNet.load_combination_weight fs combination weight_folder
                  model_name s
                = ResNet.bind
                    (ResNet.torch_load fs
                       (Py.format_model_path weight_folder model_name 50))
                    (fun model_dict =>
                       ResNet.bind (ResNet.self_load_state_dict model_dict true)
                         (fun _ =>
                            ResNet.for_each (ResNet.block_names m)
                              (ResNet.load_block fs combination weight_folder
                                                 model_name))) s);
      [|rewrite E; exact G].
    unfold ResNet.load_combination_weight.
    apply bind_ext_at. intros d s0 E0. apply bind_ext_at. intros u s2 E2.
    unfold ResNet.bind, ResNet.get_self.
    pose proof (frame_torch_load fs
                  (Py.format_model_path weight_folder model_name 50) s) as F0.
    pose proof (frame_self_load_state_dict d true s0) as F1.
    rewrite E0 in F0. rewrite E2 in F1. cbn [fst] in F0, F1.
    now rewrite (same_block_names F1), (same_block_names F0).
Qed.

End OpenedFiles.

(* ================================================================== *)
(** * The state dict as a checkpoint *)

(** ** No parameter name twice *)

Section DistinctKeys.
Context {T : Type} `{TensorEngine T}.

Lemma append_nil_r (p : string) : p ++ "" = p.
Proof. induction p as [|a p IH]; simpl; [reflexivity | now rewrite IH]. Qed.

(** Two prefixes of which none starts the other start no common key. *)
Lemma apart_prefixes (p q s s' : string) :
  String.prefix p q = false -> String.prefix q p = false ->
  p ++ s <> q ++ s'.
Proof.
  revert q. induction p as [|a p IH]; intros [|b q]; simpl;
    try discriminate.
  destruct (ascii_dec a b) as [->|Hab].
  - destruct (ascii_dec b b) as [_|N]; [|now destruct N].
    intros Hp Hq [= E]. exact (IH q Hp Hq E).
  - intros _ _ [= E _]. contradiction.
Qed.

Lemma keys_app (d e : Dict.t T) :
  Dict.keys (d ++ e)%list = (Dict.keys d ++ Dict.keys e)%list.
Proof. apply map_app. Qed.

Lemma keys_shift p (d : Dict.t T) :
  Dict.keys (shift p d) = map (String.append p) (Dict.keys d).
Proof. unfold Dict.keys, shift. rewrite !map_map. reflexivity. Qed.

Lemma NoDup_shift p (d : Dict.t T) :
  NoDup (Dict.keys d) -> NoDup (Dict.keys (shift p d)).
Proof.
  rewrite keys_shift. induction 1 as [|k l Hk Hl IH]; cbn [map]; constructor.
  - rewrite in_map_iff. intros (k' & E & Hin).
    apply append_inj_l in E. now subst k'.
  - exact IH.
Qed.

Lemma in_keys (d : Dict.t T) k :
  In k (Dict.keys d) <-> exists v, In (k, v) d.
Proof.
  unfold Dict.keys. rewrite in_map_iff. split.
  - intros ([k' v] & E & Hin). cbn in E. subst k'. now exists v.
  - intros [v Hin]. now exists (k, v).
Qed.

(** No key of [d] extends [p]. *)
Definition avoids (p : string) (d : Dict.t T) : Prop :=
  forall k s, In k (Dict.keys d) -> k <> p ++ s.

Lemma avoids_nil p : avoids p [].
Proof. intros k s []. Qed.

Lemma avoids_app p d e : avoids p d -> avoids p e -> avoids p (d ++ e)%list.
Proof.
  intros Hd He k s. rewrite keys_app, in_app_iff. intros [Hin|Hin]; auto.
Qed.

Lemma avoids_under p q d :
  keys_under q d ->
  String.prefix p q = false -> String.prefix q p = false ->
  avoids p d.
Proof.
  intros Hd Hp Hq k s Hin E. apply in_keys in Hin. destruct Hin as [v Hin].
  destruct (Hd k v Hin) as [s' ->].
  exact (@apart_prefixes p q s s' Hp Hq (eq_sym E)).
Qed.

Lemma NoDup_keys_app p (d e : Dict.t T) :
  keys_under p d -> avoids p e ->
  NoDup (Dict.keys d) -> NoDup (Dict.keys e) ->
  NoDup (Dict.keys (d ++ e)%list).
Proof.
  intros Hd He Nd Ne. rewrite keys_app. apply NoDup_app; try assumption.
  intros k Hk Hk'. apply in_keys in Hk. destruct Hk as [v Hk].
  destruct (Hd k v Hk) as [s ->]. exact (He _ s Hk' eq_refl).
Qed.

Lemma conv2d_keys_nodup p (c : Conv2d.t (T:=T)) :
  NoDup (Dict.keys (Conv2d.named p c)).
Proof. cbn. constructor; [intros []|constructor]. Qed.

Lemma batchnorm2d_keys_nodup p (b : BatchNorm2d.t (T:=T)) :
  NoDup (Dict.keys (BatchNorm2d.named p b)).
Proof.
  rewrite <- (append_nil_r p), batchnorm2d_named_shift. apply NoDup_shift.
  apply nodupb_NoDup. reflexivity.
Qed.

Lemma linear_keys_nodup p (l : Linear.t (T:=T)) :
  NoDup (Dict.keys (Linear.named p l)).
Proof.
  rewrite <- (append_nil_r p), linear_named_shift. apply NoDup_shift. apply nodupb_NoDup. reflexivity.
Qed.

Lemma block_keys_nodup p (b : Block.t (T:=T)) :
  NoDup (Dict.keys (Block.named p b)).
Proof.
  rewrite <- (append_nil_r p), block_named_shift. apply NoDup_shift. apply nodupb_NoDup.
  destruct b as [[c1 b1 c2 b2 [d|] st]|[c1 b1 c2 b2 c3 b3 [d|] st]];
    reflexivity.
Qed.

(** *** The positions of the blocks of a stage *)

Fixpoint no_dot (s : string) : Prop :=
  match s with
  | EmptyString => True
  | String a s' => a <> "."%char /\ no_dot s'
  end.

Lemma string_of_uint_no_dot (d : Decimal.uint) :
  no_dot (NilEmpty.string_of_uint d).
Proof. induction d; cbn; (split; [discriminate | assumption]) || exact I. Qed.

Lemma no_dot_split (a b s s' : string) :
  no_dot a -> no_dot b -> a ++ "." ++ s = b ++ "." ++ s' -> a = b.
Proof.
  revert b. induction a as [|x a IH]; intros [|y b]; cbn.
  - reflexivity.
  - intros _ [Hy _] [= E _]. now destruct Hy.
  - intros [Hx _] _ [= E _]. now destruct Hx.
  - intros [_ Ha] [_ Hb] [= -> E]. f_equal. now apply IH.
Qed.

Lemma str_of_nat_inj (i j : nat) : Py.str_of_nat i = Py.str_of_nat j -> i = j.
Proof.
  unfold Py.str_of_nat. intros E.
  apply (f_equal NilEmpty.uint_of_string) in E.
  rewrite !NilEmpty.usu in E. injection E as E.
  apply (f_equal Nat.of_uint) in E.
  now rewrite !DecimalNat.Unsigned.of_to in E.
Qed.

Lemma position_inj (i j : nat) (s s' : string) :
  Py.str_of_nat i ++ "." ++ s = Py.str_of_nat j ++ "." ++ s' -> i = j.
Proof.
  intros E. apply str_of_nat_inj.
  eapply no_dot_split; [apply string_of_uint_no_dot .. | exact E].
Qed.

(** The keys of the blocks from position [i] on start with a position
    that is not below [i]. *)
Lemma sequential_keys_from (l : Sequential.t (T:=T)) : forall i k,
  In k (Dict.keys (Sequential.named_from i "" l)) ->
  exists j s, i <= j /\ k = Py.str_of_nat j ++ "." ++ s.
Proof.
  induction l as [|b l IH]; intros i k; cbn [Sequential.named_from];
    [intros []|].
  rewrite keys_app, in_app_iff. intros [Hin|Hin].
  - apply in_keys in Hin. destruct Hin as [v Hin].
    apply block_keys_under in Hin. destruct Hin as [s ->].
    exists i, s. split; [lia|]. cbn. now rewrite append_assoc.
  - destruct (IH (S i) k Hin) as (j & s & Hj & ->).
    exists j, s. split; [lia | reflexivity].
Qed.

Lemma sequential_keys_nodup_from (l : Sequential.t (T:=T)) : forall i,
  NoDup (Dict.keys (Sequential.named_from i "" l)).
Proof.
  induction l as [|b l IH]; intros i; cbn [Sequential.named_from];
    [constructor|].
  rewrite keys_app. apply NoDup_app; [apply block_keys_nodup | apply IH |].
  intros k Hk Hk'. apply in_keys in Hk. destruct Hk as [v Hk].
  apply block_keys_under in Hk. destruct Hk as [s E].
  destruct (sequential_keys_from _ _ _ Hk') as (j & s' & Hj & E').
  cbn in E. rewrite append_assoc in E. rewrite E in E'.
  apply position_inj in E'. lia.
Qed.

Lemma sequential_keys_nodup p (l : Sequential.t (T:=T)) :
  NoDup (Dict.keys (Sequential.named p l)).
Proof.
  rewrite <- (append_nil_r p), sequential_named_shift. apply NoDup_shift.
  apply sequential_keys_nodup_from.
Qed.

Lemma resnet_keys_nodup (m : ResNet.t (T:=T)) :
  NoDup (Dict.keys (ResNet.named "" m)).
Proof.
  unfold ResNet.named.
  repeat
    (eapply NoDup_keys_app;
     [ first [ apply conv2d_keys_under | apply batchnorm2d_keys_under
             | apply sequential_keys_under | apply linear_keys_under ]
     | repeat (apply avoids_app;
               [ eapply avoids_under;
                 [ first [ apply batchnorm2d_keys_under
                         | apply sequential_keys_under
                         | apply linear_keys_under ]
                 | reflexivity | reflexivity ] | ]);
       eapply avoids_under;
       [ first [ apply batchnorm2d_keys_under | apply sequential_keys_under
               | apply linear_keys_under ]
       | reflexivity | reflexivity ]
     | first [ apply conv2d_keys_nodup | apply batchnorm2d_keys_nodup
             | apply sequential_keys_nodup ]
     | ]).
  apply linear_keys_nodup.
Qed.

(** X5.  No parameter or buffer name occurs twice in the state dict of a
    network, nor in the state dict of one of its block groups: a stage
    numbers its blocks, a block names its layers [conv1], [bn1], ...,
    [downsample.0], [downsample.1], and the network names its children
    [conv1], [bn1], [layer1] .. [layer4], [fc]. *)
Theorem state_dict_keys_distinct (m : ResNet.t (T:=T))
        (g : ResNet.group (T:=T)) :
  NoDup (Dict.keys (state_dict "" m))
  /\ NoDup (Dict.keys (state_dict "" g)).
Proof.
  split; [apply resnet_keys_nodup|].
  destruct g as [l|l]; cbn [state_dict ResNet.group_module ResNet.group_named];
    [apply sequential_keys_nodup | apply linear_keys_nodup].
Qed.

End DistinctKeys.

(** ** Rewriting no parameter *)

Section Unchanged.
Context {T : Type} `{TensorEngine T}.

Definition keep (k : string) (v : T) : T := v.

Lemma conv2d_map_keep p (c : Conv2d.t (T:=T)) : Conv2d.map_named keep p c = c.
Proof. now destruct c. Qed.

Lemma batchnorm2d_map_keep p (b : BatchNorm2d.t (T:=T)) :
  BatchNorm2d.map_named keep p b = b.
Proof. now destruct b. Qed.

Lemma linear_map_keep p (l : Linear.t (T:=T)) : Linear.map_named keep p l = l.
Proof. now destruct l. Qed.

Lemma downsample_map_keep p (d : option (Downsample.t (T:=T))) :
  map_downsample keep p d = d.
Proof.
  destruct d as [[c b]|]; [|reflexivity].
  cbn. unfold Downsample.map_named. cbn.
  now rewrite conv2d_map_keep, batchnorm2d_map_keep.
Qed.

Lemma block_map_keep p (b : Block.t (T:=T)) : Block.map_named keep p b = b.
Proof.
  destruct b as [[c1 b1 c2 b2 d st]|[c1 b1 c2 b2 c3 b3 d st]]; cbn;
    unfold BasicBlock.map_named, Bottleneck.map_named; cbn;
    now rewrite !conv2d_map_keep, !batchnorm2d_map_keep, downsample_map_keep.
Qed.

Lemma sequential_map_keep_from p (l : Sequential.t (T:=T)) : forall i,
  Sequential.map_named_from i keep p l = l.
Proof.
  induction l as [|b l IH]; intros i; cbn; [reflexivity|].
  now rewrite block_map_keep, IH.
Qed.

Lemma with_children_self (m : ResNet.t (T:=T)) :
  ResNet.with_children m (ResNet.conv1 m) (ResNet.bn1 m) (ResNet.layer1 m)
    (ResNet.layer2 m) (ResNet.layer3 m) (ResNet.layer4 m) (ResNet.fc m) = m.
Proof. now destruct m. Qed.

Lemma resnet_map_keep p (m : ResNet.t (T:=T)) : ResNet.map_named keep p m = m.
Proof.
  unfold ResNet.map_named, Sequential.map_named.
  rewrite conv2d_map_keep, batchnorm2d_map_keep, !sequential_map_keep_from,
    linear_map_keep.
  apply with_children_self.
Qed.

Lemma group_map_keep p (g : ResNet.group (T:=T)) :
  ResNet.group_map_named keep p g = g.
Proof.
  destruct g as [l|l]; cbn; unfold Sequential.map_named;
    now rewrite ?sequential_map_keep_from, ?linear_map_keep.
Qed.

(** A rewriting that gives every parameter its own value changes
    nothing. *)
Lemma resnet_map_unchanged f p (m : ResNet.t (T:=T)) :
  (forall k v, In (k, v) (ResNet.named p m) -> f k v = v) ->
  ResNet.map_named f p m = m.
Proof.
  intros E. rewrite <- (resnet_map_keep p m) at 2.
  apply resnet_map_named_ext. exact E.
Qed.

Lemma sequential_map_unchanged f p (l : Sequential.t (T:=T)) :
  (forall k v, In (k, v) (Sequential.named p l) -> f k v = v) ->
  Sequential.map_named f p l = l.
Proof.
  intros E. rewrite <- (sequential_map_keep_from p l 0) at 2.
  apply sequential_map_named_ext. exact E.
Qed.

Lemma linear_map_unchanged f p (l : Linear.t (T:=T)) :
  (forall k v, In (k, v) (Linear.named p l) -> f k v = v) ->
  Linear.map_named f p l = l.
Proof.
  intros E. rewrite <- (linear_map_keep p l) at 2.
  apply linear_map_named_ext. exact E.
Qed.

End Unchanged.

(** ** A checkpoint of the same architecture *)

Section Transfer.
Context {T : Type} `{TensorEngine T}.

(** The names of a state dict with the shapes of its tensors. *)
Definition key_shapes (d : Dict.t T) : list (string * list nat) :=
  map (fun kv => (fst kv, shape (snd kv))) d.

Lemma key_shapes_app d e :
  key_shapes (d ++ e)%list = (key_shapes d ++ key_shapes e)%list.
Proof. apply map_app. Qed.

Lemma key_shapes_keys d : map fst (key_shapes d) = Dict.keys d.
Proof. unfold key_shapes, Dict.keys. now rewrite map_map. Qed.

Lemma get_own (d : Dict.t T) k v :
  NoDup (Dict.keys d) -> In (k, v) d -> Dict.get k d = Some v.
Proof.
  induction d as [|[k0 v0] d IH]; cbn; [intros _ []|].
  intros Hn [E|Hin]; inversion Hn as [|? ? Hk Hd]; subst.
  - injection E as -> ->. now rewrite String.eqb_refl.
  - destruct (String.eqb k0 k) eqn:Ek; [|now apply IH].
    apply String.eqb_eq in Ek. subst k0. destruct Hk.
    apply in_map_iff. now exists (k, v).
Qed.

Lemma copy_same_shape (d : Dict.t T) k v v' :
  Dict.get k d = Some v -> shape v = shape v' -> copy_ d k v' = v.
Proof.
  intros Hg Hs. unfold copy_. now rewrite Hg, Hs, shape_eqb_refl.
Qed.

Lemma copied_entries (d : Dict.t T) : forall d0 d',
  key_shapes d0 = key_shapes d' ->
  (forall k v, In (k, v) d0 -> Dict.get k d = Some v) ->
  map (fun kv => (fst kv, copy_ d (fst kv) (snd kv))) d' = d0.
Proof.
  induction d0 as [|[k v] d0 IH]; intros [|[k' v'] d']; cbn;
    try discriminate; [reflexivity|].
  intros [= -> Es E] Hg. f_equal.
  - f_equal. apply copy_same_shape; auto.
  - apply IH; auto.
Qed.

Lemma entry_of_key_shapes (d d' : Dict.t T) k v' :
  key_shapes d = key_shapes d' -> In (k, v') d' ->
  exists v, In (k, v) d /\ shape v = shape v'.
Proof.
  intros E Hin.
  assert (Hk : In (k, shape v') (key_shapes d)).
  { rewrite E. apply in_map_iff. now exists (k, v'). }
  apply in_map_iff in Hk. destruct Hk as ([k0 v] & [= -> Es] & Hk).
  now exists v.
Qed.

(** A load from a dictionary with the names and the shapes of the state
    dict of the module reports nothing, strict or not, and leaves the
    module with that dictionary as its state dict. *)
Lemma load_same_key_shapes {M : Type} {Mod : Module T M}
      {Laws : ModuleLaws Mod} (m : M) (sd : Dict.t T) (strict : bool) :
  key_shapes sd = key_shapes (state_dict "" m) ->
  NoDup (Dict.keys sd) ->
  snd (load_state_dict m sd strict) = []
  /\ state_dict "" (fst (load_state_dict m sd strict)) = sd.
Proof.
  intros E Hn. pose proof (f_equal (map fst) E) as Ek.
  rewrite !key_shapes_keys in Ek.
  assert (Hs : filter (size_mismatch sd) (state_dict "" m) = []).
  { apply filter_none. intros [k v'] Hin.
    destruct (@entry_of_key_shapes _ _ _ _ E Hin) as (v & Hv & Es).
    unfold size_mismatch. cbn [fst snd].
    now rewrite (@get_own _ _ _ Hn Hv), Es, shape_eqb_refl. }
  unfold load_state_dict. cbn [fst snd]. split.
  - rewrite Hs. destruct strict; [|reflexivity].
    rewrite <- Ek.
    rewrite !filter_none; [reflexivity| |]; intros k Hin;
      apply negb_false_iff; unfold Dict.mem;
      match goal with
      | |- context [Dict.get k ?d] =>
          destruct (Dict.get k d) eqn:G; [reflexivity|];
          apply DictFacts.get_None_not_In in G; rewrite <- ?Ek in G;
          contradiction
      end.
  - rewrite state_dict_map. apply copied_entries; [exact E|].
    intros k v. now apply get_own.
Qed.

End Transfer.

(** ** The names and shapes a constructor fixes *)

Section Architecture.
Context {T : Type} `{TensorEngine T} `{RandomSource}.

(** Two dictionaries with the same names and shapes. *)
Definition alike (d d' : Dict.t T) : Prop := key_shapes d = key_shapes d'.

Lemma alike_app d d' e e' :
  alike d d' -> alike e e' -> alike (d ++ e)%list (d' ++ e')%list.
Proof. unfold alike. rewrite !key_shapes_app. now intros -> ->. Qed.

Lemma alike_refl d : alike d d.
Proof. reflexivity. Qed.

(** The state of the random generator decides the values of a fresh
    layer, not its names and shapes. *)
Lemma conv2d_init_alike q i o k s p st st' :
  alike (Conv2d.named q (fst (Conv2d.__init__ (T:=T) i o k s p st)))
        (Conv2d.named q (fst (Conv2d.__init__ (T:=T) i o k s p st'))).
Proof. unfold alike. cbn. now rewrite !shape_init. Qed.

Lemma linear_init_alike q i o st st' :
  alike (Linear.named q (fst (Linear.__init__ (T:=T) i o st)))
        (Linear.named q (fst (Linear.__init__ (T:=T) i o st'))).
Proof. unfold alike. cbn. now rewrite !shape_init. Qed.

Lemma new_downsample_alike q ip out s st st' :
  alike (Downsample.named q (new_downsample (T:=T) ip out s st))
        (Downsample.named q (new_downsample (T:=T) ip out s st')).
Proof.
  unfold new_downsample, Downsample.named. cbn [Downsample.conv Downsample.bn].
  apply alike_app; [apply conv2d_init_alike | apply alike_refl].
Qed.

Lemma block_init_alike q c ip p s ds ds' st st' :
  alike (named_downsample q ds) (named_downsample q ds') ->
  alike (Block.named q (fst (Block.__init__ (T:=T) c ip p s ds st)))
        (Block.named q (fst (Block.__init__ (T:=T) c ip p s ds' st'))).
Proof.
  intros Hd. destruct c;
    cbn [Block.__init__ BasicBlock.__init__ Bottleneck.__init__ conv3x3];
    repeat (rewrite bind_fst_snd; cbv beta);
    cbn [Ctor.ret fst Block.named];
    unfold BasicBlock.named, Bottleneck.named;
    cbn [BasicBlock.conv1 BasicBlock.bn1 BasicBlock.conv2 BasicBlock.bn2
         BasicBlock.downsample
         Bottleneck.conv1 Bottleneck.bn1 Bottleneck.conv2 Bottleneck.bn2
         Bottleneck.conv3 Bottleneck.bn3 Bottleneck.downsample];
    repeat (apply alike_app;
            [first [apply conv2d_init_alike | apply alike_refl]|]);
    exact Hd.
Qed.

Lemma constructed_as_alike q c ip p s ds ds' (b b' : Block.t (T:=T)) :
  constructed_as c ip p s ds b -> constructed_as c ip p s ds' b' ->
  alike (named_downsample q ds) (named_downsample q ds') ->
  alike (Block.named q b) (Block.named q b').
Proof. intros [st ->] [st' ->]. apply block_init_alike. Qed.

Lemma plain_blocks_alike q c ip p (l : list (Block.t (T:=T))) : forall l' i,
  Forall (constructed_as c ip p 1 None) l ->
  Forall (constructed_as c ip p 1 None) l' ->
  List.length l = List.length l' ->
  alike (Sequential.named_from i q l) (Sequential.named_from i q l').
Proof.
  induction l as [|b l IH]; intros [|b' l'] i Hl Hl'; cbn; try discriminate;
    [reflexivity|].
  intros [= E]. inversion Hl; subst. inversion Hl'; subst.
  apply alike_app; [|now apply IH].
  eapply constructed_as_alike; eauto. apply alike_refl.
Qed.

Lemma stage_alike q c ip p blocks s (l l' : Sequential.t (T:=T)) :
  stage_of c ip p blocks s l -> stage_of c ip p blocks s l' ->
  alike (Sequential.named q l) (Sequential.named q l').
Proof.
  intros [(first & rest & ds & -> & Hf & Hd & Hl & Hr)]
         [(first' & rest' & ds' & -> & Hf' & Hd' & Hl' & Hr')].
  unfold Sequential.named. cbn [Sequential.named_from].
  apply alike_app.
  - eapply constructed_as_alike; eauto.
    destruct (needs_downsample s ip (p * Block.expansion c)).
    + destruct Hd as [st ->], Hd' as [st' ->]. apply new_downsample_alike.
    + subst. apply alike_refl.
  - eapply plain_blocks_alike; eauto. congruence.
Qed.

(** Two networks built from one block class, one list of depths and one
    number of classes have state dicts with the same names and shapes,
    whatever the other arguments and the random draws. *)
Lemma constructed_alike c l0 l1 l2 l3 num_classes tau temp wr tau' temp' wr'
      (m m' : ResNet.t (T:=T)) :
  constructed c l0 l1 l2 l3 tau num_classes temp wr m ->
  constructed c l0 l1 l2 l3 tau' num_classes temp' wr' m' ->
  alike (state_dict "" m) (state_dict "" m').
Proof.
  intros Hc Hc'.
  destruct (constructed_stages Hc) as (S1 & S2 & S3 & S4).
  destruct (constructed_stages Hc') as (S1' & S2' & S3' & S4').
  cbn [state_dict ResNet.module]. unfold ResNet.named.
  destruct (cons_conv1 Hc) as [s0 ->]. destruct (cons_conv1 Hc') as [s0' ->].
  rewrite (cons_bn1 Hc), (cons_bn1 Hc').
  destruct (cons_fc Hc) as [sf ->]. destruct (cons_fc Hc') as [sf' ->].
  apply alike_app; [apply conv2d_init_alike|].
  apply alike_app; [apply alike_refl|].
  apply alike_app; [now apply (stage_alike _ S1)|].
  apply alike_app; [now apply (stage_alike _ S2)|].
  apply alike_app; [now apply (stage_alike _ S3)|].
  apply alike_app; [now apply (stage_alike _ S4)|].
  apply linear_init_alike.
Qed.

End Architecture.

(** ** Loading complete checkpoints *)

Section CompleteCheckpoints.
Context {T : Type} `{TensorEngine T}.
Variable fs : string -> option (Dict.t T).

Lemma NoDup_nodupb l : NoDup l -> nodupb l = true.
Proof.
  induction 1 as [|k l Hk Hl IH]; cbn; [reflexivity|].
  rewrite IH, andb_true_r. apply negb_true_iff.
  destruct (existsb (String.eqb k) l) eqn:E; [|reflexivity].
  apply existsb_exists in E. destruct E as (k' & Hin & E).
  apply String.eqb_eq in E. now subst k'.
Qed.

Lemma prefixed_prefixedb (ck : Dict.t T) : prefixed ck -> prefixedb ck = true.
Proof.
  unfold prefixed, prefixedb. intros Hp. apply forallb_forall. intros k Hin.
  destruct (Hp k Hin) as (g & s & Hg & ->).
  apply existsb_exists. exists g. split; [exact Hg | apply startswith_app].
Qed.

Lemma alike_fits (sd d : Dict.t T) :
  key_shapes sd = key_shapes d -> NoDup (Dict.keys sd) -> fits sd d = true.
Proof.
  intros E Hn. unfold fits. apply forallb_forall. intros [k v'] Hin.
  destruct (@entry_of_key_shapes _ _ _ _ _ _ E Hin) as (v & Hv & Es).
  unfold size_mismatch. cbn [fst snd].
  now rewrite (@get_own _ _ _ _ Hn Hv), Es, shape_eqb_refl.
Qed.

(** A dictionary with the names and shapes of the network is a
    checkpoint of its architecture. *)
Lemma alike_checkpoint_ok (m : ResNet.t (T:=T)) (sd : Dict.t T) :
  key_shapes sd = key_shapes (state_dict "" m) ->
  NoDup (Dict.keys sd) /\ checkpoint_ok m sd = true.
Proof.
  intros E. pose proof (f_equal (map fst) E) as Ek.
  rewrite !key_shapes_keys in Ek.
  assert (Hn : NoDup (Dict.keys sd)) by (rewrite Ek; apply resnet_keys_nodup).
  split; [exact Hn|]. unfold checkpoint_ok.
  rewrite (NoDup_nodupb Hn), (@alike_fits _ _ E Hn), andb_true_r. cbn [andb].
  apply prefixed_prefixedb. intros k Hin. rewrite Ek in Hin.
  apply in_map_iff in Hin. destruct Hin as ([k' v] & E' & Hin).
  cbn in E'. subst k'. exact (resnet_keys_prefixed Hin).
Qed.

(** The strict load of a checkpoint with exactly the names of the
    network, and fitting shapes, reports nothing. *)
Lemma strict_load_ok (m : ResNet.t (T:=T)) (ck : Dict.t T) :
  (forall k, In k (Dict.keys ck) <-> In k (Dict.keys (state_dict "" m))) ->
  fits ck (state_dict "" m) = true ->
  snd (load_state_dict m ck true) = [].
Proof.
  intros Hk Hf. unfold load_state_dict. cbn [snd].
  rewrite (fits_no_errors _ _ Hf).
  rewrite !filter_none; [reflexivity| |]; intros k Hin;
    apply negb_false_iff; unfold Dict.mem;
    match goal with
    | |- context [Dict.get k ?d] =>
        destruct (Dict.get k d) eqn:G; [reflexivity|];
        apply DictFacts.get_None_not_In in G; apply Hk in Hin; contradiction
    end.
Qed.

(** [load_combination_weight], when the baseline passes the strict load
    and the five files are there and are checkpoints of the
    architecture. *)
Lemma load_combination_weight_ok (s : ResNet.call_state (T:=T))
      (combination : list Z) (weight_folder model_name : string)
      c1 c2 c3 c4 c5 rest (ck0 ck1 ck2 ck3 ck4 ck5 : Dict.t T) :
  let m := ResNet.self s in
  let path c := Py.format_model_path weight_folder model_name (c + 1) in
  let p50 := Py.format_model_path weight_folder model_name 50 in
  ResNet.block_names m = group_names ->
  combination = c1 :: c2 :: c3 :: c4 :: c5 :: rest ->
  fs p50 = Some ck0 ->
  snd (load_state_dict m ck0 true) = [] ->
  fs (path c1) = Some ck1 -> fs (path c2) = Some ck2 ->
  fs (path c3) = Some ck3 -> fs (path c4) = Some ck4 ->
  fs (path c5) = Some ck5 ->
  checkpoint_ok m ck1 = true -> checkpoint_ok m ck2 = true ->
  checkpoint_ok m ck3 = true -> checkpoint_ok m ck4 = true ->
  checkpoint_ok m ck5 = true ->
  ResNet.load_combination_weight fs combination weight_folder model_name s
  = ({| ResNet.self :=
          groups_loaded (map_parameters (copy_ ck0) "" m) ck1 ck2 ck3 ck4 ck5;
        ResNet.opened :=
          (ResNet.opened s
           ++ [p50; path c1; path c2; path c3; path c4; path c5])%list |},
     inr tt).
Proof.
  intros m path p50 Hnames Hc F0 Hok F1 F2 F3 F4 F5 K1 K2 K3 K4 K5.
  rewrite (@load_combination_weight_loop _ _ fs combination weight_folder
             model_name s ck0 F0 Hok).
  fold m. rewrite Hnames.
  erewrite (@load_groups_ok _ _ fs combination weight_folder model_name
              (after_baseline s p50 ck0 true) c1 c2 c3 c4 c5 rest
              ck1 ck2 ck3 ck4 ck5);
    [ | exact Hnames | exact Hc
      | exact F1 | exact F2 | exact F3 | exact F4 | exact F5
      | now apply checkpoint_ok_after_load
      | now apply checkpoint_ok_after_load
      | now apply checkpoint_ok_after_load
      | now apply checkpoint_ok_after_load
      | now apply checkpoint_ok_after_load ].
  cbn [ResNet.self ResNet.opened after_baseline]. fold path.
  rewrite <- app_assoc. reflexivity.
Qed.

(** Once its own state dict is [sd], a network is left as it is by the
    five group loads from [sd]. *)
Lemma groups_loaded_own (m : ResNet.t (T:=T)) :
  groups_loaded m (state_dict "" m) (state_dict "" m) (state_dict "" m)
                (state_dict "" m) (state_dict "" m) = m.
Proof.
  assert (G : forall block_name g k v,
             ResNet.getattr m block_name = Some g ->
             In (k, v) (state_dict "" g) ->
             under block_name (state_dict "" m) k v = v).
  { intros block_name g k v Hg Hin. unfold under.
    apply copy_same_shape; [|reflexivity].
    apply get_own; [apply resnet_keys_nodup|].
    exact (@group_entries_in_network _ _ m block_name g k v Hg Hin). }
  unfold groups_loaded.
  rewrite !sequential_map_unchanged, linear_map_unchanged;
    [apply with_children_self|..]; intros k v Hin.
  - exact (G "fc" (ResNet.Head (ResNet.fc m)) k v eq_refl Hin).
  - exact (G "layer4" (ResNet.Stage (ResNet.layer4 m)) k v eq_refl Hin).
  - exact (G "layer3" (ResNet.Stage (ResNet.layer3 m)) k v eq_refl Hin).
  - exact (G "layer2" (ResNet.Stage (ResNet.layer2 m)) k v eq_refl Hin).
  - exact (G "layer1" (ResNet.Stage (ResNet.layer1 m)) k v eq_refl Hin).
Qed.

End CompleteCheckpoints.

Section LoadCombination.
Context {T : Type} `{TensorEngine T}.
Variable fs : string -> option (Dict.t T).


(** X3.  When all the files hold one dictionary [sd] that has the names of the
    state dict of the network, in their order, with the shapes of its
    tensors, [load_combination_weight] returns and the state dict of the
    network is [sd]: the baseline load gives it every entry of [sd], and
    the five group loads give the groups the same entries again. *)
Theorem complete_checkpoint_restores
        (s : ResNet.call_state (T:=T)) (combination : list Z)
        (weight_folder model_name : string) (c1 c2 c3 c4 c5 : Z) (rest : list Z)
        (sd : Dict.t T) :
  let m := ResNet.self s in
  let path c := Py.format_model_path weight_folder model_name (c + 1) in
  let p50 := Py.format_model_path weight_folder model_name 50 in
  ResNet.block_names m = ["layer1"; "layer2"; "layer3"; "layer4"; "fc"] ->
  combination = c1 :: c2 :: c3 :: c4 :: c5 :: rest ->
  key_shapes sd = key_shapes (state_dict "" m) ->
  fs p50 = Some sd ->
  fs (path c1) = Some sd -> fs (path c2) = Some sd ->
  fs (path c3) = Some sd -> fs (path c4) = Some sd ->
  fs (path c5) = Some sd ->
  exists m',
    ResNet.load_combination_weight fs combination weight_folder model_name s
    = ({| ResNet.self := m';
          ResNet.opened :=
            (ResNet.opened s
             ++ [p50; path c1; path c2; path c3; path c4; path c5])%list |},
       inr tt)
    /\ state_dict "" m' = sd.
Proof.
  intros m path p50 Hnames Hc E F0 F1 F2 F3 F4 F5.
  destruct (alike_checkpoint_ok sd E) as [Hn K].
  destruct (load_same_key_shapes m sd true E Hn) as [Hok Hsd].
  cbn [fst load_state_dict] in Hsd.
  exists (map_parameters (copy_ sd) "" m). split; [|exact Hsd].
  rewrite (@load_combination_weight_ok _ _ fs s combination weight_folder
             model_name c1 c2 c3 c4 c5 rest sd sd sd sd sd sd
             Hnames Hc F0 Hok F1 F2 F3 F4 F5 K K K K K).
  fold m. rewrite <- Hsd at 2 3 4 5 6.
  now rewrite groups_loaded_own.
Qed.

End LoadCombination.

Section CheckpointTransfer.
Context {T : Type} `{TensorEngine T} `{RandomSource}.

(** X4.  The state dict of one network loads into any network built from the
    same block class, depths and number of classes, whatever their other
    arguments and random draws: the load, strict or not, reports nothing,
    and the state dict of the second network is then the state dict of
    the first. *)
Theorem checkpoint_transfer
        (c : Block.cls) (layers : list nat) (num_classes : nat)
        (tau temp : R) (weight_root : option string) (rng0 : nat)
        (tau' temp' : R) (weight_root' : option string) (rng0' : nat)
        (m m' : ResNet.t (T:=T)) (strict : bool) :
  ResNet.__init__ c layers tau num_classes temp weight_root rng0 = Some m ->
  ResNet.__init__ c layers tau' num_classes temp' weight_root' rng0' = Some m' ->
  snd (load_state_dict m' (state_dict "" m) strict) = []
  /\ state_dict "" (fst (load_state_dict m' (state_dict "" m) strict))
     = state_dict "" m.
Proof.
  intros Hm Hm'.
  destruct (init_spec _ _ _ _ _ _ _ Hm) as (l0 & l1 & l2 & l3 & rest & E & Hc).
  destruct (init_spec _ _ _ _ _ _ _ Hm')
    as (l0' & l1' & l2' & l3' & rest' & E' & Hc').
  rewrite E in E'. injection E' as <- <- <- <- _.
  apply load_same_key_shapes; [|apply resnet_keys_nodup].
  exact (constructed_alike Hc Hc').
Qed.

End CheckpointTransfer.

(** ** The two loaders side by side *)

Section Agreement.
Context {T : Type} `{TensorEngine T}.
Variable fs : string -> option (Dict.t T).

(** What the call does to the instance, and how it ends, does not depend
    on the files opened before it. *)
Definition oblivious {A : Type} (c : ResNet.call (T:=T) A) : Prop :=
  forall m o o',
    ResNet.self (fst (c {| ResNet.self := m; ResNet.opened := o |}))
    = ResNet.self (fst (c {| ResNet.self := m; ResNet.opened := o' |}))
    /\ snd (c {| ResNet.self := m; ResNet.opened := o |})
       = snd (c {| ResNet.self := m; ResNet.opened := o' |}).

Lemma oblivious_ret {A : Type} (a : A) : oblivious (ResNet.ret a).
Proof. intros m o o'. split; reflexivity. Qed.

Lemma oblivious_raise {A : Type} e : oblivious (ResNet.raise (A:=A) e).
Proof. intros m o o'. split; reflexivity. Qed.

Lemma oblivious_bind {A B : Type} (c : ResNet.call A) (k : A -> ResNet.call B) :
  oblivious c -> (forall a, oblivious (k a)) -> oblivious (ResNet.bind c k).
Proof.
  intros Hc Hk m o o'. unfold ResNet.bind.
  destruct (Hc m o o') as [E1 E2].
  destruct (c {| ResNet.self := m; ResNet.opened := o |}) as [[m1 o1] r1].
  destruct (c {| ResNet.self := m; ResNet.opened := o' |}) as [[m1' o1'] r1'].
  cbn [fst snd ResNet.self] in E1, E2. subst m1' r1'.
  destruct r1 as [e|a]; [split; reflexivity | apply Hk].
Qed.

Lemma oblivious_torch_load path : oblivious (ResNet.torch_load fs path).
Proof.
  intros m o o'. unfold ResNet.torch_load. destruct (fs path); split; reflexivity.
Qed.

Lemma oblivious_raise_if_errors msgs : oblivious (ResNet.raise_if_errors msgs).
Proof. destruct msgs; [apply oblivious_ret | apply oblivious_raise]. Qed.

Lemma oblivious_put_self m0 : oblivious (ResNet.put_self m0).
Proof. intros m o o'. split; reflexivity. Qed.

Lemma oblivious_get_bind {B : Type} (k : ResNet.t -> ResNet.call (T:=T) B) :
  (forall a, oblivious (k a)) -> oblivious (ResNet.bind ResNet.get_self k).
Proof. intros Hk m o o'. apply (Hk m). Qed.

Lemma oblivious_group_load_state_dict block_name d strict :
  oblivious (ResNet.group_load_state_dict block_name d strict).
Proof.
  unfold ResNet.group_load_state_dict. apply oblivious_get_bind. intros m.
  destruct (ResNet.getattr m block_name); [|apply oblivious_raise].
  apply oblivious_bind; [apply oblivious_put_self|]. intros _.
  apply oblivious_raise_if_errors.
Qed.

Lemma oblivious_load_block choice root name block_name :
  oblivious (ResNet.load_block fs choice root name block_name).
Proof.
  unfold ResNet.load_block. apply oblivious_get_bind. intros m.
  apply oblivious_bind.
  { destruct (Py.index _ _); [apply oblivious_ret | apply oblivious_raise]. }
  intros idx. apply oblivious_bind.
  { unfold ResNet.subscript. destruct (nth_error _ _);
      [apply oblivious_ret | apply oblivious_raise]. }
  intros c. apply oblivious_bind; [apply oblivious_torch_load|]. intros d.
  apply oblivious_group_load_state_dict.
Qed.

Lemma oblivious_for_each {A : Type} (xs : list A) (body : A -> ResNet.call unit) :
  (forall x, oblivious (body x)) -> oblivious (ResNet.for_each xs body).
Proof.
  intros Hb. induction xs as [|x xs IH]; cbn [ResNet.for_each].
  - apply oblivious_ret.
  - apply oblivious_bind; [apply Hb | intros _; exact IH].
Qed.

(** A call followed by [return a], against the call alone from other
    opened files. *)
Lemma ends_alike {A : Type} (c : ResNet.call (T:=T) unit) (a : A) m o o' :
  oblivious c ->
  let g := ResNet.bind c (fun _ => ResNet.ret a)
                       {| ResNet.self := m; ResNet.opened := o |} in
  let h := c {| ResNet.self := m; ResNet.opened := o' |} in
  ResNet.self (fst g) = ResNet.self (fst h)
  /\ snd g = match snd h with
             | inl e => inl e
             | inr _ => inr a
             end.
Proof.
  intros Hc. cbv zeta. unfold ResNet.bind. destruct (Hc m o o') as [E1 E2].
  destruct (c {| ResNet.self := m; ResNet.opened := o |}) as [s1 r1].
  destruct (c {| ResNet.self := m; ResNet.opened := o' |}) as [s2 r2].
  cbn [fst snd] in *. subst r2. destruct r1; split; auto.
Qed.

(** [load_gumbel_weight] up to its loop. *)
Lemma load_gumbel_weight_loop (s : ResNet.call_state (T:=T)) ck0 :
  let m := ResNet.self s in
  let root := Py.str_of_opt (ResNet.weight_root m) in
  let index :=
    torch_argmax (gumbel_softmax (ResNet.alphas m) (ResNet._tau m)
                                 (ResNet.gumbel m)) in
  let p42 := Py.format_model_path root (ResNet.model_name m) 42 in
  fs p42 = Some ck0 ->
  snd (load_state_dict m ck0 false) = [] ->
  ResNet.load_gumbel_weight fs s
  = ResNet.bind
      (ResNet.for_each (ResNet.block_names m)
         (ResNet.load_block fs (map Z.of_nat index) root (ResNet.model_name m)))
      (fun _ => ResNet.ret index)
      (after_baseline s p42 ck0 false).
Proof.
  intros m root index p42 Hfs Hok.
  unfold ResNet.load_gumbel_weight, ResNet.bind at 1, ResNet.get_self.
  fold m. cbn [ResNet.arch_weights]. fold root. fold index. fold p42.
  unfold ResNet.bind at 1, ResNet.torch_load. rewrite Hfs.
  unfold ResNet.bind at 1.
  unfold ResNet.self_load_state_dict, ResNet.bind at 1 2, ResNet.get_self,
    ResNet.put_self. cbn [ResNet.self ResNet.opened].
  fold m. rewrite Hok. cbn [ResNet.raise_if_errors ResNet.ret]. reflexivity.
Qed.

(** X2.  When one checkpoint is both baselines and it passes the strict load,
    [load_gumbel_weight] does to the network what
    [load_combination_weight] does with the arg-max indices as
    [combination], the weight root as folder and the model name of the
    instance; the two calls end in the same way, the first returning the
    indices where the second returns nothing. *)
Theorem loaders_agree (s : ResNet.call_state (T:=T)) (ck0 : Dict.t T) :
  let m := ResNet.self s in
  let root := Py.str_of_opt (ResNet.weight_root m) in
  let name := ResNet.model_name m in
  let index :=
    torch_argmax (gumbel_softmax (ResNet.alphas m) (ResNet._tau m)
                                 (ResNet.gumbel m)) in
  let by_sampler := ResNet.load_gumbel_weight fs s in
  let by_hand :=
    ResNet.load_combination_weight fs (map Z.of_nat index) root name s in
  fs (Py.format_model_path root name 42) = Some ck0 ->
  fs (Py.format_model_path root name 50) = Some ck0 ->
  snd (load_state_dict m ck0 true) = [] ->
  ResNet.self (fst by_sampler) = ResNet.self (fst by_hand)
  /\ snd by_sampler = match snd by_hand with
                      | inl e => inl e
                      | inr _ => inr index
                      end.
Proof.
  intros m root name index by_sampler by_hand F42 F50 Hok.
  assert (Hok' : snd (load_state_dict m ck0 false) = []).
  { revert Hok. unfold load_state_dict. cbn [snd]. intros E.
    apply app_eq_nil in E. destruct E as [_ E].
    apply app_eq_nil in E. tauto. }
  unfold by_sampler, by_hand.
  rewrite (@load_gumbel_weight_loop s ck0 F42 Hok').
  rewrite (@load_combination_weight_loop _ _ fs (map Z.of_nat index) root name
             s ck0 F50 Hok).
  exact (@ends_alike _ _ index (map_parameters (copy_ ck0) "" m)
           (ResNet.opened s ++ [Py.format_model_path root name 42])%list
           (ResNet.opened s ++ [Py.format_model_path root name 50])%list
           (@oblivious_for_each _ (ResNet.block_names m)
              (ResNet.load_block fs (map Z.of_nat index) root name)
              (oblivious_load_block (map Z.of_nat index) root name))).
Qed.

End Agreement.

(* ================================================================== *)
(** * The inputs of the forward pass *)

Section ForwardDomain.
Import ShapeEngine.

Lemma conv3x3_rejects n c h w o i s :
  (c =? i)%nat = false \/ h = 0 \/ w = 0 ->
  conv2d_shape [n; c; h; w] [o; i; 3; 3] s 1 = None.
Proof.
  unfold conv2d_shape. intros [E | [ -> | -> ]].
  - now rewrite E.
  - replace (3 <=? 0 + 2 * 1)%nat with false by reflexivity.
    now rewrite !andb_false_r.
  - replace (3 <=? 0 + 2 * 1)%nat with false by reflexivity.
    now rewrite !andb_false_r.
Qed.


End ForwardDomain.

(* ================================================================== *)
(** * What the loaders keep *)

(** ** Relations on the instance that a call keeps *)

Section Preserved.
Context {T : Type} `{TensorEngine T}.
Variable fs : string -> option (Dict.t T).

(** [R] relates the instance before the call to the instance after it,
    however the call ends. *)
Definition preserves (R : ResNet.t (T:=T) -> ResNet.t (T:=T) -> Prop)
           {A : Type} (c : ResNet.call (T:=T) A) : Prop :=
  forall s, R (ResNet.self s) (ResNet.self (fst (c s))).

Variable R : ResNet.t (T:=T) -> ResNet.t (T:=T) -> Prop.
Hypothesis R_refl : forall m, R m m.
Hypothesis R_trans : forall m1 m2 m3, R m1 m2 -> R m2 m3 -> R m1 m3.

Lemma preserves_ret {A : Type} (a : A) : preserves R (ResNet.ret a).
Proof. intros s. apply R_refl. Qed.

Lemma preserves_raise {A : Type} e : preserves R (ResNet.raise (A:=A) e).
Proof. intros s. apply R_refl. Qed.

Lemma preserves_bind {A B : Type} (c : ResNet.call A) (k : A -> ResNet.call B) :
  preserves R c -> (forall a, preserves R (k a)) ->
  preserves R (ResNet.bind c k).
Proof.
  intros Hc Hk s. unfold ResNet.bind. specialize (Hc s).
  destruct (c s) as [s1 [e|a]]; cbn [fst] in *; [exact Hc|].
  eapply R_trans; [exact Hc | apply Hk].
Qed.

Lemma preserves_torch_load path : preserves R (ResNet.torch_load fs path).
Proof.
  intros s. unfold ResNet.torch_load. destruct (fs path); apply R_refl.
Qed.

Lemma preserves_for_each {A : Type} (xs : list A)
      (body : A -> ResNet.call unit) :
  (forall x, preserves R (body x)) -> preserves R (ResNet.for_each xs body).
Proof.
  intros Hb. induction xs as [|x xs IH]; cbn [ResNet.for_each].
  - apply preserves_ret.
  - apply preserves_bind; [apply Hb | intros _; exact IH].
Qed.

(** The group loads keep [R] when putting a loaded group back does. *)
Hypothesis R_store : forall m block_name g d strict,
  ResNet.getattr m block_name = Some g ->
  R m (ResNet.store_group m block_name (fst (load_state_dict g d strict))).

Lemma preserves_group_load block_name d strict :
  preserves R (ResNet.group_load_state_dict block_name d strict).
Proof.
  intros s. unfold ResNet.group_load_state_dict, ResNet.bind, ResNet.get_self,
    ResNet.put_self.
  destruct (ResNet.getattr (ResNet.self s) block_name) as [g|] eqn:Eg;
    [|apply R_refl].
  destruct (snd (load_state_dict g d strict)); cbn [ResNet.self fst];
    now apply R_store.
Qed.

Lemma preserves_load_block choice root name block_name :
  preserves R (ResNet.load_block fs choice root name block_name).
Proof.
  intros s. rewrite load_block_steps.
  destruct (Py.index _ _); [|apply R_refl].
  destruct (nth_error _ _); [|apply R_refl].
  apply (@preserves_bind _ _ (ResNet.torch_load fs _));
    [apply preserves_torch_load | intros d; apply preserves_group_load].
Qed.

Lemma preserves_rounds choice root name xs :
  preserves R (ResNet.for_each xs (ResNet.load_block fs choice root name)).
Proof. apply preserves_for_each. intros x. apply preserves_load_block. Qed.

End Preserved.

(** ** Names, shapes and the stem *)

Section Kept.
Context {T : Type} `{TensorEngine T}.
Variable fs : string -> option (Dict.t T).

Lemma key_shapes_shift p (d : Dict.t T) :
  key_shapes (shift p d)
  = map (fun ks => (p ++ fst ks, snd ks)) (key_shapes d).
Proof. unfold key_shapes, shift. rewrite !map_map. reflexivity. Qed.

(** A rewriting that keeps the shape of every parameter keeps the names
    and shapes of the state dict. *)
Lemma key_shapes_rewritten {M : Type} {Mod : Module T M}
      {Laws : ModuleLaws Mod} (f : string -> T -> T) p (m : M) :
  (forall k v, shape (f k v) = shape v) ->
  key_shapes (state_dict p (map_parameters f p m)) = key_shapes (state_dict p m).
Proof.
  intros Hf. rewrite state_dict_map. unfold key_shapes. rewrite map_map.
  apply map_ext. intros [k v]. cbn. now rewrite Hf.
Qed.

Lemma key_shapes_loaded {M : Type} {Mod : Module T M}
      {Laws : ModuleLaws Mod} (m : M) d strict :
  key_shapes (state_dict "" (fst (load_state_dict m d strict)))
  = key_shapes (state_dict "" m).
Proof. apply key_shapes_rewritten. intros k v. apply shape_copy_. Qed.

Definition same_key_shapes (m m' : ResNet.t (T:=T)) : Prop :=
  key_shapes (state_dict "" m') = key_shapes (state_dict "" m).

Lemma stage_key_shapes p (l l' : Sequential.t (T:=T)) :
  key_shapes (Sequential.named "" l') = key_shapes (Sequential.named "" l) ->
  key_shapes (Sequential.named (p ++ "") l')
  = key_shapes (Sequential.named (p ++ "") l).
Proof.
  intros E. now rewrite !sequential_named_shift, !key_shapes_shift, E.
Qed.

Lemma head_key_shapes p (l l' : Linear.t (T:=T)) :
  key_shapes (Linear.named "" l') = key_shapes (Linear.named "" l) ->
  key_shapes (Linear.named (p ++ "") l') = key_shapes (Linear.named (p ++ "") l).
Proof.
  intros E. now rewrite !linear_named_shift, !key_shapes_shift, E.
Qed.

(** One child of the network: as it was, or the loaded group. *)
Ltac kept_child E :=
  first
    [ reflexivity
    | match goal with
      | |- key_shapes (Sequential.named ?q _) = _ =>
          let p := eval cbn in q in exact (@stage_key_shapes p _ _ E)
      | |- key_shapes (Linear.named ?q _) = _ =>
          let p := eval cbn in q in exact (@head_key_shapes p _ _ E)
      end ].

Lemma store_loaded_key_shapes (m : ResNet.t (T:=T)) block_name g d strict :
  ResNet.getattr m block_name = Some g ->
  same_key_shapes m
    (ResNet.store_group m block_name (fst (load_state_dict g d strict))).
Proof.
  unfold same_key_shapes. intros Hg.
  pose proof (key_shapes_loaded g d strict) as E. revert Hg E.
  unfold ResNet.getattr, ResNet.store_group, load_state_dict.
  cbn [fst map_parameters state_dict ResNet.group_module ResNet.module].
  repeat match goal with
         | |- context [String.eqb block_name ?n] =>
             destruct (String.eqb block_name n)
         end; try discriminate;
    intros [= <-]; cbn [ResNet.group_map_named ResNet.group_named];
    intros E; unfold ResNet.named, ResNet.with_children;
    cbn [ResNet.conv1 ResNet.bn1 ResNet.layer1 ResNet.layer2 ResNet.layer3
         ResNet.layer4 ResNet.fc];
    rewrite ?key_shapes_app;
    repeat (apply (f_equal2 (@app _)); [kept_child E|]); kept_child E.
Qed.

Lemma same_key_shapes_refl m : same_key_shapes m m.
Proof. reflexivity. Qed.

Lemma same_key_shapes_trans m1 m2 m3 :
  same_key_shapes m1 m2 -> same_key_shapes m2 m3 -> same_key_shapes m1 m3.
Proof. unfold same_key_shapes. congruence. Qed.

Lemma self_load_key_shapes d strict :
  preserves same_key_shapes (ResNet.self_load_state_dict d strict).
Proof.
  intros s. unfold ResNet.self_load_state_dict, ResNet.bind, ResNet.get_self,
    ResNet.put_self.
  destruct (snd (load_state_dict (ResNet.self s) d strict));
    cbn [ResNet.self fst]; apply key_shapes_loaded.
Qed.

Lemma load_gumbel_weight_key_shapes :
  preserves same_key_shapes (ResNet.load_gumbel_weight fs).
Proof.
  pose proof (@preserves_bind T same_key_shapes same_key_shapes_trans) as B.
  apply (B _ _ ResNet.get_self); [intros s0; apply same_key_shapes_refl|].
  intros m.
  apply B; [apply preserves_torch_load, same_key_shapes_refl|].
  intros d. apply B; [apply self_load_key_shapes|]. intros _.
  apply B; [|intros _ s0; apply same_key_shapes_refl].
  apply (@preserves_rounds _ _ fs same_key_shapes same_key_shapes_refl
           same_key_shapes_trans store_loaded_key_shapes).
Qed.

Lemma load_combination_weight_key_shapes combination weight_folder model_name :
  preserves same_key_shapes
    (ResNet.load_combination_weight fs combination weight_folder model_name).
Proof.
  pose proof (@preserves_bind T same_key_shapes same_key_shapes_trans) as B.
  apply (B _ _ (ResNet.torch_load fs _));
    [apply preserves_torch_load, same_key_shapes_refl|].
  intros d. apply B; [apply self_load_key_shapes|]. intros _.
  apply B; [intros s0; apply same_key_shapes_refl|]. intros m.
  apply (@preserves_rounds _ _ fs same_key_shapes same_key_shapes_refl
           same_key_shapes_trans store_loaded_key_shapes).
Qed.


(** *** The stem *)

Definition same_stem (m m' : ResNet.t (T:=T)) : Prop :=
  ResNet.conv1 m' = ResNet.conv1 m /\ ResNet.bn1 m' = ResNet.bn1 m.

Lemma same_stem_refl m : same_stem m m.
Proof. split; reflexivity. Qed.

Lemma same_stem_trans m1 m2 m3 :
  same_stem m1 m2 -> same_stem m2 m3 -> same_stem m1 m3.
Proof. unfold same_stem. intros [] []. split; congruence. Qed.

Lemma store_same_stem (m : ResNet.t (T:=T)) block_name g :
  same_stem m (ResNet.store_group m block_name g).
Proof.
  unfold ResNet.store_group.
  destruct g;
    repeat match goal with
           | |- context [String.eqb ?a ?b] => destruct (String.eqb a b)
           end; split; reflexivity.
Qed.


End Kept.

(* ================================================================== *)
(** * A block without a downsample path *)

Section PlainResidual.
Import ShapeEngine.

Lemma down_lt s h : 2 <= s -> 2 <= h -> down s h < h.
Proof.
  intros Hs Hh. unfold down.
  assert ((h - 1) / s < h - 1) by (apply Nat.div_lt; lia). lia.
Qed.


End PlainResidual.

(* ================================================================== *)
(** * Loading twice *)

(** ** Rewriting twice, and under a longer prefix *)

Section Composed.
Context {T : Type} `{TensorEngine T}.

Definition then_ (g f : string -> T -> T) (k : string) (v : T) : T :=
  f k (g k v).

Definition below (p : string) (f : string -> T -> T) (k : string) : T -> T :=
  f (p ++ k).

Lemma conv2d_map_shift f p q (c : Conv2d.t (T:=T)) :
  Conv2d.map_named f (p ++ q) c = Conv2d.map_named (below p f) q c.
Proof. unfold Conv2d.map_named, below. now rewrite append_assoc. Qed.

Lemma batchnorm2d_map_shift f p q (b : BatchNorm2d.t (T:=T)) :
  BatchNorm2d.map_named f (p ++ q) b = BatchNorm2d.map_named (below p f) q b.
Proof. unfold BatchNorm2d.map_named, below. now rewrite !append_assoc. Qed.

Lemma linear_map_shift f p q (l : Linear.t (T:=T)) :
  Linear.map_named f (p ++ q) l = Linear.map_named (below p f) q l.
Proof. unfold Linear.map_named, below. now rewrite !append_assoc. Qed.

Lemma linear_map_map f g p (l : Linear.t (T:=T)) :
  Linear.map_named f p (Linear.map_named g p l)
  = Linear.map_named (then_ g f) p l.
Proof. reflexivity. Qed.

Lemma downsample_map_shift f p q (d : option (Downsample.t (T:=T))) :
  map_downsample f (p ++ q) d = map_downsample (below p f) q d.
Proof.
  destruct d as [d|]; [|reflexivity]. cbn. unfold Downsample.map_named.
  now rewrite !append_assoc, conv2d_map_shift, batchnorm2d_map_shift.
Qed.

Lemma downsample_map_map f g p (d : option (Downsample.t (T:=T))) :
  map_downsample f p (map_downsample g p d) = map_downsample (then_ g f) p d.
Proof. now destruct d. Qed.

Lemma block_map_shift f p q (b : Block.t (T:=T)) :
  Block.map_named f (p ++ q) b = Block.map_named (below p f) q b.
Proof.
  destruct b as [b|b]; cbn [Block.map_named]; f_equal;
    unfold BasicBlock.map_named, Bottleneck.map_named;
    now rewrite !append_assoc, !conv2d_map_shift, !batchnorm2d_map_shift,
      downsample_map_shift.
Qed.

Lemma block_map_map f g p (b : Block.t (T:=T)) :
  Block.map_named f p (Block.map_named g p b)
  = Block.map_named (then_ g f) p b.
Proof.
  destruct b as [b|b]; cbn [Block.map_named]; f_equal;
    unfold BasicBlock.map_named, Bottleneck.map_named;
    cbn [BasicBlock.conv1 BasicBlock.bn1 BasicBlock.conv2 BasicBlock.bn2
         BasicBlock.downsample BasicBlock.stride
         Bottleneck.conv1 Bottleneck.bn1 Bottleneck.conv2 Bottleneck.bn2
         Bottleneck.conv3 Bottleneck.bn3 Bottleneck.downsample
         Bottleneck.stride];
    now rewrite downsample_map_map.
Qed.

Lemma sequential_map_shift_from f p q (l : Sequential.t (T:=T)) : forall i,
  Sequential.map_named_from i f (p ++ q) l
  = Sequential.map_named_from i (below p f) q l.
Proof.
  induction l as [|b l IH]; intros i; cbn; [reflexivity|].
  now rewrite IH, append_assoc, block_map_shift.
Qed.

Lemma sequential_map_map_from f g p (l : Sequential.t (T:=T)) : forall i,
  Sequential.map_named_from i f p (Sequential.map_named_from i g p l)
  = Sequential.map_named_from i (then_ g f) p l.
Proof.
  induction l as [|b l IH]; intros i; cbn; [reflexivity|].
  now rewrite IH, block_map_map.
Qed.

Lemma copy_hit (ck : Dict.t T) k v1 (x : T) :
  Dict.get k ck = Some v1 -> shape_eqb (shape v1) (shape x) = true ->
  copy_ ck k x = v1.
Proof. intros G E. unfold copy_. now rewrite G, E. Qed.

Lemma copy_miss (ck : Dict.t T) k (x : T) :
  (forall v1, Dict.get k ck = Some v1 ->
              shape_eqb (shape v1) (shape x) = false) ->
  copy_ ck k x = x.
Proof.
  intros E. unfold copy_. destruct (Dict.get k ck) as [v1|]; [|reflexivity].
  now rewrite (E v1 eq_refl).
Qed.

Lemma copy_again (ck : Dict.t T) (k : string) (v : T) :
  copy_ ck k (copy_ ck k v) = copy_ ck k v.
Proof.
  unfold copy_. destruct (Dict.get k ck) as [v0|]; [|reflexivity].
  destruct (shape_eqb (shape v0) (shape v)) eqn:E;
    [now rewrite shape_eqb_refl | now rewrite E].
Qed.

(** What two checkpoints have copied, one after the other, they copy
    again. *)
Lemma copy_twice (ck0 ck1 : Dict.t T) (k0 k1 : string) (v : T) :
  copy_ ck1 k1 (copy_ ck0 k0 (copy_ ck1 k1 (copy_ ck0 k0 v)))
  = copy_ ck1 k1 (copy_ ck0 k0 v).
Proof.
  set (x := copy_ ck0 k0 v).
  assert (Hx : copy_ ck0 k0 x = x) by apply copy_again.
  clearbody x.
  destruct (Dict.get k1 ck1) as [v1|] eqn:G.
  - destruct (shape_eqb (shape v1) (shape x)) eqn:E.
    + rewrite (@copy_hit ck1 k1 v1 x G E).
      apply (@copy_hit ck1 k1 v1 _ G).
      rewrite shape_copy_. apply shape_eqb_refl.
    + assert (Y : copy_ ck1 k1 x = x).
      { apply copy_miss. intros v' G'. congruence. }
      now rewrite Y, Hx.
  - assert (Y : copy_ ck1 k1 x = x).
    { apply copy_miss. intros v' G'. congruence. }
    now rewrite Y, Hx.
Qed.

End Composed.

(** ** The second call *)

Section Twice.
Context {T : Type} `{TensorEngine T}.
Variable fs : string -> option (Dict.t T).

Lemma fits_key_shapes (ck d d' : Dict.t T) :
  key_shapes d = key_shapes d' -> fits ck d = fits ck d'.
Proof.
  unfold fits. revert d'.
  induction d as [|[k v] d IH]; intros [|[k' v'] d']; cbn;
    try discriminate; [reflexivity|].
  intros [= -> Es E]. rewrite (IH d' E). f_equal.
  unfold size_mismatch. cbn [fst snd]. now rewrite Es.
Qed.

Lemma checkpoint_ok_key_shapes (m m' : ResNet.t (T:=T)) ck :
  key_shapes (state_dict "" m') = key_shapes (state_dict "" m) ->
  checkpoint_ok m' ck = checkpoint_ok m ck.
Proof.
  intros E. unfold checkpoint_ok. now rewrite (@fits_key_shapes ck _ _ E).
Qed.

(** The network after one call of [load_combination_weight] that
    returns. *)
Definition loaded_once (m : ResNet.t (T:=T)) (ck0 ck1 ck2 ck3 ck4 ck5 : Dict.t T)
  : ResNet.t (T:=T) :=
  groups_loaded (map_parameters (copy_ ck0) "" m) ck1 ck2 ck3 ck4 ck5.

Lemma stage_twice q (ck0 ck1 : Dict.t T) (l : Sequential.t (T:=T)) :
  Sequential.map_named (below q (copy_ ck1)) ""
    (Sequential.map_named (copy_ ck0) (q ++ "")
       (Sequential.map_named (below q (copy_ ck1)) ""
          (Sequential.map_named (copy_ ck0) (q ++ "") l)))
  = Sequential.map_named (below q (copy_ ck1)) ""
      (Sequential.map_named (copy_ ck0) (q ++ "") l).
Proof.
  unfold Sequential.map_named.
  rewrite !sequential_map_shift_from, !sequential_map_map_from.
  apply sequential_map_named_from_ext. intros k v _.
  unfold then_, below. apply copy_twice.
Qed.

Lemma head_twice q (ck0 ck1 : Dict.t T) (l : Linear.t (T:=T)) :
  Linear.map_named (below q (copy_ ck1)) ""
    (Linear.map_named (copy_ ck0) (q ++ "")
       (Linear.map_named (below q (copy_ ck1)) ""
          (Linear.map_named (copy_ ck0) (q ++ "") l)))
  = Linear.map_named (below q (copy_ ck1)) ""
      (Linear.map_named (copy_ ck0) (q ++ "") l).
Proof.
  rewrite !linear_map_shift, !linear_map_map.
  apply linear_map_named_ext. intros k v _.
  unfold then_, below. apply copy_twice.
Qed.

Lemma loaded_twice (m : ResNet.t (T:=T)) ck0 ck1 ck2 ck3 ck4 ck5 :
  loaded_once (loaded_once m ck0 ck1 ck2 ck3 ck4 ck5) ck0 ck1 ck2 ck3 ck4 ck5
  = loaded_once m ck0 ck1 ck2 ck3 ck4 ck5.
Proof.
  unfold loaded_once, groups_loaded.
  cbn [map_parameters ResNet.module]. unfold ResNet.map_named.
  unfold ResNet.with_children.
  cbn [ResNet.conv1 ResNet.bn1 ResNet.layer1 ResNet.layer2 ResNet.layer3
       ResNet.layer4 ResNet.fc ResNet.inplanes ResNet.avgpool ResNet.temp
       ResNet.block_names ResNet.weight_root ResNet._block
       ResNet._num_classes ResNet._tau ResNet.model_name ResNet.alphas
       ResNet.gumbel].
  f_equal.
  - unfold Conv2d.map_named. cbn [Conv2d.weight Conv2d.in_channels
      Conv2d.out_channels Conv2d.kernel_size Conv2d.stride Conv2d.padding].
    now rewrite copy_again.
  - unfold BatchNorm2d.map_named.
    cbn [BatchNorm2d.num_features BatchNorm2d.weight BatchNorm2d.bias
         BatchNorm2d.running_mean BatchNorm2d.running_var
         BatchNorm2d.num_batches_tracked].
    now rewrite !copy_again.
  - exact (stage_twice "layer1." ck0 ck1 (ResNet.layer1 m)).
  - exact (stage_twice "layer2." ck0 ck2 (ResNet.layer2 m)).
  - exact (stage_twice "layer3." ck0 ck3 (ResNet.layer3 m)).
  - exact (stage_twice "layer4." ck0 ck4 (ResNet.layer4 m)).
  - exact (head_twice "fc." ck0 ck5 (ResNet.fc m)).
Qed.

(** X17.  Under the conditions in which [load_combination_weight]
    returns (the five group names, an entry of [combination] for each
    group, a baseline with exactly the parameter names of the network,
    six files that are checkpoints of the architecture), a second call
    with the same arguments returns too and leaves the network as the
    first call left it. *)
Theorem load_combination_weight_twice
        (s : ResNet.call_state (T:=T)) (combination : list Z)
        (weight_folder model_name : string) (c1 c2 c3 c4 c5 : Z) (rest : list Z)
        (ck0 ck1 ck2 ck3 ck4 ck5 : Dict.t T) :
  let m := ResNet.self s in
  let path c := Py.format_model_path weight_folder model_name (c + 1) in
  let p50 := Py.format_model_path weight_folder model_name 50 in
  let once :=
    ResNet.load_combination_weight fs combination weight_folder model_name s in
  let twice :=
    ResNet.load_combination_weight fs combination weight_folder model_name
                                   (fst once) in
  ResNet.block_names m = ["layer1"; "layer2"; "layer3"; "layer4"; "fc"] ->
  combination = c1 :: c2 :: c3 :: c4 :: c5 :: rest ->
  fs p50 = Some ck0 ->
  fs (path c1) = Some ck1 -> fs (path c2) = Some ck2 ->
  fs (path c3) = Some ck3 -> fs (path c4) = Some ck4 ->
  fs (path c5) = Some ck5 ->
  (forall k, In k (Dict.keys ck0) <-> In k (Dict.keys (state_dict "" m))) ->
  checkpoint_ok m ck0 = true ->
  checkpoint_ok m ck1 = true -> checkpoint_ok m ck2 = true ->
  checkpoint_ok m ck3 = true -> checkpoint_ok m ck4 = true ->
  checkpoint_ok m ck5 = true ->
  snd once = inr tt /\ snd twice = inr tt
  /\ ResNet.self (fst twice) = ResNet.self (fst once).
Proof.
  intros m path p50 once twice Hnames Hc F0 F1 F2 F3 F4 F5 Hk
         K0 K1 K2 K3 K4 K5.
  assert (Hok : snd (load_state_dict m ck0 true) = []).
  { apply strict_load_ok; [exact Hk|].
    now apply checkpoint_ok_inv in K0. }
  pose proof (@load_combination_weight_ok _ _ fs s combination weight_folder
                model_name c1 c2 c3 c4 c5 rest ck0 ck1 ck2 ck3 ck4 ck5
                Hnames Hc F0 Hok F1 F2 F3 F4 F5 K1 K2 K3 K4 K5) as E1.
  fold m in E1. fold (loaded_once m ck0 ck1 ck2 ck3 ck4 ck5) in E1.
  pose proof (load_combination_weight_key_shapes fs combination weight_folder
                model_name s) as S1.
  unfold same_key_shapes in S1. fold once in E1, S1.
  assert (E2 : twice
               = ({| ResNet.self :=
                       loaded_once (ResNet.self (fst once))
                                   ck0 ck1 ck2 ck3 ck4 ck5;
                     ResNet.opened :=
                       (ResNet.opened (fst once)
                        ++ [p50; path c1; path c2; path c3; path c4;
                            path c5])%list |}, inr tt)).
  { pose proof (f_equal (map fst) S1) as Sk. rewrite !key_shapes_keys in Sk.
    apply (@load_combination_weight_ok _ _ fs (fst once) combination
             weight_folder model_name c1 c2 c3 c4 c5 rest
             ck0 ck1 ck2 ck3 ck4 ck5); try assumption.
    - rewrite E1. exact Hnames.
    - apply strict_load_ok.
      + intros k. rewrite Sk. apply Hk.
      + apply checkpoint_ok_inv in K0. destruct K0 as (_ & _ & Q0).
        now rewrite (@fits_key_shapes ck0 _ _ S1).
    - now rewrite (@checkpoint_ok_key_shapes m _ ck1 S1).
    - now rewrite (@checkpoint_ok_key_shapes m _ ck2 S1).
    - now rewrite (@checkpoint_ok_key_shapes m _ ck3 S1).
    - now rewrite (@checkpoint_ok_key_shapes m _ ck4 S1).
    - now rewrite (@checkpoint_ok_key_shapes m _ ck5 S1). }
  rewrite E2. rewrite E1 at 1. cbn [fst snd ResNet.self].
  split; [reflexivity|]. split; [reflexivity|].
  rewrite E1. cbn [fst ResNet.self]. apply loaded_twice.
Qed.

End Twice.

(* ================================================================== *)
(** * The constructor functions *)

Section Depth.
Context {T : Type} `{TensorEngine T} `{RandomSource}.

(** The convolutions on the main path of a block. *)
Definition main_convs (b : Block.t (T:=T)) : nat :=
  match b with
  | Block.OfBasic _ => 2
  | Block.OfBottle _ => 3
  end.

(** The layers with weights on the way from the input to the logits: the
    first convolution, the convolutions on the main paths of the blocks
    and the linear layer. *)
Definition weighted_layers (m : ResNet.t (T:=T)) : nat :=
  1 + list_sum (map main_convs (all_blocks m)) + 1.

Definition convs_of (c : Block.cls) : nat :=
  match c with
  | Block.Basic => 2
  | Block.Bottle => 3
  end.

Lemma constructed_as_convs c ip p s ds (b : Block.t (T:=T)) :
  constructed_as c ip p s ds b -> main_convs b = convs_of c.
Proof. intros [st ->]. now destruct c. Qed.

Lemma stage_convs c ip p blocks s (l : Sequential.t (T:=T)) :
  stage_of c ip p blocks s l ->
  List.length l = Nat.max 1 blocks
  /\ list_sum (map main_convs l) = convs_of c * Nat.max 1 blocks.
Proof.
  intros [(first & rest & ds & -> & Hf & _ & Hl & Hr)].
  assert (E : list_sum (map main_convs rest) = convs_of c * List.length rest).
  { clear Hl. unfold list_sum.
    induction Hr as [|b rest Hb Hr IH]; cbn [map fold_right List.length];
      [lia|].
    rewrite IH, (constructed_as_convs Hb). lia. }
  unfold list_sum in *. cbn [List.length map fold_right].
  rewrite E, (constructed_as_convs Hf), Hl. split; lia.
Qed.

(** The depths of the stages and the number of layers with weights of a
    constructed network: a stage has [layers[i]] blocks, and one block
    when [layers[i]] is [0]. *)
Lemma constructed_depth c l0 l1 l2 l3 tau nc temp wr (m : ResNet.t (T:=T)) :
  constructed c l0 l1 l2 l3 tau nc temp wr m ->
  map (@List.length _)
      [ResNet.layer1 m; ResNet.layer2 m; ResNet.layer3 m; ResNet.layer4 m]
  = [Nat.max 1 l0; Nat.max 1 l1; Nat.max 1 l2; Nat.max 1 l3]
  /\ weighted_layers m
     = 2 + convs_of c * (Nat.max 1 l0 + Nat.max 1 l1 + Nat.max 1 l2
                         + Nat.max 1 l3).
Proof.
  intros Hc.
  destruct (constructed_stages Hc) as (S1 & S2 & S3 & S4).
  destruct (stage_convs S1) as [L1 C1], (stage_convs S2) as [L2 C2],
           (stage_convs S3) as [L3 C3], (stage_convs S4) as [L4 C4].
  split; [cbn [map]; now rewrite L1, L2, L3, L4|].
  unfold weighted_layers, all_blocks.
  rewrite !map_app, !list_sum_app, C1, C2, C3, C4. lia.
Qed.

(** What a constructor function returns. *)
Definition builds (made : option (ResNet.t (T:=T))) (c : Block.cls)
           (depths : list nat) (layers : nat) : Prop :=
  exists m,
    made = Some m
    /\ ResNet._block m = c
    /\ map (@List.length _)
           [ResNet.layer1 m; ResNet.layer2 m; ResNet.layer3 m; ResNet.layer4 m]
       = depths
    /\ weighted_layers m = layers.

Lemma init_builds c l0 l1 l2 l3 tau nc temp wr rng0 :
  builds (ResNet.__init__ c [l0; l1; l2; l3] tau nc temp wr rng0) c
         [Nat.max 1 l0; Nat.max 1 l1; Nat.max 1 l2; Nat.max 1 l3]
         (2 + convs_of c * (Nat.max 1 l0 + Nat.max 1 l1 + Nat.max 1 l2
                            + Nat.max 1 l3)).
Proof.
  eexists. split; [reflexivity|].
  pose proof (construct_spec c l0 l1 l2 l3 tau nc temp wr rng0) as Hc.
  split; [apply (cons_block Hc) | apply (constructed_depth Hc)].
Qed.


End Depth.

(* ================================================================== *)
(** * Concrete runs of the further properties *)

(** The state dict of [resnet18_instance], as a checkpoint. *)
Definition own_checkpoint : Dict.t ShapeEngine.tensor :=
  state_dict "" (ResNet.self resnet18_state).

(** Three stores: no file at all, every file holding [own_checkpoint],
    and the baseline of [load_combination_weight] alone. *)
Definition empty_store (path : string) : option (Dict.t ShapeEngine.tensor) :=
  None.

Definition own_store (path : string) : option (Dict.t ShapeEngine.tensor) :=
  Some own_checkpoint.

Definition baseline_store (path : string)
  : option (Dict.t ShapeEngine.tensor) :=
  if String.eqb path (Py.format_model_path "weights" "resnet18" 50)
  then Some own_checkpoint else None.

Lemma own_checkpoint_strict :
  snd (load_state_dict (ResNet.self resnet18_state) own_checkpoint true) = [].
Proof. vm_compute. reflexivity. Qed.

Lemma own_checkpoint_ok :
  checkpoint_ok (ResNet.self resnet18_state) own_checkpoint = true.
Proof. vm_compute. reflexivity. Qed.

Lemma baseline_store_baseline :
  baseline_store (Py.format_model_path "weights" "resnet18" 50)
  = Some own_checkpoint.
Proof. unfold baseline_store. now rewrite String.eqb_refl. Qed.

Lemma baseline_store_candidate :
  baseline_store (Py.format_model_path "weights" "resnet18" (0 + 1)) = None.
Proof. reflexivity. Qed.

Lemma resnet18_first_group :
  Py.index (ResNet.block_names (ResNet.self resnet18_state)) "layer1" = Some 0.
Proof. vm_compute. reflexivity. Qed.

Lemma resnet18_five_groups :
  firstn (List.length (ResNet.block_names (ResNet.self resnet18_state)))
         [0; 0; 0; 0; 0]%Z
  = firstn (List.length (ResNet.block_names (ResNet.self resnet18_state)))
           [0; 0; 0; 0; 0; 7]%Z.
Proof. vm_compute. reflexivity. Qed.

Lemma missing_baseline_file_witness :
  let m := ResNet.self resnet18_state in
  let p42 := Py.format_model_path (Py.str_of_opt (ResNet.weight_root m))
                                  (ResNet.model_name m) 42 in
  ResNet.load_gumbel_weight empty_store resnet18_state
  = ({| ResNet.self := m;
        ResNet.opened := (ResNet.opened resnet18_state ++ [p42])%list |},
     inl (ResNet.FileNotFoundError p42)).
Proof.
  intros m p42.
  pose proof (missing_baseline_file empty_store resnet18_state [] "" "") as P.
  cbv zeta in P. destruct P as [P _]. exact (P eq_refl).
Defined.

Lemma missing_group_file_witness :
  let s1 := after_baseline resnet18_state
              (Py.format_model_path "weights" "resnet18" 50)
              own_checkpoint true in
  let path := Py.format_model_path "weights" "resnet18" (0 + 1) in
  ResNet.load_combination_weight baseline_store [0; 0; 0; 0; 0]%Z
                                 "weights" "resnet18" resnet18_state
  = ({| ResNet.self := ResNet.self s1;
        ResNet.opened := (ResNet.opened s1 ++ [path])%list |},
     inl (ResNet.FileNotFoundError path)).
Proof.
  intros s1 path.
  pose proof (@missing_group_file _ _ baseline_store resnet18_state s1
                [0; 0; 0; 0; 0]%Z "weights" "resnet18" own_checkpoint
                [] ["layer2"; "layer3"; "layer4"; "fc"] "layer1" 0 0%Z) as P.
  cbv zeta in P.
  exact (P baseline_store_baseline own_checkpoint_strict resnet18_block_names
           eq_refl resnet18_first_group eq_refl baseline_store_candidate).
Defined.

Lemma short_combination_witness :
  exists s' e,
    ResNet.load_combination_weight own_store [1; 2]%Z "weights" "resnet18"
                                   resnet18_state
    = (s', inl e).
Proof.
  pose proof (@short_combination _ _ own_store resnet18_state [1; 2]%Z
                "weights" "resnet18") as P.
  cbv zeta in P.
  destruct (P resnet18_block_names ltac:(cbn; lia)) as [Q _]. exact Q.
Defined.

Lemma combination_prefix_witness :
  ResNet.load_combination_weight own_store [0; 0; 0; 0; 0]%Z
                                 "weights" "resnet18" resnet18_state
  = ResNet.load_combination_weight own_store [0; 0; 0; 0; 0; 7]%Z
                                   "weights" "resnet18" resnet18_state.
Proof.
  exact (@combination_prefix _ _ own_store resnet18_state
           [0; 0; 0; 0; 0]%Z [0; 0; 0; 0; 0; 7]%Z "weights" "resnet18"
           resnet18_five_groups).
Defined.

Lemma own_checkpoint_keys (k : string) :
  In k (Dict.keys own_checkpoint)
  <-> In k (Dict.keys (state_dict "" (ResNet.self resnet18_state))).
Proof. unfold own_checkpoint. reflexivity. Qed.

Lemma own_checkpoint_key_shapes :
  key_shapes own_checkpoint
  = key_shapes (state_dict "" (ResNet.self resnet18_state)).
Proof. unfold own_checkpoint. reflexivity. Qed.


Lemma complete_checkpoint_restores_witness :
  let path c := Py.format_model_path "weights" "resnet18" (c + 1) in
  let p50 := Py.format_model_path "weights" "resnet18" 50 in
  exists m',
    ResNet.load_combination_weight own_store [0; 1; 2; 3; 4]%Z
                                   "weights" "resnet18" resnet18_state
    = ({| ResNet.self := m';
          ResNet.opened :=
            (ResNet.opened resnet18_state
             ++ [p50; path 0%Z; path 1%Z; path 2%Z; path 3%Z; path 4%Z])%list |},
       inr tt)
    /\ state_dict "" m' = own_checkpoint.
Proof.
  intros path p50.
  pose proof (@complete_checkpoint_restores _ _ own_store resnet18_state
                [0; 1; 2; 3; 4]%Z "weights" "resnet18" 0%Z 1%Z 2%Z 3%Z 4%Z []
                own_checkpoint) as P.
  cbv zeta in P.
  exact (P resnet18_block_names eq_refl own_checkpoint_key_shapes
           eq_refl eq_refl eq_refl eq_refl eq_refl eq_refl).
Defined.

Lemma load_combination_weight_twice_witness :
  let once :=
    ResNet.load_combination_weight own_store [0; 1; 2; 3; 4]%Z
                                   "weights" "resnet18" resnet18_state in
  let twice :=
    ResNet.load_combination_weight own_store [0; 1; 2; 3; 4]%Z
                                   "weights" "resnet18" (fst once) in
  snd once = inr tt /\ snd twice = inr tt
  /\ ResNet.self (fst twice) = ResNet.self (fst once).
Proof.
  intros once twice.
  pose proof (@load_combination_weight_twice _ _ own_store resnet18_state
                [0; 1; 2; 3; 4]%Z "weights" "resnet18" 0%Z 1%Z 2%Z 3%Z 4%Z []
                own_checkpoint own_checkpoint own_checkpoint own_checkpoint
                own_checkpoint own_checkpoint) as P.
  cbv zeta in P. pose proof own_checkpoint_ok as K.
  exact (P resnet18_block_names eq_refl eq_refl eq_refl eq_refl eq_refl
           eq_refl eq_refl own_checkpoint_keys K K K K K K).
Defined.

(** A second [resnet18], with other keyword arguments and another state
    of the random generator. *)
Definition resnet18_other : ResNet.t (T:=ShapeEngine.tensor) :=
  fst (ResNet.construct Block.Basic 2 2 2 2 (1 / 2)%R 200 2%R (Some "weights")
         {| Ctor.inplanes := 64; Ctor.rng := 7 |}).

Lemma resnet18_other_built :
  ResNet.__init__ (T:=ShapeEngine.tensor) Block.Basic [2; 2; 2; 2]
                  (1 / 2)%R 200 2%R (Some "weights") 7
  = Some resnet18_other.
Proof. vm_compute. reflexivity. Qed.

Lemma checkpoint_transfer_witness :
  snd (load_state_dict resnet18_other (state_dict "" resnet18_instance) true)
  = []
  /\ state_dict ""
       (fst (load_state_dict resnet18_other (state_dict "" resnet18_instance)
                             true))
     = state_dict "" resnet18_instance.
Proof.
  exact (@checkpoint_transfer _ _ _ Block.Basic [2; 2; 2; 2] 200
           (1 / 10)%R 1%R None 0 (1 / 2)%R 2%R (Some "weights") 7
           resnet18_instance resnet18_other true
           resnet18_built resnet18_other_built).
Defined.

Lemma loaders_agree_witness :
  let m := ResNet.self resnet18_state in
  let root := Py.str_of_opt (ResNet.weight_root m) in
  let name := ResNet.model_name m in
  let index :=
    torch_argmax (gumbel_softmax (ResNet.alphas m) (ResNet._tau m)
                                 (ResNet.gumbel m)) in
  let by_sampler := ResNet.load_gumbel_weight own_store resnet18_state in
  let by_hand :=
    ResNet.load_combination_weight own_store (map Z.of_nat index) root name
                                   resnet18_state in
  ResNet.self (fst by_sampler) = ResNet.self (fst by_hand)
  /\ snd by_sampler = match snd by_hand with
                      | inl e => inl e
                      | inr _ => inr index
                      end.
Proof.
  intros m root name index by_sampler by_hand.
  pose proof (@loaders_agree _ _ own_store resnet18_state own_checkpoint) as P.
  cbv zeta in P. exact (P eq_refl eq_refl own_checkpoint_strict).
Defined.


Example forward_rejects :
  ResNet.forward resnet18_instance [2; 1; 64; 64] = None
  /\ ResNet.forward resnet18_instance [0; 3; 64; 64] = None
  /\ ResNet.forward resnet18_instance [2; 3; 1; 1] = Some [2; 200].
Proof. vm_compute. repeat split. Qed.

